(** * The native interop library behind the F# bindings: handles, errors, matrices

    A shallow embedding of [src/cpp/cpp_operations.cpp] (with the
    declarations of [cpp_operations.hpp]) and proofs about its handle
    protocol, its last-error slot, its matrix engine and the other
    classes behind the handles.

    Layout of the development:
    - machine numbers ([int], [size_t], IEEE doubles and floats);
    - C++ exceptions and the two effect types: [result] for the methods of
      the wrapper classes, [M] for the [extern "C"] functions, which also
      thread the heap of live objects, the last-error slot and [std::cout];
    - the classes, one module per class, methods under their C++ names;
    - the [extern "C"] functions under their C names;
    - the properties.

    What the embedding takes for granted about the platform:
    - LP64: [int] has 32 bits, [size_t] and pointers have 64;
    - memory suffices: [operator new] and the growth of a container do
      not fail, so the only exceptions are the ones the code and the
      checks of the standard containers throw;
    - [double] and [float] arithmetic is IEEE 754 binary64 and binary32,
      rounding to nearest even, each operation rounded on its own;
    - [int] arithmetic that overflows wraps around;
    - the "C" locale. *)

From Stdlib Require Import ZArith String Ascii List Bool Lia.
From Stdlib Require Import SpecFloat.
From stdpp Require Import gmap strings list list_numbers sorting pretty.

Open Scope Z_scope.

(** ** Machine numbers *)

(** [int] is a 32-bit two's complement integer, carried in [Z]. *)
Definition INT_MIN : Z := - 2 ^ 31.
Definition INT_MAX : Z := 2 ^ 31 - 1.
Definition is_int (z : Z) : Prop := INT_MIN <= z <= INT_MAX.

(** Conversion of a wide value to [int] ([static_cast<int>], and the
    result of [int] arithmetic on the target). *)
Definition wrap_int (z : Z) : Z := (z + 2 ^ 31) mod 2 ^ 32 - 2 ^ 31.

(** [size_t] is 64 bits wide (LP64); converting an [int] to it wraps a
    negative value around to the top of the range. *)
Definition SIZE_WIDTH : Z := 64.
Definition to_size_t (z : Z) : Z := z mod 2 ^ SIZE_WIDTH.
Definition PTRDIFF_MAX : Z := 2 ^ 63 - 1.

(** [std::vector<T>::max_size()] for elements of [elem] bytes. *)
Definition max_size (elem : Z) : Z := PTRDIFF_MAX / elem.

(** [double] and [float] are the IEEE 754 binary64 and binary32 formats,
    with the arithmetic of the Standard Library's executable
    specification (round to nearest even, no NaN payload). *)
Definition double : Type := spec_float.
Definition float : Type := spec_float.

(** The arithmetic a numeric template parameter [T] has to support. *)
Record Numeric (T : Type) : Type := {
  of_int : Z -> T;
  add : T -> T -> T;
  sub : T -> T -> T;
  mul : T -> T -> T;
  div : T -> T -> T
}.
Arguments of_int {T} _ _.
Arguments add {T} _ _ _.
Arguments sub {T} _ _ _.
Arguments mul {T} _ _ _.
Arguments div {T} _ _ _.

Definition ieee (prec emax : Z) : Numeric spec_float := {|
  of_int z := binary_normalize prec emax z 0 false;
  add := SFadd prec emax;
  sub := SFsub prec emax;
  mul := SFmul prec emax;
  div := SFdiv prec emax
|}.

Definition double_num : Numeric double := ieee 53 1024.
Definition float_num : Numeric float := ieee 24 128.

Definition dzero : double := S754_zero false.
Definition fzero : float := S754_zero false.

(** [1.0] *)
Definition one : double := S754_finite false 4503599627370496 (-52).
Definition dadd : double -> double -> double := add double_num.
Definition dmul : double -> double -> double := mul double_num.
Definition dsqrt : double -> double := SFsqrt 53 1024.

(** A finite double: a zero, or a number whose mantissa and exponent fit
    the binary64 format. *)
Definition is_finite_double (x : double) : bool :=
  match x with
  | S754_zero _ => true
  | S754_finite _ m e => bounded 53 1024 m e
  | _ => false
  end.

(** ** What the toolchain supplies

    The texts of the exceptions the standard library throws and
    [std::pow] are not part of the repository; the development is
    parametric in them. *)
Class Toolchain : Type := {
  (** [what()] of the [std::out_of_range] thrown by [vector::at] for
      position [n] of a vector of [size] elements *)
  range_check_what : Z -> Z -> string;
  (** [what()] of the [std::length_error] thrown by the constructor
      [vector(n, x)] for an [n] above [max_size()] *)
  init_length_what : string;
  (** [what()] of the [std::length_error] thrown by [vector::resize]
      when the vector would grow past [max_size()] *)
  resize_length_what : string;
  (** [what()] of [std::bad_array_new_length] *)
  bad_array_new_length_what : string;
  std_pow : double -> double -> double
}.

(** What is inserted into [std::cout] with [<<]; how a double is
    formatted is left to the stream. *)
Inductive cout_item : Type :=
  | put_double (x : double)
  | put_text (text : string)
  | put_endl.

(** ** Exceptions *)

Inductive exception_class : Type :=
  | out_of_range
  | invalid_argument
  | length_error
  | bad_array_new_length.

Record exception : Type := Exception {
  exn_class : exception_class;
  what : string
}.

(** The types named in the [catch] clauses of the source. All four
    exception classes derive from [std::exception]. *)
Inductive catch_clause : Type :=
  | catch_out_of_range
  | catch_invalid_argument
  | catch_exception.

Definition catches (c : catch_clause) (e : exception) : bool :=
  match c, exn_class e with
  | catch_exception, _ => true
  | catch_out_of_range, out_of_range => true
  | catch_invalid_argument, invalid_argument => true
  | _, _ => false
  end.

(** ** Results of class methods

    A method returns normally, throws, or has undefined behaviour (an
    unchecked access outside a container). *)
Inductive result (A : Type) : Type :=
  | Ok (a : A)
  | Throw (e : exception)
  | Undef.
Arguments Ok {A} a.
Arguments Throw {A} e.
Arguments Undef {A}.

Definition result_bind {A B} (m : result A) (k : A -> result B) : result B :=
  match m with
  | Ok a => k a
  | Throw e => Throw e
  | Undef => Undef
  end.

Notation "'let*' x ':=' m 'in' k" := (result_bind m (fun x => k))
  (at level 10, x pattern, m at level 100, k at level 200,
   format "'let*'  x  ':='  m  'in' '//' k").

(** [for (int i = 0; i < n; i++) body], threading the loop state. *)
Fixpoint for_each {A St} (body : A -> St -> result St) (l : list A) (s : St)
  : result St :=
  match l with
  | [] => Ok s
  | i :: l' => let* s' := body i s in for_each body l' s'
  end.

Definition for_range {St} (n : Z) (body : Z -> St -> result St) (s : St)
  : result St :=
  for_each body (seqZ 0 n) s.

(** ** [std::vector] *)

Module Vector.
Section WithToolchain.
Context `{Toolchain}.

(** [v.at(index)] for an [int] index: the index converts to
    [size_type] and is checked against [size()]. *)
Definition at_ {A} (v : list A) (index : Z) : result A :=
  let n := to_size_t index in
  if n <? Z.of_nat (length v)
  then match v !! Z.to_nat n with
       | Some x => Ok x
       | None => Undef
       end
  else Throw (Exception out_of_range (range_check_what n (Z.of_nat (length v)))).

(** [v[index]]: no check. *)
Definition index {A} (v : list A) (i : Z) : result A :=
  if (0 <=? i) && (i <? Z.of_nat (length v))
  then match v !! Z.to_nat i with
       | Some x => Ok x
       | None => Undef
       end
  else Undef.

(** [std::vector<T>(n, x)] for an [int] count [n] and elements of
    [elem] bytes. Memory is taken to be sufficient: only a count above
    [max_size()] fails. *)
Definition make {A} (elem : Z) (n : Z) (x : A) : result (list A) :=
  let n' := to_size_t n in
  if max_size elem <? n'
  then Throw (Exception length_error init_length_what)
  else Ok (replicate (Z.to_nat n') x).

(** [v.resize(n, x)] for an [int] count [n]: copies of [x] are appended
    up to [n] elements, or the vector is cut down to [n]. *)
Definition resize {A} (elem : Z) (v : list A) (n : Z) (x : A) : result (list A) :=
  let n' := to_size_t n in
  let size := Z.of_nat (length v) in
  if size <? n'
  then if max_size elem - size <? n' - size
       then Throw (Exception length_error resize_length_what)
       else Ok (v ++ replicate (Z.to_nat (n' - size)) x)
  else Ok (take (Z.to_nat n') v).
End WithToolchain.
End Vector.

(** ** The wrapper classes

    An object is a record of its data members; a method takes the object
    and returns its result together with the object as the method leaves
    it (a [const] method returns the result alone). *)

Module VectorWrapper.
Section WithToolchain.
Context `{Toolchain}.

Record t : Type := Build { data : list Z }.

Definition new : t := Build [].

Definition add (this : t) (value : Z) : t := Build (data this ++ [value]).

Definition get (this : t) (index : Z) : result Z := Vector.at_ (data this) index.

Definition size (this : t) : Z := wrap_int (Z.of_nat (length (data this))).

Definition clear (this : t) : t := Build [].

(** [std::accumulate(begin, end, 0)]: [int] additions from the left. *)
Definition sum (this : t) : Z :=
  fold_left (fun acc x => wrap_int (acc + x)) (data this) 0.

(** [std::sort] with the default [<] on [int]. *)
Definition sort (this : t) : t := Build (merge_sort Z.le (data this)).
End WithToolchain.
End VectorWrapper.

Module StringWrapper.
Record t : Type := Build { data : string }.

Definition new (initial : string) : t := Build initial.

Definition c_str (this : t) : string := data this.
Definition append (this : t) (text : string) : t := Build (data this +:+ text).
Definition prepend (this : t) (text : string) : t := Build (text +:+ data this).
Definition length (this : t) : Z := wrap_int (Z.of_nat (String.length (data this))).

Definition reverse (this : t) : t := Build (String.rev (data this)).

(** [std::transform(begin, end, begin, f)] *)
Fixpoint transform (f : ascii -> ascii) (s : string) : string :=
  match s with
  | EmptyString => EmptyString
  | String c s' => String (f c) (transform f s')
  end.

(** [::toupper] and [::tolower] in the "C" locale. *)
Definition toupper (c : ascii) : ascii :=
  let n := N_of_ascii c in
  if ((97 <=? n) && (n <=? 122))%N then ascii_of_N (n - 32) else c.
Definition tolower (c : ascii) : ascii :=
  let n := N_of_ascii c in
  if ((65 <=? n) && (n <=? 90))%N then ascii_of_N (n + 32) else c.

Definition to_upper (this : t) : t := Build (transform toupper (data this)).
Definition to_lower (this : t) : t := Build (transform tolower (data this)).
End StringWrapper.

Module Matrix.
Section WithToolchain.
Context `{Toolchain}.

Record t : Type := Build {
  data : list (list double);
  rows_ : Z;
  cols_ : Z
}.

(** Bytes of a [double] and of a [std::vector<double>] (three pointers). *)
Definition SIZEOF_DOUBLE : Z := 8.
Definition SIZEOF_ROW : Z := 24.

(** [Matrix(int rows, int cols)]: the row prototype
    [std::vector<double>(cols, 0.0)] is built first, then
    [data.resize(rows, prototype)] fills the empty [data]. *)
Definition new (rows cols : Z) : result t :=
  let* prototype := Vector.make SIZEOF_DOUBLE cols dzero in
  let* d := Vector.resize SIZEOF_ROW [] rows prototype in
  Ok (Build d rows cols).

(** [data.at(row).at(col) = value] *)
Definition set (this : t) (row col : Z) (value : double) : result t :=
  let* r := Vector.at_ (data this) row in
  let* _ := Vector.at_ r col in
  Ok (Build (<[Z.to_nat (to_size_t row) :=
                <[Z.to_nat (to_size_t col) := value]> r]> (data this))
            (rows_ this) (cols_ this)).

(** [data.at(row).at(col)] *)
Definition get (this : t) (row col : Z) : result double :=
  let* r := Vector.at_ (data this) row in
  Vector.at_ r col.

Definition rows (this : t) : Z := rows_ this.
Definition cols (this : t) : Z := cols_ this.

(** [data[i][j]], unchecked *)
Definition cell (this : t) (i j : Z) : result double :=
  let* r := Vector.index (data this) i in
  Vector.index r j.

Definition dimension_mismatch : exception :=
  Exception invalid_argument "Matrix dimensions don't match for multiplication".

(** The innermost loop of [multiply]: [sum += data[i][k] * other.data[k][j]]. *)
Definition multiply_step (this other : t) (i j k : Z) (sum : double)
  : result double :=
  let* a := cell this i k in
  let* b := cell other k j in
  Ok (dadd sum (dmul a b)).

Definition multiply (this other : t) : result t :=
  if negb (cols_ this =? rows_ other) then Throw dimension_mismatch
  else
    let* result0 := new (rows_ this) (cols_ other) in
    for_range (rows_ this) (fun i result1 =>
      for_range (cols_ other) (fun j result2 =>
        let* sum := for_range (cols_ this) (multiply_step this other i j) dzero in
        set result2 i j sum) result1) result0.

Definition transpose (this : t) : result t :=
  let* result0 := new (cols_ this) (rows_ this) in
  for_range (rows_ this) (fun i result1 =>
    for_range (cols_ this) (fun j result2 =>
      let* x := cell this i j in
      set result2 j i x) result1) result0.

(** [print] returns what it inserts into [std::cout], in order. *)
Definition print (this : t) : result (list cout_item) :=
  for_range (rows_ this) (fun i out1 =>
    let* out2 := for_range (cols_ this) (fun j out =>
        let* x := cell this i j in
        Ok (out ++ [put_double x; put_text " "])) out1 in
    Ok (out2 ++ [put_endl])) [].
End WithToolchain.
End Matrix.

Module SmartResource.
Section WithToolchain.
Context `{Toolchain}.

Record t : Type := Build {
  data : list double;
  size_ : Z
}.

(** [SmartResource(int size)]: [std::make_unique<double[]>(size)] takes
    the count as [size_t] and value-initialises the array; a count whose
    byte size does not fit throws. The constructor body then stores
    [0.0] in every cell. *)
Definition new (size : Z) : result t :=
  let n := to_size_t size in
  if max_size 8 <? n
  then Throw (Exception bad_array_new_length bad_array_new_length_what)
  else
    let* d := for_range size (fun i d =>
        let* _ := Vector.index d i in Ok (<[Z.to_nat i := dzero]> d))
      (replicate (Z.to_nat n) dzero) in
    Ok (Build d size).

Definition set (this : t) (index : Z) (value : double) : result t :=
  if (0 <=? index) && (index <? size_ this)
  then let* _ := Vector.index (data this) index in
       Ok (Build (<[Z.to_nat index := value]> (data this)) (size_ this))
  else Ok this.

Definition get (this : t) (index : Z) : result double :=
  if (0 <=? index) && (index <? size_ this)
  then Vector.index (data this) index
  else Ok dzero.

Definition size (this : t) : Z := size_ this.
End WithToolchain.
End SmartResource.

(** A caller's array behind a [const T*]: [None] is the null pointer,
    [Some l] a pointer to the elements [l]. *)
Definition array (T : Type) : Type := option (list T).

(** The range [[a, a + count)] of a caller's array; reading outside the
    array is undefined. *)
Definition array_range {T} (a : array T) (count : Z) : result (list T) :=
  if count =? 0 then Ok []
  else match a with
       | Some l =>
           if (0 <? count) && (count <=? Z.of_nat (length l))
           then Ok (take (Z.to_nat count) l)
           else Undef
       | None => Undef
       end.

Definition array_get {T} `{Toolchain} (a : array T) (i : Z) : result T :=
  match a with
  | Some l => Vector.index l i
  | None => Undef
  end.

Module IteratorWrapper.
Section WithToolchain.
Context `{Toolchain}.

(** [current] is kept as its distance from [data.begin()]. *)
Record t : Type := Build {
  data : list Z;
  current : Z
}.

Definition end_ (this : t) : Z := Z.of_nat (length (data this)).

(** [IteratorWrapper(const int* array, int size)] *)
Definition new (a : array Z) (size : Z) : result t :=
  let* d := array_range a size in
  Ok (Build d 0).

Definition has_next (this : t) : bool := negb (current this =? end_ this).

(** [*current++] *)
Definition next (this : t) : result (Z * t) :=
  if has_next this
  then let* x := Vector.index (data this) (current this) in
       Ok (x, Build (data this) (current this + 1))
  else Ok (0, this).

Definition reset (this : t) : t := Build (data this) 0.

(** [std::find(first, last, value)], as the distance of the position
    found from [first]; the length of the range when there is none. *)
Fixpoint std_find (l : list Z) (value : Z) : Z :=
  match l with
  | [] => 0
  | x :: l' => if x =? value then 0 else 1 + std_find l' value
  end.

Definition find (this : t) (value : Z) : bool * t :=
  let it := std_find (data this) value in
  if negb (it =? end_ this)
  then (true, Build (data this) it)
  else (false, this).
End WithToolchain.
End IteratorWrapper.

(** ** The numeric templates *)

Section Templates.
Context `{Toolchain} {T : Type} (num : Numeric T).

Definition calculate_mean_template (values : array T) (count : Z) : result T :=
  if count <=? 0 then Ok (of_int num 0)
  else
    let* range := array_range values count in
    let sum := fold_left (add num) range (of_int num 0) in
    Ok (div num sum (of_int num count)).

Definition calculate_variance_template (values : array T) (count : Z) : result T :=
  if count <=? 0 then Ok (of_int num 0)
  else
    let* mean := calculate_mean_template values count in
    let* sum_squared_diff := for_range count (fun i acc =>
        let* x := array_get values i in
        let diff := sub num x mean in
        Ok (add num acc (mul num diff diff))) (of_int num 0) in
    Ok (div num sum_squared_diff (of_int num count)).
End Templates.

(** ** The boundary: handles, the heap and the last-error slot *)

(** A handle is a [void*]: an address, [0] for the null pointer. *)
Definition Handle : Type := N.
Definition nullptr : Handle := 0%N.
Definition is_null (h : Handle) : bool := (h =? 0)%N.

(** The three closures a [FunctionHandle] can point to. *)
Inductive std_function : Type :=
  | lambda_add
  | lambda_multiply
  | lambda_power.

Definition std_function_call `{Toolchain} (f : std_function) (a b : double) : double :=
  match f with
  | lambda_add => dadd a b
  | lambda_multiply => dmul a b
  | lambda_power => std_pow a b
  end.

(** What an address of the heap holds: an object made by one of the
    [*_create] functions, or a cell of the caller that an out-parameter
    points to. *)
Inductive object : Type :=
  | a_vector (v : VectorWrapper.t)
  | a_string (s : StringWrapper.t)
  | a_matrix (m : Matrix.t)
  | a_resource (r : SmartResource.t)
  | a_function (f : std_function)
  | an_iterator (it : IteratorWrapper.t)
  | an_int (z : Z)
  | a_handle (h : Handle).

(** The state of the process: the heap, the [static std::string
    last_error_message], and the text written to [std::cout]. [faults]
    is a ghost record with no counterpart in the source: the exceptions
    that [catch] clauses have handled so far, latest first. *)
Record State : Type := mkState {
  heap : gmap N object;
  last_error_message : string;
  cout : list cout_item;
  faults : list exception
}.

Definition with_heap (s : State) (h : gmap N object) : State :=
  mkState h (last_error_message s) (cout s) (faults s).
Definition with_message (s : State) (msg : string) : State :=
  mkState (heap s) msg (cout s) (faults s).
Definition with_cout (s : State) (out : list cout_item) : State :=
  mkState (heap s) (last_error_message s) out (faults s).
Definition with_fault (s : State) (e : exception) : State :=
  mkState (heap s) (last_error_message s) (cout s) (e :: faults s).

(** How a call of a boundary function ends: it returns, an exception
    leaves it, or its behaviour is undefined (a dangling or mistyped
    handle, an unchecked access out of range). *)
Inductive outcome (A : Type) : Type :=
  | Returns (a : A) (s : State)
  | Escapes (e : exception) (s : State)
  | Undefined.
Arguments Returns {A} a s.
Arguments Escapes {A} e s.
Arguments Undefined {A}.

Definition M (A : Type) : Type := State -> outcome A.

Definition ret {A} (a : A) : M A := fun s => Returns a s.

Definition bind {A B} (m : M A) (k : A -> M B) : M B :=
  fun s =>
    match m s with
    | Returns a s' => k a s'
    | Escapes e s' => Escapes e s'
    | Undefined => Undefined
    end.

Notation "x <- m ;; k" := (bind m (fun x => k))
  (at level 100, m at next level, right associativity).
Notation "m ;;; k" := (bind m (fun _ => k))
  (at level 100, right associativity).

(** A method call inside a boundary function. *)
Definition lift {A} (r : result A) : M A :=
  fun s =>
    match r with
    | Ok a => Returns a s
    | Throw e => Escapes e s
    | Undef => Undefined
    end.

(** [try { body } catch (C1& e) { h1 } catch (C2& e) { h2 } ...]: the
    first clause whose type matches the exception handles it. *)
Definition try_catch {A} (body : M A)
    (handlers : list (catch_clause * (exception -> M A))) : M A :=
  fun s =>
    match body s with
    | Escapes e s' =>
        match List.find (fun h => catches (fst h) e) handlers with
        | Some h => snd h e (with_fault s' e)
        | None => Escapes e s'
        end
    | o => o
    end.

(** [last_error_message = e.what();] *)
Definition set_last_error (e : exception) : M unit :=
  fun s => Returns tt (with_message s (what e)).

(** [new T(...)]: the object is placed at an address that is neither
    null nor in use. *)
Definition new_object (o : object) : M Handle :=
  fun s =>
    let a := fresh ({[ 0%N ]} ∪ dom (heap s)) in
    Returns a (with_heap s (<[a := o]> (heap s))).

(** [*static_cast<T*>(handle)]: defined only when a [T] lives there. *)
Definition deref {T} (as_T : object -> option T) (handle : Handle) : M T :=
  fun s =>
    match heap s !! handle with
    | Some o => match as_T o with
                | Some x => Returns x s
                | None => Undefined
                end
    | None => Undefined
    end.

Definition store (handle : Handle) (o : object) : M unit :=
  fun s => Returns tt (with_heap s (<[handle := o]> (heap s))).

(** [delete static_cast<T*>(handle)]: nothing for the null pointer. *)
Definition delete {T} (as_T : object -> option T) (handle : Handle) : M unit :=
  if is_null handle then ret tt
  else
    _ <- deref as_T handle ;;
    (fun s => Returns tt (with_heap s (base.delete handle (heap s)))).

Definition as_vector (o : object) : option VectorWrapper.t :=
  match o with a_vector v => Some v | _ => None end.
Definition as_string (o : object) : option StringWrapper.t :=
  match o with a_string v => Some v | _ => None end.
Definition as_matrix (o : object) : option Matrix.t :=
  match o with a_matrix v => Some v | _ => None end.
Definition as_resource (o : object) : option SmartResource.t :=
  match o with a_resource v => Some v | _ => None end.
Definition as_function (o : object) : option std_function :=
  match o with a_function v => Some v | _ => None end.
Definition as_iterator (o : object) : option IteratorWrapper.t :=
  match o with an_iterator v => Some v | _ => None end.
Definition as_int (o : object) : option Z :=
  match o with an_int v => Some v | _ => None end.
Definition as_handle (o : object) : option Handle :=
  match o with a_handle v => Some v | _ => None end.

(** [*result = x] through an [int*], and through a [MatrixHandle*]. *)
Definition write_int (result : Handle) (x : Z) : M unit :=
  _ <- deref as_int result ;; store result (an_int x).
Definition write_handle (result : Handle) (x : Handle) : M unit :=
  _ <- deref as_handle result ;; store result (a_handle x).

Definition print (items : list cout_item) : M unit :=
  fun s => Returns tt (with_cout s (cout s ++ items)).

Definition read_last_error : M string :=
  fun s => Returns (last_error_message s) s.

(** The clause every function of the source but the two [safe_] ones
    uses: [catch (const std::exception& e) { last_error_message =
    e.what(); ... }], ending in the value [a]. *)
Definition on_exception {A} (a : A) : list (catch_clause * (exception -> M A)) :=
  [ (catch_exception, fun e => set_last_error e ;;; ret a) ].

(** ** The [extern "C"] functions of [cpp_operations.cpp] *)

Inductive CppResultCode : Type :=
  | CPP_SUCCESS
  | CPP_NULL_POINTER
  | CPP_OUT_OF_BOUNDS
  | CPP_INVALID_OPERATION
  | CPP_MEMORY_ERROR
  | CPP_UNKNOWN_ERROR.

Definition code_value (c : CppResultCode) : Z :=
  match c with
  | CPP_SUCCESS => 0
  | CPP_NULL_POINTER => -1
  | CPP_OUT_OF_BOUNDS => -2
  | CPP_INVALID_OPERATION => -3
  | CPP_MEMORY_ERROR => -4
  | CPP_UNKNOWN_ERROR => -5
  end.

(** A [const char*] argument: [None] is the null pointer. *)
Definition c_string : Type := option string.

Section Boundary.
Context `{Toolchain}.

(** *** Vector operations *)

Definition vector_create : M Handle :=
  try_catch (new_object (a_vector VectorWrapper.new)) (on_exception nullptr).

Definition vector_destroy (handle : Handle) : M unit :=
  delete as_vector handle.

Definition vector_add (handle : Handle) (value : Z) : M unit :=
  if is_null handle then ret tt
  else
    v <- deref as_vector handle ;;
    store handle (a_vector (VectorWrapper.add v value)).

Definition vector_get (handle : Handle) (index : Z) : M Z :=
  if is_null handle then ret 0
  else
    try_catch
      (v <- deref as_vector handle ;; lift (VectorWrapper.get v index))
      (on_exception 0).

Definition vector_size (handle : Handle) : M Z :=
  if is_null handle then ret 0
  else v <- deref as_vector handle ;; ret (VectorWrapper.size v).

Definition vector_clear (handle : Handle) : M unit :=
  if is_null handle then ret tt
  else
    v <- deref as_vector handle ;;
    store handle (a_vector (VectorWrapper.clear v)).

Definition vector_sum (handle : Handle) : M Z :=
  if is_null handle then ret 0
  else v <- deref as_vector handle ;; ret (VectorWrapper.sum v).

Definition vector_sort (handle : Handle) : M unit :=
  if is_null handle then ret tt
  else
    v <- deref as_vector handle ;;
    store handle (a_vector (VectorWrapper.sort v)).

(** *** String operations *)

Definition string_create (initial_value : c_string) : M Handle :=
  try_catch
    (new_object (a_string (StringWrapper.new
       (match initial_value with Some text => text | None => "" end))))
    (on_exception nullptr).

Definition string_destroy (handle : Handle) : M unit :=
  delete as_string handle.

Definition string_get_cstr (handle : Handle) : M string :=
  if is_null handle then ret ""
  else w <- deref as_string handle ;; ret (StringWrapper.c_str w).

Definition string_append (handle : Handle) (text : c_string) : M unit :=
  match is_null handle, text with
  | false, Some text' =>
      w <- deref as_string handle ;;
      store handle (a_string (StringWrapper.append w text'))
  | _, _ => ret tt
  end.

Definition string_prepend (handle : Handle) (text : c_string) : M unit :=
  match is_null handle, text with
  | false, Some text' =>
      w <- deref as_string handle ;;
      store handle (a_string (StringWrapper.prepend w text'))
  | _, _ => ret tt
  end.

Definition string_length_cpp (handle : Handle) : M Z :=
  if is_null handle then ret 0
  else w <- deref as_string handle ;; ret (StringWrapper.length w).

Definition string_reverse (handle : Handle) : M unit :=
  if is_null handle then ret tt
  else
    w <- deref as_string handle ;;
    store handle (a_string (StringWrapper.reverse w)).

Definition string_to_upper (handle : Handle) : M unit :=
  if is_null handle then ret tt
  else
    w <- deref as_string handle ;;
    store handle (a_string (StringWrapper.to_upper w)).

Definition string_to_lower (handle : Handle) : M unit :=
  if is_null handle then ret tt
  else
    w <- deref as_string handle ;;
    store handle (a_string (StringWrapper.to_lower w)).

(** *** Mathematical operations *)

Definition calculate_mean_double (values : array double) (count : Z) : M double :=
  try_catch (lift (calculate_mean_template double_num values count))
    (on_exception dzero).

Definition calculate_mean_float (values : array float) (count : Z) : M float :=
  try_catch (lift (calculate_mean_template float_num values count))
    (on_exception fzero).

Definition calculate_variance (values : array double) (count : Z) : M double :=
  try_catch (lift (calculate_variance_template double_num values count))
    (on_exception dzero).

Definition calculate_standard_deviation (values : array double) (count : Z)
  : M double :=
  try_catch
    (variance <- lift (calculate_variance_template double_num values count) ;;
     ret (dsqrt variance))
    (on_exception dzero).

(** *** Matrix operations *)

Definition matrix_create (rows cols : Z) : M Handle :=
  try_catch
    (m <- lift (Matrix.new rows cols) ;; new_object (a_matrix m))
    (on_exception nullptr).

Definition matrix_destroy (handle : Handle) : M unit :=
  delete as_matrix handle.

Definition matrix_set (handle : Handle) (row col : Z) (value : double) : M unit :=
  if is_null handle then ret tt
  else
    try_catch
      (m <- deref as_matrix handle ;;
       m' <- lift (Matrix.set m row col value) ;;
       store handle (a_matrix m'))
      (on_exception tt).

Definition matrix_get (handle : Handle) (row col : Z) : M double :=
  if is_null handle then ret dzero
  else
    try_catch
      (m <- deref as_matrix handle ;; lift (Matrix.get m row col))
      (on_exception dzero).

Definition matrix_rows (handle : Handle) : M Z :=
  if is_null handle then ret 0
  else m <- deref as_matrix handle ;; ret (Matrix.rows m).

Definition matrix_cols (handle : Handle) : M Z :=
  if is_null handle then ret 0
  else m <- deref as_matrix handle ;; ret (Matrix.cols m).

Definition matrix_multiply (a b : Handle) : M Handle :=
  if is_null a || is_null b then ret nullptr
  else
    try_catch
      (ma <- deref as_matrix a ;;
       mb <- deref as_matrix b ;;
       product <- lift (Matrix.multiply ma mb) ;;
       new_object (a_matrix product))
      (on_exception nullptr).

Definition matrix_transpose (handle : Handle) : M Handle :=
  if is_null handle then ret nullptr
  else
    try_catch
      (m <- deref as_matrix handle ;;
       transposed <- lift (Matrix.transpose m) ;;
       new_object (a_matrix transposed))
      (on_exception nullptr).

Definition matrix_print (handle : Handle) : M unit :=
  if is_null handle then ret tt
  else
    m <- deref as_matrix handle ;;
    items <- lift (Matrix.print m) ;;
    print items.

(** *** Smart resource operations *)

Definition smart_resource_create (size : Z) : M Handle :=
  try_catch
    (r <- lift (SmartResource.new size) ;; new_object (a_resource r))
    (on_exception nullptr).

Definition smart_resource_use (handle : Handle) (index : Z) (value : double)
  : M unit :=
  if is_null handle then ret tt
  else
    r <- deref as_resource handle ;;
    r' <- lift (SmartResource.set r index value) ;;
    store handle (a_resource r').

Definition smart_resource_get (handle : Handle) (index : Z) : M double :=
  if is_null handle then ret dzero
  else r <- deref as_resource handle ;; lift (SmartResource.get r index).

Definition smart_resource_size (handle : Handle) : M Z :=
  if is_null handle then ret 0
  else r <- deref as_resource handle ;; ret (SmartResource.size r).

(** *** Function operations *)

Definition function_create_add : M Handle :=
  try_catch (new_object (a_function lambda_add)) (on_exception nullptr).

Definition function_create_multiply : M Handle :=
  try_catch (new_object (a_function lambda_multiply)) (on_exception nullptr).

Definition function_create_power : M Handle :=
  try_catch (new_object (a_function lambda_power)) (on_exception nullptr).

Definition function_destroy (handle : Handle) : M unit :=
  delete as_function handle.

Definition function_call (handle : Handle) (a b : double) : M double :=
  if is_null handle then ret dzero
  else
    try_catch
      (f <- deref as_function handle ;; ret (std_function_call f a b))
      (on_exception dzero).

(** *** Iterator operations *)

Definition iterator_create (a : array Z) (size : Z) : M Handle :=
  try_catch
    (it <- lift (IteratorWrapper.new a size) ;; new_object (an_iterator it))
    (on_exception nullptr).

Definition iterator_destroy (handle : Handle) : M unit :=
  delete as_iterator handle.

Definition iterator_has_next (handle : Handle) : M Z :=
  if is_null handle then ret 0
  else
    it <- deref as_iterator handle ;;
    ret (if IteratorWrapper.has_next it then 1 else 0).

Definition iterator_next (handle : Handle) : M Z :=
  if is_null handle then ret 0
  else
    it <- deref as_iterator handle ;;
    r <- lift (IteratorWrapper.next it) ;;
    store handle (an_iterator (snd r)) ;;;
    ret (fst r).

Definition iterator_reset (handle : Handle) : M unit :=
  if is_null handle then ret tt
  else
    it <- deref as_iterator handle ;;
    store handle (an_iterator (IteratorWrapper.reset it)).

Definition iterator_find (handle : Handle) (value : Z) : M Z :=
  if is_null handle then ret 0
  else
    it <- deref as_iterator handle ;;
    let r := IteratorWrapper.find it value in
    store handle (an_iterator (snd r)) ;;;
    ret (if fst r then 1 else 0).

(** *** Exception handling *)

Definition safe_vector_get (handle : Handle) (index : Z) (result : Handle)
  : M CppResultCode :=
  if is_null handle then ret CPP_NULL_POINTER
  else if is_null result then ret CPP_NULL_POINTER
  else
    try_catch
      (v <- deref as_vector handle ;;
       x <- lift (VectorWrapper.get v index) ;;
       write_int result x ;;;
       ret CPP_SUCCESS)
      [ (catch_out_of_range, fun e => set_last_error e ;;; ret CPP_OUT_OF_BOUNDS);
        (catch_exception, fun e => set_last_error e ;;; ret CPP_UNKNOWN_ERROR) ].

Definition safe_matrix_multiply (a b : Handle) (result : Handle)
  : M CppResultCode :=
  if is_null a || is_null b then ret CPP_NULL_POINTER
  else if is_null result then ret CPP_NULL_POINTER
  else
    try_catch
      (ma <- deref as_matrix a ;;
       mb <- deref as_matrix b ;;
       product <- lift (Matrix.multiply ma mb) ;;
       p <- new_object (a_matrix product) ;;
       write_handle result p ;;;
       ret CPP_SUCCESS)
      [ (catch_invalid_argument, fun e => set_last_error e ;;; ret CPP_INVALID_OPERATION);
        (catch_exception, fun e => set_last_error e ;;; ret CPP_UNKNOWN_ERROR) ].

Definition get_last_error_message : M string := read_last_error.

End Boundary.

(** *** One type for all calls *)

Inductive value : Type :=
  | v_void
  | v_int (z : Z)
  | v_double (x : double)
  | v_float (x : float)
  | v_text (text : string)
  | v_handle (h : Handle)
  | v_code (c : CppResultCode).

(** A call of a boundary function with its arguments. *)
Inductive call : Type :=
  | call_vector_create
  | call_vector_destroy (handle : Handle)
  | call_vector_add (handle : Handle) (value : Z)
  | call_vector_get (handle : Handle) (index : Z)
  | call_vector_size (handle : Handle)
  | call_vector_clear (handle : Handle)
  | call_vector_sum (handle : Handle)
  | call_vector_sort (handle : Handle)
  | call_string_create (initial_value : c_string)
  | call_string_destroy (handle : Handle)
  | call_string_get_cstr (handle : Handle)
  | call_string_append (handle : Handle) (text : c_string)
  | call_string_prepend (handle : Handle) (text : c_string)
  | call_string_length_cpp (handle : Handle)
  | call_string_reverse (handle : Handle)
  | call_string_to_upper (handle : Handle)
  | call_string_to_lower (handle : Handle)
  | call_calculate_mean_double (values : array double) (count : Z)
  | call_calculate_mean_float (values : array float) (count : Z)
  | call_calculate_variance (values : array double) (count : Z)
  | call_calculate_standard_deviation (values : array double) (count : Z)
  | call_matrix_create (rows cols : Z)
  | call_matrix_destroy (handle : Handle)
  | call_matrix_set (handle : Handle) (row col : Z) (x : double)
  | call_matrix_get (handle : Handle) (row col : Z)
  | call_matrix_rows (handle : Handle)
  | call_matrix_cols (handle : Handle)
  | call_matrix_multiply (a b : Handle)
  | call_matrix_transpose (handle : Handle)
  | call_matrix_print (handle : Handle)
  | call_smart_resource_create (size : Z)
  | call_smart_resource_use (handle : Handle) (index : Z) (x : double)
  | call_smart_resource_get (handle : Handle) (index : Z)
  | call_smart_resource_size (handle : Handle)
  | call_function_create_add
  | call_function_create_multiply
  | call_function_create_power
  | call_function_destroy (handle : Handle)
  | call_function_call (handle : Handle) (a b : double)
  | call_iterator_create (a : array Z) (size : Z)
  | call_iterator_destroy (handle : Handle)
  | call_iterator_has_next (handle : Handle)
  | call_iterator_next (handle : Handle)
  | call_iterator_reset (handle : Handle)
  | call_iterator_find (handle : Handle) (value : Z)
  | call_safe_vector_get (handle : Handle) (index : Z) (result : Handle)
  | call_safe_matrix_multiply (a b : Handle) (result : Handle)
  | call_get_last_error_message.

Definition returning {A} (wrap : A -> value) (m : M A) : M value :=
  x <- m ;; ret (wrap x).

Definition void (_ : unit) : value := v_void.

Definition run `{Toolchain} (c : call) : M value :=
  match c with
  | call_vector_create => returning v_handle vector_create
  | call_vector_destroy h => returning void (vector_destroy h)
  | call_vector_add h x => returning void (vector_add h x)
  | call_vector_get h i => returning v_int (vector_get h i)
  | call_vector_size h => returning v_int (vector_size h)
  | call_vector_clear h => returning void (vector_clear h)
  | call_vector_sum h => returning v_int (vector_sum h)
  | call_vector_sort h => returning void (vector_sort h)
  | call_string_create t => returning v_handle (string_create t)
  | call_string_destroy h => returning void (string_destroy h)
  | call_string_get_cstr h => returning v_text (string_get_cstr h)
  | call_string_append h t => returning void (string_append h t)
  | call_string_prepend h t => returning void (string_prepend h t)
  | call_string_length_cpp h => returning v_int (string_length_cpp h)
  | call_string_reverse h => returning void (string_reverse h)
  | call_string_to_upper h => returning void (string_to_upper h)
  | call_string_to_lower h => returning void (string_to_lower h)
  | call_calculate_mean_double v n => returning v_double (calculate_mean_double v n)
  | call_calculate_mean_float v n => returning v_float (calculate_mean_float v n)
  | call_calculate_variance v n => returning v_double (calculate_variance v n)
  | call_calculate_standard_deviation v n =>
      returning v_double (calculate_standard_deviation v n)
  | call_matrix_create r c => returning v_handle (matrix_create r c)
  | call_matrix_destroy h => returning void (matrix_destroy h)
  | call_matrix_set h r c x => returning void (matrix_set h r c x)
  | call_matrix_get h r c => returning v_double (matrix_get h r c)
  | call_matrix_rows h => returning v_int (matrix_rows h)
  | call_matrix_cols h => returning v_int (matrix_cols h)
  | call_matrix_multiply a b => returning v_handle (matrix_multiply a b)
  | call_matrix_transpose h => returning v_handle (matrix_transpose h)
  | call_matrix_print h => returning void (matrix_print h)
  | call_smart_resource_create n => returning v_handle (smart_resource_create n)
  | call_smart_resource_use h i x => returning void (smart_resource_use h i x)
  | call_smart_resource_get h i => returning v_double (smart_resource_get h i)
  | call_smart_resource_size h => returning v_int (smart_resource_size h)
  | call_function_create_add => returning v_handle function_create_add
  | call_function_create_multiply => returning v_handle function_create_multiply
  | call_function_create_power => returning v_handle function_create_power
  | call_function_destroy h => returning void (function_destroy h)
  | call_function_call h a b => returning v_double (function_call h a b)
  | call_iterator_create a n => returning v_handle (iterator_create a n)
  | call_iterator_destroy h => returning void (iterator_destroy h)
  | call_iterator_has_next h => returning v_int (iterator_has_next h)
  | call_iterator_next h => returning v_int (iterator_next h)
  | call_iterator_reset h => returning void (iterator_reset h)
  | call_iterator_find h x => returning v_int (iterator_find h x)
  | call_safe_vector_get h i r => returning v_code (safe_vector_get h i r)
  | call_safe_matrix_multiply a b r => returning v_code (safe_matrix_multiply a b r)
  | call_get_last_error_message => returning v_text get_last_error_message
  end.

(** ** A concrete toolchain and concrete states, for the examples *)

(** GNU libstdc++: the texts of its exceptions. [gnu_pow] is a stand-in
    for the C library's [pow], right only where Annex F of the C standard
    fixes the value ([1.0] for a zero exponent and for a base of [1.0]);
    nothing below depends on it. *)
Definition gnu_pow (a b : double) : double :=
  match a, b with
  | _, S754_zero _ => one
  | S754_finite false 4503599627370496 (-52), _ => one
  | _, _ => S754_nan
  end.

Definition gnu : Toolchain := {|
  range_check_what n size :=
    "vector::_M_range_check: __n (which is " +:+ pretty n +:+
    ") >= this->size() (which is " +:+ pretty size +:+ ")";
  init_length_what := "cannot create std::vector larger than max_size()";
  resize_length_what := "vector::_M_fill_insert";
  bad_array_new_length_what := "std::bad_array_new_length";
  std_pow := gnu_pow
|}.

(** The process before any call: nothing allocated, no message. *)
Definition initial : State := mkState ∅ "" [] [].

(** The state a call leaves behind, when it returns. *)
Definition state_after {A} (o : outcome A) (otherwise : State) : State :=
  match o with
  | Returns _ s => s
  | _ => otherwise
  end.

Definition returned {A} (o : outcome A) : option A :=
  match o with
  | Returns a _ => Some a
  | _ => None
  end.

(** ** Shapes of matrices *)

(** The data members agree: [rows_] rows of [cols_] cells each, both
    counts being non-negative [int]s. *)
Definition well_formed (m : Matrix.t) : bool :=
  (0 <=? Matrix.rows_ m) && (Matrix.rows_ m <=? INT_MAX)
  && (0 <=? Matrix.cols_ m) && (Matrix.cols_ m <=? INT_MAX)
  && (Z.of_nat (length (Matrix.data m)) =? Matrix.rows_ m)
  && forallb (fun r => Z.of_nat (length r) =? Matrix.cols_ m) (Matrix.data m).

(** The cell in row [i] and column [j], [0.0] outside the matrix. *)
Definition entry (m : Matrix.t) (i j : Z) : double :=
  nth (Z.to_nat j) (nth (Z.to_nat i) (Matrix.data m) []) dzero.

(** The sum over [t] of [a[i,t] * b[t,j]], in the order of [t], starting
    from [0.0], in double arithmetic. *)
Definition dot_product (a b : Matrix.t) (i j : Z) : double :=
  fold_left (fun sum t => dadd sum (dmul (entry a i t) (entry b t j)))
            (seqZ 0 (Matrix.cols_ a)) dzero.

(** [m] has [r] rows of [c] cells, and says so. *)
Definition shaped (m : Matrix.t) (r c : Z) : Prop :=
  Matrix.rows_ m = r /\ Matrix.cols_ m = c
  /\ 0 <= r <= INT_MAX /\ 0 <= c <= INT_MAX
  /\ length (Matrix.data m) = Z.to_nat r
  /\ Forall (fun row => length row = Z.to_nat c) (Matrix.data m).

(** The matrix the constructor builds. *)
Definition zeros (rows cols : Z) : Matrix.t :=
  Matrix.Build (replicate (Z.to_nat rows) (replicate (Z.to_nat cols) dzero))
               rows cols.

(** ** Roles of the boundary functions *)

(** What a call does with the object behind its handle: it reads
    something out of it and has a fixed value to return when there is no
    object, or it changes the object (or prints or releases it) and
    returns nothing. *)
Inductive role : Type :=
  | accessor (sentinel : value)
  | mutator
  | other.

Definition role_of (c : call) : role :=
  match c with
  | call_vector_get _ _ | call_vector_size _ | call_vector_sum _
  | call_string_length_cpp _
  | call_matrix_rows _ | call_matrix_cols _
  | call_smart_resource_size _
  | call_iterator_has_next _ | call_iterator_next _ | call_iterator_find _ _ =>
      accessor (v_int 0)
  | call_matrix_get _ _ _ | call_smart_resource_get _ _
  | call_function_call _ _ _ =>
      accessor (v_double dzero)
  | call_string_get_cstr _ => accessor (v_text "")
  | call_vector_add _ _ | call_vector_clear _ | call_vector_sort _
  | call_string_append _ _ | call_string_prepend _ _ | call_string_reverse _
  | call_string_to_upper _ | call_string_to_lower _
  | call_matrix_set _ _ _ _ | call_matrix_print _
  | call_smart_resource_use _ _ _
  | call_iterator_reset _
  | call_vector_destroy _ | call_string_destroy _ | call_matrix_destroy _
  | call_function_destroy _ | call_iterator_destroy _ =>
      mutator
  | _ => other
  end.

(** The handles a call is given (out-parameters are not handles). *)
Definition handles_of (c : call) : list Handle :=
  match c with
  | call_vector_destroy h | call_vector_add h _ | call_vector_get h _
  | call_vector_size h | call_vector_clear h | call_vector_sum h
  | call_vector_sort h
  | call_string_destroy h | call_string_get_cstr h | call_string_append h _
  | call_string_prepend h _ | call_string_length_cpp h | call_string_reverse h
  | call_string_to_upper h | call_string_to_lower h
  | call_matrix_destroy h | call_matrix_set h _ _ _ | call_matrix_get h _ _
  | call_matrix_rows h | call_matrix_cols h | call_matrix_transpose h
  | call_matrix_print h
  | call_smart_resource_use h _ _ | call_smart_resource_get h _
  | call_smart_resource_size h
  | call_function_destroy h | call_function_call h _ _
  | call_iterator_destroy h | call_iterator_has_next h | call_iterator_next h
  | call_iterator_reset h | call_iterator_find h _
  | call_safe_vector_get h _ _ => [h]
  | call_matrix_multiply a b | call_safe_matrix_multiply a b _ => [a; b]
  | _ => []
  end.

(** ** Frame conditions on the last-error slot *)

(** A computation that leaves the last-error slot and the record of
    handled exceptions as they were, however it ends. *)
Definition quiet {A} (m : M A) : Prop :=
  forall s,
    match m s with
    | Returns _ s' | Escapes _ s' =>
        last_error_message s' = last_error_message s /\ faults s' = faults s
    | Undefined => True
    end.

(** A computation that lets no exception out, and that either handles
    none and leaves the last-error slot alone, or handles one and leaves
    its text in the slot. *)
Definition accounted {A} (m : M A) : Prop :=
  forall s,
    match m s with
    | Returns _ s' =>
        (faults s' = faults s /\ last_error_message s' = last_error_message s)
        \/ (exists e, faults s' = e :: faults s /\ last_error_message s' = what e)
    | Escapes _ _ => False
    | Undefined => True
    end.

Definition never_throws {A} (r : result A) : Prop :=
  match r with Throw _ => False | _ => True end.

Definition no_throw {A} (m : M A) : Prop :=
  forall s, match m s with Escapes _ _ => False | _ => True end.

(** A handler as the source writes them: it stores the message and
    returns a value. *)
Definition reports {A} (handler : exception -> M A) : Prop :=
  forall e, exists a, handler e = (set_last_error e ;;; ret a).

(** ** The invariant of the matrices *)

(** Every matrix of the heap is well formed. *)
Definition matrices_well_formed (s : State) : Prop :=
  forall h m, heap s !! h = Some (a_matrix m) -> well_formed m = true.

(** A computation that keeps the matrices of the heap well formed. *)
Definition keeps_matrices {A} (m : M A) : Prop :=
  forall s, matrices_well_formed s ->
    match m s with
    | Returns _ s' | Escapes _ s' => matrices_well_formed s'
    | Undefined => True
    end.

(** The object is not a matrix, or it is a well-formed one. *)
Definition sound (o : object) : Prop :=
  match o with
  | a_matrix m => well_formed m = true
  | _ => True
  end.

(** The arguments of [matrix_create] are [int]s. *)
Definition int_arguments (c : call) : Prop :=
  match c with
  | call_matrix_create rows cols => is_int rows /\ is_int cols
  | _ => True
  end.

(** ** Scenarios and sample objects *)

(** The iterator scenario of the specification: an iterator over
    [5, 7, 9] is reset, [7] is searched for, and [next] is called twice.
    The result is what [find] and the two [next] returned. *)
Definition find_then_next `{Toolchain} : M (Z * Z * Z) :=
  h <- iterator_create (Some [5; 7; 9]) 3 ;;
  iterator_reset h ;;;
  found <- iterator_find h 7 ;;
  first <- iterator_next h ;;
  second <- iterator_next h ;;
  ret (found, first, second).

Definition num (z : Z) : double := of_int double_num z.

(** [[1 2; 3 4]] and the column [[5; 6]]. *)
Definition sample_a : Matrix.t :=
  Matrix.Build [[num 1; num 2]; [num 3; num 4]] 2 2.
Definition sample_b : Matrix.t :=
  Matrix.Build [[num 5]; [num 6]] 2 1.

(** A process in which address 1 holds [sample_a], 2 [sample_b], 3 the
    vector [10, 20], 4 a buffer of two cells, 5 an [int] and 6 a
    [MatrixHandle] of the caller; an earlier call has failed and left its
    message. *)
Definition earlier_failure : exception :=
  Exception out_of_range "an earlier failure".

Definition sample : State :=
  mkState
    (<[1%N := a_matrix sample_a]>
      (<[2%N := a_matrix sample_b]>
        (<[3%N := a_vector (VectorWrapper.Build [10; 20])]>
          (<[4%N := a_resource (SmartResource.Build [dzero; dzero] 2)]>
            (<[5%N := an_int 77]>
              (<[6%N := a_handle nullptr]> ∅))))))
    (what earlier_failure) [] [earlier_failure].

(** ** Consistent processes, well-typed calls and frames on the heap *)

(** The sums [std::accumulate] goes through: all of them fit an [int]. *)
Fixpoint sums_fit (acc : Z) (l : list Z) : Prop :=
  match l with
  | [] => True
  | x :: l' => is_int (acc + x) /\ sums_fit (acc + x) l'
  end.

(** A buffer holds as many cells as its [size_] says, an [int] that is
    not negative. *)
Definition resource_ok (r : SmartResource.t) : Prop :=
  0 <= SmartResource.size_ r <= INT_MAX
  /\ Z.of_nat (length (SmartResource.data r)) = SmartResource.size_ r.

(** The cursor of an iterator is inside its snapshot, or at its end. *)
Definition iterator_ok (it : IteratorWrapper.t) : Prop :=
  0 <= IteratorWrapper.current it <= IteratorWrapper.end_ it.

(** The invariant of each kind of object. *)
Definition object_ok (o : object) : Prop :=
  match o with
  | a_matrix m => well_formed m = true
  | a_resource r => resource_ok r
  | an_iterator it => iterator_ok it
  | _ => True
  end.

(** A consistent process: every live object satisfies its invariant. *)
Definition consistent (s : State) : Prop :=
  forall h o, heap s !! h = Some o -> object_ok o.

(** A method call that ends, with a value or with an exception. *)
Definition defined {A} (r : result A) : Prop :=
  match r with Undef => False | _ => True end.

(** What [print] sends for one row, and for a matrix. *)
Definition row_items (row : list double) : list cout_item :=
  flat_map (fun x => [put_double x; put_text " "]) row ++ [put_endl].

Definition matrix_items (m : Matrix.t) : list cout_item :=
  flat_map row_items (Matrix.data m).

(** A caller's array from which [count] elements can be read. *)
Definition readable {T} (a : array T) (count : Z) : Prop :=
  count <= 0 \/ exists l, a = Some l /\ count <= Z.of_nat (length l).

(** The pointer is null, or an object of the expected type lives there. *)
Definition points_to {T} (as_T : object -> option T) (s : State) (h : Handle) : Prop :=
  h = nullptr \/ exists o x, heap s !! h = Some o /\ as_T o = Some x.

(** The arguments of a call are what its C signature promises: every
    handle is null or points to a live object of the type the function
    casts it to, every out-parameter is null or points to a cell of the
    caller, every array holds as many elements as the count says, and a
    size is an [int]. *)
Definition well_typed (c : call) (s : State) : Prop :=
  match c with
  | call_vector_destroy h | call_vector_add h _ | call_vector_get h _
  | call_vector_size h | call_vector_clear h | call_vector_sum h
  | call_vector_sort h => points_to as_vector s h
  | call_string_destroy h | call_string_get_cstr h | call_string_append h _
  | call_string_prepend h _ | call_string_length_cpp h | call_string_reverse h
  | call_string_to_upper h | call_string_to_lower h => points_to as_string s h
  | call_matrix_destroy h | call_matrix_set h _ _ _ | call_matrix_get h _ _
  | call_matrix_rows h | call_matrix_cols h | call_matrix_transpose h
  | call_matrix_print h => points_to as_matrix s h
  | call_matrix_multiply a b => points_to as_matrix s a /\ points_to as_matrix s b
  | call_matrix_create rows cols => is_int rows /\ is_int cols
  | call_smart_resource_create size => is_int size
  | call_smart_resource_use h _ _ | call_smart_resource_get h _
  | call_smart_resource_size h => points_to as_resource s h
  | call_function_destroy h | call_function_call h _ _ => points_to as_function s h
  | call_iterator_create a size => 0 <= size /\ readable a size
  | call_iterator_destroy h | call_iterator_has_next h | call_iterator_next h
  | call_iterator_reset h | call_iterator_find h _ => points_to as_iterator s h
  | call_calculate_mean_double v n | call_calculate_variance v n
  | call_calculate_standard_deviation v n => readable v n
  | call_calculate_mean_float v n => readable v n
  | call_safe_vector_get h _ r => points_to as_vector s h /\ points_to as_int s r
  | call_safe_matrix_multiply a b r =>
      points_to as_matrix s a /\ points_to as_matrix s b /\ points_to as_handle s r
  | _ => True
  end.

(** A computation that keeps the process consistent. *)
Definition stays_consistent {A} (m : M A) : Prop :=
  forall s, consistent s ->
    match m s with
    | Returns _ s' | Escapes _ s' => consistent s'
    | Undefined => True
    end.

(** The computation does not run into undefined behaviour from [s]. *)
Definition safe {A} (m : M A) (s : State) : Prop := m s <> Undefined.

(** The pointers a call is given: its handles and its out-parameter. *)
Definition pointers_of (c : call) : list Handle :=
  match c with
  | call_safe_vector_get h _ result => [h; result]
  | call_safe_matrix_multiply a b result => [a; b; result]
  | _ => handles_of c
  end.

(** A computation that leaves every live object outside [hs] alone. *)
Definition leaves_alone {A} (hs : list Handle) (m : M A) : Prop :=
  forall s,
    match m s with
    | Returns _ s' | Escapes _ s' =>
        forall h o, h ∉ hs -> heap s !! h = Some o -> heap s' !! h = Some o
    | Undefined => True
    end.

(** A numeric buffer of [n] cells lives at [h]. *)
Definition holds_resource (h : Handle) (n : Z) (s : State) : Prop :=
  exists r, heap s !! h = Some (a_resource r) /\ SmartResource.size r = n.

(** A computation that neither releases nor resizes the buffer at [h]. *)
Definition keeps_resource {A} (h : Handle) (n : Z) (m : M A) : Prop :=
  forall s, holds_resource h n s ->
    match m s with
    | Returns _ s' | Escapes _ s' => holds_resource h n s'
    | Undefined => True
    end.

(** A client's loop: [n] calls of [iterator_next], the values in order. *)
Fixpoint iterator_take `{Toolchain} (h : Handle) (n : nat) : M (list Z) :=
  match n with
  | O => ret []
  | S n' =>
      x <- iterator_next h ;;
      rest <- iterator_take h n' ;;
      ret (x :: rest)
  end.

(** The calls that read or change the object behind their handle
    whenever the handle is not null: all but appending or prepending a
    null text. *)
Definition uses_its_handles (c : call) : Prop :=
  match c with
  | call_string_append _ None | call_string_prepend _ None => False
  | _ => True
  end.

(** A process in which address 1 holds the string ["Hello"] and address
    2 an iterator over [5, 7, 9, 7] that has yielded three elements. *)
Definition sample_text : State :=
  mkState
    (<[1%N := a_string (StringWrapper.Build "Hello")]>
      (<[2%N := an_iterator (IteratorWrapper.Build [5; 7; 9; 7] 3)]> ∅))
    "" [] [].

(** * Properties *)

(** ** The heap and the monad *)

Lemma is_null_false (h : Handle) : is_null h = false <-> h <> nullptr.
Proof. unfold is_null, nullptr. rewrite N.eqb_neq. tauto. Qed.

Lemma with_heap_same (s : State) : with_heap s (heap s) = s.
Proof. destruct s; reflexivity. Qed.

Lemma deref_live {T} (as_T : object -> option T) h s o x :
  heap s !! h = Some o -> as_T o = Some x -> deref as_T h s = Returns x s.
Proof. intros Hh Ho. unfold deref. rewrite Hh, Ho. reflexivity. Qed.

Lemma store_same h o s : heap s !! h = Some o -> store h o s = Returns tt s.
Proof.
  intros Hh. unfold store. rewrite insert_id by exact Hh.
  rewrite with_heap_same. reflexivity.
Qed.

Lemma heap_after_store s h o :
  heap (with_heap s (<[h := o]> (heap s))) !! h = Some o.
Proof. simpl. apply lookup_insert_eq. Qed.

Lemma heap_after_new s a o h o' :
  heap s !! a = None -> heap s !! h = Some o' ->
  heap (with_heap s (<[a := o]> (heap s))) !! h = Some o'.
Proof.
  intros Ha Hh. simpl. rewrite lookup_insert_ne; [exact Hh | congruence].
Qed.

(** [new] returns an address that is not null and was free. *)
Lemma new_object_fresh o s :
  exists a, new_object o s = Returns a (with_heap s (<[a := o]> (heap s)))
            /\ is_null a = false /\ heap s !! a = None.
Proof.
  unfold new_object.
  set (a := fresh ({[ 0%N ]} ∪ dom (heap s))).
  assert (Hfresh : a ∉ ({[ 0%N ]} ∪ dom (heap s) : gset N)) by apply is_fresh.
  exists a. split; [reflexivity|]. split.
  - apply is_null_false. unfold nullptr. set_solver.
  - apply not_elem_of_dom. set_solver.
Qed.

(** A list is never its own extension: a call that handled an exception
    is told apart from one that did not. *)
Lemma cons_neq_self {A} (x : A) (l : list A) : x :: l <> l.
Proof.
  intros Heq. apply (f_equal (@length A)) in Heq. simpl in Heq. lia.
Qed.

(** ** Loops *)

Lemma for_each_app {A St} (body : A -> St -> result St) l1 l2 s :
  for_each body (l1 ++ l2) s =
  let* s' := for_each body l1 s in for_each body l2 s'.
Proof.
  revert s. induction l1 as [|x l1 IH]; intros s; simpl; [reflexivity|].
  destruct (body x s); simpl; auto.
Qed.

(** The loop rule: an invariant that holds before the loop and is carried
    by each iteration holds after it, and the loop does return. *)
Lemma for_range_invariant {St} (I : Z -> St -> Prop) (n : Z)
    (body : Z -> St -> result St) (s0 : St) :
  0 <= n ->
  I 0 s0 ->
  (forall i s, 0 <= i < n -> I i s -> exists s', body i s = Ok s' /\ I (i + 1) s') ->
  exists s', for_range n body s0 = Ok s' /\ I n s'.
Proof.
  intros Hn H0 Hstep. unfold for_range.
  assert (Hgen : forall k : nat, Z.of_nat k <= n ->
            exists s', for_each body (seqZ 0 (Z.of_nat k)) s0 = Ok s' /\ I (Z.of_nat k) s').
  { induction k as [|k IH]; intros Hk.
    - exists s0. split; [reflexivity | exact H0].
    - destruct IH as (s1 & Hrun & Hinv); [lia|].
      destruct (Hstep (Z.of_nat k) s1) as (s2 & Hbody & Hinv2); [lia | exact Hinv |].
      exists s2. replace (Z.of_nat (S k)) with (Z.of_nat k + 1) by lia.
      rewrite seqZ_app by lia. rewrite for_each_app, Hrun. simpl.
      replace (Z.of_nat 0 + (0 + Z.of_nat k)) with (Z.of_nat k) by lia.
      rewrite Hbody. split; [reflexivity | exact Hinv2]. }
  destruct (Hgen (Z.to_nat n)) as (s' & Hrun & Hinv); [lia|].
  rewrite Z2Nat.id in * by lia. eauto.
Qed.

(** ** Indices and [std::vector] *)

Section VectorFacts.
Context `{Toolchain}.

Lemma to_size_t_small z : 0 <= z < 2 ^ 64 -> to_size_t z = z.
Proof. intros Hz. unfold to_size_t, SIZE_WIDTH. apply Z.mod_small. exact Hz. Qed.

Lemma to_size_t_negative z : INT_MIN <= z < 0 -> to_size_t z = z + 2 ^ 64.
Proof.
  intros Hz. unfold to_size_t, SIZE_WIDTH, INT_MIN in *.
  symmetry. apply (Z.mod_unique z (2 ^ 64) (-1) (z + 2 ^ 64)); lia.
Qed.

(** [at] throws for an [int] index that is not a position of the vector. *)
Lemma at_out_of_range {A} (v : list A) (index : Z) :
  is_int index ->
  Z.of_nat (length v) <= PTRDIFF_MAX ->
  ~ (0 <= index < Z.of_nat (length v)) ->
  Vector.at_ v index =
    Throw (Exception out_of_range
             (range_check_what (to_size_t index) (Z.of_nat (length v)))).
Proof.
  intros [Hlo Hhi] Hlen Hout. unfold Vector.at_.
  assert (Hge : (to_size_t index <? Z.of_nat (length v)) = false).
  { apply Z.ltb_ge. unfold INT_MIN, INT_MAX, PTRDIFF_MAX in *.
    destruct (Z.neg_nonneg_cases index) as [Hneg | Hpos].
    - rewrite to_size_t_negative by (unfold INT_MIN; lia). lia.
    - rewrite to_size_t_small by lia. lia. }
  rewrite Hge. reflexivity.
Qed.

Lemma at_in_range {A} (v : list A) (index : Z) (x : A) :
  0 <= index < 2 ^ 64 ->
  v !! Z.to_nat index = Some x ->
  Vector.at_ v index = Ok x.
Proof.
  intros Hi Hx. unfold Vector.at_. rewrite to_size_t_small by exact Hi.
  assert (Hlt : (index <? Z.of_nat (length v)) = true).
  { apply Z.ltb_lt. apply lookup_lt_Some in Hx. lia. }
  rewrite Hlt, Hx. reflexivity.
Qed.

Lemma index_in_range {A} (v : list A) (i : Z) (x : A) :
  0 <= i ->
  v !! Z.to_nat i = Some x ->
  Vector.index v i = Ok x.
Proof.
  intros Hi Hx. unfold Vector.index.
  assert (Hlt : ((0 <=? i) && (i <? Z.of_nat (length v))) = true).
  { apply andb_true_iff. rewrite Z.leb_le, Z.ltb_lt.
    apply lookup_lt_Some in Hx. lia. }
  rewrite Hlt, Hx. reflexivity.
Qed.

Lemma make_ok {A} (elem n : Z) (x : A) :
  0 < elem <= 24 -> 0 <= n <= INT_MAX ->
  Vector.make elem n x = Ok (replicate (Z.to_nat n) x).
Proof.
  intros Helem Hn. unfold Vector.make, INT_MAX in *.
  rewrite to_size_t_small by lia.
  assert (Hfit : (max_size elem <? n) = false).
  { apply Z.ltb_ge. unfold max_size, PTRDIFF_MAX.
    apply Z.div_le_lower_bound; nia. }
  rewrite Hfit. reflexivity.
Qed.

Lemma resize_empty_ok {A} (elem n : Z) (x : A) :
  0 < elem <= 24 -> 0 <= n <= INT_MAX ->
  Vector.resize elem [] n x = Ok (replicate (Z.to_nat n) x).
Proof.
  intros Helem Hn. unfold Vector.resize, INT_MAX in *.
  rewrite to_size_t_small by lia. simpl length.
  change (Z.of_nat 0) with 0. rewrite !Z.sub_0_r.
  destruct (Z.ltb_spec 0 n) as [Hpos | Hzero].
  - assert (Hfit : (max_size elem <? n) = false).
    { apply Z.ltb_ge. unfold max_size, PTRDIFF_MAX.
      apply Z.div_le_lower_bound; nia. }
    rewrite Hfit. reflexivity.
  - replace n with 0 by lia. reflexivity.
Qed.
End VectorFacts.

(** ** Matrices of a given shape *)

Section MatrixFacts.
Context `{Toolchain}.

Lemma well_formed_shaped m :
  well_formed m = true <-> shaped m (Matrix.rows_ m) (Matrix.cols_ m).
Proof.
  unfold well_formed, shaped. rewrite !andb_true_iff, forallb_forall, Forall_forall.
  rewrite !Z.leb_le, Z.eqb_eq. split.
  - intros (((((Hr0 & Hr1) & Hc0) & Hc1) & Hlen) & Hrows).
    repeat split; try lia. intros row Hin. apply list_elem_of_In, Hrows in Hin.
    apply Z.eqb_eq in Hin. lia.
  - intros (_ & _ & Hr & Hc & Hlen & Hrows).
    repeat split; try lia. intros row Hin. apply list_elem_of_In, Hrows in Hin.
    apply Z.eqb_eq. lia.
Qed.

Lemma shaped_row m r c i :
  shaped m r c -> 0 <= i < r ->
  exists row, Matrix.data m !! Z.to_nat i = Some row /\ length row = Z.to_nat c.
Proof.
  intros (_ & _ & _ & _ & Hlen & Hrows) Hi.
  destruct (lookup_lt_is_Some_2 (Matrix.data m) (Z.to_nat i)) as [row Hrow]; [lia|].
  exists row. split; [exact Hrow|].
  rewrite Forall_forall in Hrows. apply Hrows. eapply list_elem_of_lookup_2, Hrow.
Qed.

Lemma shaped_entry m r c i j :
  shaped m r c -> 0 <= i < r -> 0 <= j < c ->
  exists row, Matrix.data m !! Z.to_nat i = Some row
              /\ row !! Z.to_nat j = Some (entry m i j).
Proof.
  intros Hm Hi Hj. destruct (shaped_row m r c i Hm Hi) as (row & Hrow & Hlen).
  exists row. split; [exact Hrow|].
  destruct (lookup_lt_is_Some_2 row (Z.to_nat j)) as [x Hx]; [lia|].
  unfold entry. rewrite !nth_lookup, Hrow. simpl. rewrite Hx. reflexivity.
Qed.

Lemma cell_entry m r c i j :
  shaped m r c -> 0 <= i < r -> 0 <= j < c ->
  Matrix.cell m i j = Ok (entry m i j).
Proof.
  intros Hm Hi Hj. destruct (shaped_entry m r c i j Hm Hi Hj) as (row & Hrow & Hx).
  unfold Matrix.cell. rewrite (index_in_range _ i row) by (lia || exact Hrow).
  simpl. apply index_in_range; [lia | exact Hx].
Qed.

Lemma get_entry m r c i j :
  shaped m r c -> 0 <= i < r -> 0 <= j < c ->
  Matrix.get m i j = Ok (entry m i j).
Proof.
  intros Hm Hi Hj. destruct (shaped_entry m r c i j Hm Hi Hj) as (row & Hrow & Hx).
  assert (Hr : 0 <= r <= INT_MAX) by apply Hm.
  assert (Hc : 0 <= c <= INT_MAX) by apply Hm.
  unfold INT_MAX in *.
  unfold Matrix.get. rewrite (at_in_range _ i row) by (lia || exact Hrow).
  simpl. apply at_in_range; [lia | exact Hx].
Qed.

(** [set] inside the matrix returns, keeps the shape, stores the value
    and leaves every other cell as it was. *)
Lemma set_entry m r c i j v :
  shaped m r c -> 0 <= i < r -> 0 <= j < c ->
  exists m', Matrix.set m i j v = Ok m'
    /\ shaped m' r c
    /\ entry m' i j = v
    /\ forall i' j', 0 <= i' -> 0 <= j' -> (i', j') <> (i, j) ->
         entry m' i' j' = entry m i' j'.
Proof.
  intros Hm Hi Hj. destruct (shaped_entry m r c i j Hm Hi Hj) as (row & Hrow & Hx).
  assert (Hlenrow : length row = Z.to_nat c).
  { destruct (shaped_row m r c i Hm Hi) as (row' & Hrow' & Hlen). congruence. }
  destruct Hm as (Hrows & Hcols & Hr & Hc & Hlen & Hall).
  unfold INT_MAX in *.
  unfold Matrix.set. rewrite (at_in_range _ i row) by (lia || exact Hrow).
  simpl. rewrite (at_in_range _ j (entry m i j)) by (lia || exact Hx).
  simpl. rewrite !to_size_t_small by lia.
  eexists. split; [reflexivity|]. split; [|split].
  - unfold shaped, INT_MAX; simpl. repeat split; try lia.
    + rewrite length_insert. exact Hlen.
    + apply Forall_insert; [exact Hall|]. rewrite length_insert. exact Hlenrow.
  - unfold entry; simpl. rewrite !nth_lookup.
    rewrite list_lookup_insert_eq by lia. simpl.
    rewrite list_lookup_insert_eq by lia. reflexivity.
  - intros i' j' Hi' Hj' Hne. unfold entry; simpl. rewrite !nth_lookup.
    destruct (decide (Z.to_nat i = Z.to_nat i')) as [Heq | Hneq].
    + rewrite <- Heq. rewrite list_lookup_insert_eq by lia. rewrite Hrow. simpl.
      rewrite list_lookup_insert_ne; [reflexivity|].
      intros Hj'eq. apply Hne. f_equal; lia.
    + rewrite list_lookup_insert_ne by exact Hneq. reflexivity.
Qed.

(** The two nested loops of [multiply] and [transpose]: for [i < m] and
    [j < n] a value is computed and stored at a position of its own in
    the result. Afterwards every such position holds its value. *)
Lemma fill_loops (m n r c : Z) (row col : Z -> Z -> Z)
    (compute : Z -> Z -> result double) (f : Z -> Z -> double) (result0 : Matrix.t) :
  0 <= m -> 0 <= n ->
  shaped result0 r c ->
  (forall i j, 0 <= i < m -> 0 <= j < n ->
     0 <= row i j < r /\ 0 <= col i j < c) ->
  (forall i j i' j', 0 <= i < m -> 0 <= j < n -> 0 <= i' < m -> 0 <= j' < n ->
     (row i j, col i j) = (row i' j', col i' j') -> i = i' /\ j = j') ->
  (forall i j, 0 <= i < m -> 0 <= j < n -> compute i j = Ok (f i j)) ->
  exists result,
    for_range m (fun i result1 =>
      for_range n (fun j result2 =>
        let* x := compute i j in
        Matrix.set result2 (row i j) (col i j) x) result1) result0 = Ok result
    /\ shaped result r c
    /\ forall i j, 0 <= i < m -> 0 <= j < n ->
         entry result (row i j) (col i j) = f i j.
Proof.
  intros Hm Hn Hshape Hpos Hinj Hcompute.
  pose (filled := fun (i j : Z) (res : Matrix.t) =>
    shaped res r c /\
    forall i' j', 0 <= i' < m -> 0 <= j' < n ->
      i' < i \/ (i' = i /\ j' < j) ->
      entry res (row i' j') (col i' j') = f i' j').
  destruct (for_range_invariant (fun i res => filled i 0 res) m
    (fun i result1 =>
      for_range n (fun j result2 =>
        let* x := compute i j in
        Matrix.set result2 (row i j) (col i j) x) result1) result0)
    as (res & Hrun & Hres & Hcells); [exact Hm | | | ].
  - split; [exact Hshape|]. intros; lia.
  - intros i res1 Hi Hinv.
    destruct (for_range_invariant (fun j res => filled i j res) n
      (fun j result2 =>
        let* x := compute i j in
        Matrix.set result2 (row i j) (col i j) x) res1)
      as (res2 & Hrun2 & Hres2 & Hcells2); [exact Hn | exact Hinv | | ].
    + intros j res Hj [Hsh Hold].
      rewrite (Hcompute i j Hi Hj). simpl.
      destruct (Hpos i j Hi Hj) as [Hrow Hcol].
      destruct (set_entry res r c (row i j) (col i j) (f i j) Hsh Hrow Hcol)
        as (res' & Hset & Hsh' & Hnew & Hother).
      exists res'. split; [exact Hset|]. split; [exact Hsh'|].
      intros i' j' Hi' Hj' Hbefore.
      destruct (decide (i' = i /\ j' = j)) as [[-> ->] | Hne].
      * exact Hnew.
      * destruct (Hpos i' j' Hi' Hj') as [Hrow' Hcol'].
        rewrite Hother; [apply Hold; [exact Hi' | exact Hj' | lia] | lia | lia |].
        intros Heq. apply Hne. apply Hinj; assumption.
    + exists res2. split; [exact Hrun2|]. split; [exact Hres2|].
      intros i' j' Hi' Hj' Hbefore. apply Hcells2; [exact Hi' | exact Hj' | lia].
  - exists res. split; [exact Hrun|]. split; [exact Hres|].
    intros i j Hi Hj. apply Hcells; [exact Hi | exact Hj | lia].
Qed.

Lemma new_ok (rows cols : Z) :
  0 <= rows <= INT_MAX -> 0 <= cols <= INT_MAX ->
  Matrix.new rows cols = Ok (zeros rows cols).
Proof.
  intros Hr Hc. unfold Matrix.new.
  rewrite make_ok by (unfold Matrix.SIZEOF_DOUBLE; lia). simpl.
  rewrite resize_empty_ok by (unfold Matrix.SIZEOF_ROW; lia). reflexivity.
Qed.

Lemma zeros_shaped rows cols :
  0 <= rows <= INT_MAX -> 0 <= cols <= INT_MAX ->
  shaped (zeros rows cols) rows cols.
Proof.
  intros Hr Hc. unfold shaped, zeros; simpl. repeat split; try lia.
  - apply length_replicate.
  - apply Forall_replicate. apply length_replicate.
Qed.

Lemma zeros_entry rows cols i j : entry (zeros rows cols) i j = dzero.
Proof.
  unfold entry, zeros; simpl. rewrite !nth_lookup.
  destruct (replicate (Z.to_nat rows) (replicate (Z.to_nat cols) dzero) !! Z.to_nat i)
    as [row|] eqn:Hrow; simpl; [|reflexivity].
  apply lookup_replicate in Hrow as [-> _].
  destruct (replicate (Z.to_nat cols) dzero !! Z.to_nat j) as [x|] eqn:Hx;
    simpl; [|reflexivity].
  apply lookup_replicate in Hx as [-> _]. reflexivity.
Qed.

(** The innermost loop of [multiply] computes the dot product. *)
Lemma multiply_inner a b m k n i j :
  shaped a m k -> shaped b k n -> 0 <= i < m -> 0 <= j < n ->
  for_range (Matrix.cols_ a) (Matrix.multiply_step a b i j) dzero
  = Ok (dot_product a b i j).
Proof.
  intros Ha Hb Hi Hj.
  assert (Hk : Matrix.cols_ a = k) by apply Ha.
  assert (Hk0 : 0 <= k) by apply Ha.
  unfold dot_product. rewrite Hk.
  destruct (for_range_invariant
    (fun t sum => sum = fold_left
        (fun sum t => dadd sum (dmul (entry a i t) (entry b t j))) (seqZ 0 t) dzero)
    k (Matrix.multiply_step a b i j) dzero) as (sum & Hrun & Hsum);
    [exact Hk0 | reflexivity | | rewrite Hrun, Hsum; reflexivity].
  intros t sum Ht ->. unfold Matrix.multiply_step.
  rewrite (cell_entry a m k i t Ha Hi Ht). simpl.
  rewrite (cell_entry b k n t j Hb Ht Hj). simpl.
  eexists. split; [reflexivity|].
  rewrite seqZ_app by lia. rewrite fold_left_app.
  rewrite (seqZ_cons (0 + t) 1) by lia.
  rewrite (seqZ_nil _ (Z.pred 1)) by lia. reflexivity.
Qed.

Lemma multiply_ok a b m k n :
  shaped a m k -> shaped b k n ->
  exists product, Matrix.multiply a b = Ok product
    /\ shaped product m n
    /\ forall i j, 0 <= i < m -> 0 <= j < n ->
         entry product i j = dot_product a b i j.
Proof.
  intros Ha Hb.
  pose proof Ha as (Har & Hac & Hm & Hk & _).
  pose proof Hb as (Hbr & Hbc & _ & Hn & _).
  unfold Matrix.multiply.
  replace (Matrix.cols_ a =? Matrix.rows_ b) with true
    by (symmetry; apply Z.eqb_eq; congruence).
  simpl. rewrite Har, Hbc. rewrite new_ok by assumption. simpl.
  apply (fill_loops m n m n (fun i _ => i) (fun _ j => j)
    (fun i j => for_range (Matrix.cols_ a) (Matrix.multiply_step a b i j) dzero)
    (dot_product a b) (zeros m n)).
  - lia.
  - lia.
  - apply zeros_shaped; assumption.
  - intros; cbv beta; lia.
  - intros i j i' j' _ _ _ _ Heq. inversion Heq. split; reflexivity.
  - intros i j Hi Hj. apply (multiply_inner a b m k n); assumption.
Qed.

Lemma transpose_ok a m n :
  shaped a m n ->
  exists transposed, Matrix.transpose a = Ok transposed
    /\ shaped transposed n m
    /\ forall i j, 0 <= i < m -> 0 <= j < n ->
         entry transposed j i = entry a i j.
Proof.
  intros Ha.
  pose proof Ha as (Har & Hac & Hm & Hn & _).
  unfold Matrix.transpose. rewrite Har, Hac.
  rewrite new_ok by assumption. simpl.
  apply (fill_loops m n n m (fun _ j => j) (fun i _ => i)
    (Matrix.cell a) (entry a) (zeros n m)).
  - lia.
  - lia.
  - apply zeros_shaped; assumption.
  - intros; cbv beta; lia.
  - intros i j i' j' _ _ _ _ Heq. inversion Heq. split; reflexivity.
  - intros i j Hi Hj. apply (cell_entry a m n); assumption.
Qed.
End MatrixFacts.

(** ** Well-formedness of matrices is an invariant of the boundary *)

Create HintDb matrices.

Section MatrixInvariant.
Context `{Toolchain}.

Lemma make_negative {A} (elem n : Z) (x : A) :
  0 < elem -> INT_MIN <= n < 0 ->
  Vector.make elem n x = Throw (Exception length_error init_length_what).
Proof.
  intros Helem Hn. unfold Vector.make.
  rewrite to_size_t_negative by exact Hn.
  assert (Hbig : (max_size elem <? n + 2 ^ 64) = true).
  { apply Z.ltb_lt. unfold max_size, PTRDIFF_MAX, INT_MIN in *.
    assert ((2 ^ 63 - 1) / elem <= 2 ^ 63 - 1) by (apply Z.div_le_upper_bound; nia).
    lia. }
  rewrite Hbig. reflexivity.
Qed.

Lemma resize_empty_negative {A} (elem n : Z) (x : A) :
  0 < elem -> INT_MIN <= n < 0 ->
  Vector.resize elem [] n x = Throw (Exception length_error resize_length_what).
Proof.
  intros Helem Hn. unfold Vector.resize.
  rewrite to_size_t_negative by exact Hn. simpl length.
  change (Z.of_nat 0) with 0. rewrite !Z.sub_0_r.
  assert (Hpos : (0 <? n + 2 ^ 64) = true)
    by (apply Z.ltb_lt; unfold INT_MIN in *; lia).
  assert (Hbig : (max_size elem <? n + 2 ^ 64) = true).
  { apply Z.ltb_lt. unfold max_size, PTRDIFF_MAX, INT_MIN in *.
    assert ((2 ^ 63 - 1) / elem <= 2 ^ 63 - 1) by (apply Z.div_le_upper_bound; nia).
    lia. }
  rewrite Hpos, Hbig. reflexivity.
Qed.

(** The constructor builds a well-formed matrix or throws. *)
Lemma new_well_formed rows cols m :
  is_int rows -> is_int cols ->
  Matrix.new rows cols = Ok m -> well_formed m = true.
Proof.
  intros [Hr0 Hr1] [Hc0 Hc1] Hnew.
  destruct (Z.neg_nonneg_cases cols) as [Hcneg | Hcpos].
  - unfold Matrix.new in Hnew.
    rewrite make_negative in Hnew
      by (unfold Matrix.SIZEOF_DOUBLE; lia). discriminate Hnew.
  - destruct (Z.neg_nonneg_cases rows) as [Hrneg | Hrpos].
    + unfold Matrix.new in Hnew.
      rewrite make_ok in Hnew by (unfold Matrix.SIZEOF_DOUBLE; lia).
      simpl in Hnew.
      rewrite resize_empty_negative in Hnew
        by (unfold Matrix.SIZEOF_ROW; lia). discriminate Hnew.
    + rewrite new_ok in Hnew by lia. injection Hnew as <-.
      apply well_formed_shaped. apply zeros_shaped; simpl; lia.
Qed.

(** [set] keeps a matrix well formed whenever it returns. *)
Lemma set_well_formed m i j v m' :
  well_formed m = true -> Matrix.set m i j v = Ok m' -> well_formed m' = true.
Proof.
  intros Hwf Hset. apply well_formed_shaped in Hwf.
  destruct Hwf as (_ & _ & Hr & Hc & Hlen & Hrows).
  unfold Matrix.set, Vector.at_ in Hset.
  destruct (to_size_t i <? Z.of_nat (length (Matrix.data m))); [|discriminate Hset].
  destruct (Matrix.data m !! Z.to_nat (to_size_t i)) as [row|] eqn:Hrow;
    [|discriminate Hset].
  simpl in Hset.
  destruct (to_size_t j <? Z.of_nat (length row)); [|discriminate Hset].
  destruct (row !! Z.to_nat (to_size_t j)); [|discriminate Hset].
  simpl in Hset. injection Hset as <-.
  apply well_formed_shaped. unfold shaped; simpl. repeat split; try lia.
  - rewrite length_insert. exact Hlen.
  - apply Forall_insert; [exact Hrows|]. rewrite length_insert.
    rewrite Forall_forall in Hrows. apply Hrows.
    eapply list_elem_of_lookup_2, Hrow.
Qed.

Lemma multiply_well_formed a b product :
  well_formed a = true -> well_formed b = true ->
  Matrix.multiply a b = Ok product -> well_formed product = true.
Proof.
  intros Ha Hb Hrun. apply well_formed_shaped in Ha, Hb.
  destruct (Z.eq_dec (Matrix.cols_ a) (Matrix.rows_ b)) as [Heq | Hne].
  - rewrite <- Heq in Hb.
    destruct (multiply_ok a b _ _ _ Ha Hb) as (p & Hp & Hshape & _).
    assert (p = product) by congruence. subst p.
    apply well_formed_shaped.
    destruct Hshape as (Hpr & Hpc & Hrest). rewrite Hpr, Hpc.
    unfold shaped. tauto.
  - unfold Matrix.multiply in Hrun. apply Z.eqb_neq in Hne.
    rewrite Hne in Hrun. discriminate Hrun.
Qed.

Lemma transpose_well_formed a transposed :
  well_formed a = true ->
  Matrix.transpose a = Ok transposed -> well_formed transposed = true.
Proof.
  intros Ha Hrun. apply well_formed_shaped in Ha.
  destruct (transpose_ok a _ _ Ha) as (p & Hp & Hshape & _).
  assert (p = transposed) by congruence. subst p.
  apply well_formed_shaped.
  destruct Hshape as (Hpr & Hpc & Hrest). rewrite Hpr, Hpc.
  unfold shaped. tauto.
Qed.

Lemma keeps_ret {A} (a : A) : keeps_matrices (ret a).
Proof. intros s Hs. exact Hs. Qed.

Lemma keeps_bind {A B} (m : M A) (k : A -> M B) :
  keeps_matrices m -> (forall a, keeps_matrices (k a)) -> keeps_matrices (bind m k).
Proof.
  intros Hm Hk s Hs. unfold bind. specialize (Hm s Hs).
  destruct (m s) as [a s1 | e s1 |]; [apply Hk; exact Hm | exact Hm | exact I].
Qed.

(** What follows a method call may rely on the call having returned. *)
Lemma keeps_lift_bind {A B} (r : result A) (k : A -> M B) :
  (forall a, r = Ok a -> keeps_matrices (k a)) ->
  keeps_matrices (bind (lift r) k).
Proof.
  intros Hk s Hs. unfold bind, lift.
  destruct r as [a | e |]; [apply (Hk a eq_refl); exact Hs | exact Hs | exact I].
Qed.

(** What follows the reading of a matrix may rely on it being well formed. *)
Lemma keeps_deref_matrix_bind {B} h (k : Matrix.t -> M B) :
  (forall m, well_formed m = true -> keeps_matrices (k m)) ->
  keeps_matrices (bind (deref as_matrix h) k).
Proof.
  intros Hk s Hs. unfold bind, deref.
  destruct (heap s !! h) as [o|] eqn:Hh; [|exact I].
  destruct o; simpl; try exact I.
  apply Hk; [|exact Hs]. apply (Hs h). exact Hh.
Qed.

Lemma keeps_lift {A} (r : result A) : keeps_matrices (lift r).
Proof. intros s Hs. destruct r; simpl; auto. Qed.

Lemma keeps_deref {T} (as_T : object -> option T) h : keeps_matrices (deref as_T h).
Proof.
  intros s Hs. unfold deref. destruct (heap s !! h) as [o|]; [|exact I].
  destruct (as_T o); simpl; auto.
Qed.

Lemma keeps_store h o : sound o -> keeps_matrices (store h o).
Proof.
  intros Ho s Hs. simpl. intros h' m. simpl.
  rewrite lookup_insert. case_decide as Heq.
  - intros [= ->]. exact Ho.
  - apply Hs.
Qed.

Lemma keeps_new_object o : sound o -> keeps_matrices (new_object o).
Proof.
  intros Ho s Hs. simpl. intros h' m. simpl.
  rewrite lookup_insert. case_decide as Heq.
  - intros [= ->]. exact Ho.
  - apply Hs.
Qed.

Lemma keeps_delete {T} (as_T : object -> option T) h : keeps_matrices (delete as_T h).
Proof.
  unfold delete. destruct (is_null h); [apply keeps_ret|].
  apply keeps_bind; [apply keeps_deref|]. intros _ s Hs. simpl.
  intros h' m. simpl. rewrite lookup_delete. case_decide; [discriminate | apply Hs].
Qed.

Lemma keeps_print items : keeps_matrices (print items).
Proof. intros s Hs. exact Hs. Qed.

Lemma keeps_read_last_error : keeps_matrices read_last_error.
Proof. intros s Hs. exact Hs. Qed.

Lemma keeps_set_last_error e : keeps_matrices (set_last_error e).
Proof. intros s Hs. exact Hs. Qed.

Lemma keeps_if {A} (b : bool) (m1 m2 : M A) :
  keeps_matrices m1 -> keeps_matrices m2 -> keeps_matrices (if b then m1 else m2).
Proof. destruct b; auto. Qed.

Lemma keeps_try_catch {A} (body : M A) handlers :
  keeps_matrices body ->
  Forall (fun h => forall e, keeps_matrices (snd h e)) handlers ->
  keeps_matrices (try_catch body handlers).
Proof.
  intros Hbody Hhandlers s Hs. unfold try_catch. specialize (Hbody s Hs).
  destruct (body s) as [a s1 | e s1 |]; [exact Hbody | | exact I].
  destruct (List.find (fun h => catches (fst h) e) handlers) as [h|] eqn:Hfind;
    [|exact Hbody].
  apply find_some in Hfind as [Hh _]. apply list_elem_of_In in Hh.
  rewrite Forall_forall in Hhandlers. apply (Hhandlers h Hh e). exact Hbody.
Qed.

Lemma keeps_on_exception {A} (body : M A) (a : A) :
  keeps_matrices body -> keeps_matrices (try_catch body (on_exception a)).
Proof.
  intros Hbody. apply keeps_try_catch; [exact Hbody|].
  repeat constructor. intros e. simpl.
  apply keeps_bind; [apply keeps_set_last_error | intros; apply keeps_ret].
Qed.

Lemma keeps_write_int r x : keeps_matrices (write_int r x).
Proof.
  unfold write_int. apply keeps_bind; [apply keeps_deref|].
  intros _. apply keeps_store. exact I.
Qed.

Lemma keeps_write_handle r x : keeps_matrices (write_handle r x).
Proof.
  unfold write_handle. apply keeps_bind; [apply keeps_deref|].
  intros _. apply keeps_store. exact I.
Qed.

Lemma keeps_returning {A} (wrap : A -> value) (m : M A) :
  keeps_matrices m -> keeps_matrices (returning wrap m).
Proof.
  intros Hm. unfold returning. apply keeps_bind; [exact Hm|].
  intros a. apply keeps_ret.
Qed.

#[local] Hint Resolve keeps_ret keeps_bind keeps_lift keeps_deref keeps_delete
  keeps_print keeps_read_last_error keeps_set_last_error keeps_if
  keeps_on_exception keeps_write_int keeps_write_handle keeps_returning
  : matrices.
#[local] Hint Extern 1 (keeps_matrices (store _ _)) =>
  apply keeps_store; exact I : matrices.
#[local] Hint Extern 1 (keeps_matrices (new_object _)) =>
  apply keeps_new_object; exact I : matrices.

(** No boundary function leaves an ill-formed matrix in the heap. *)
Theorem run_keeps_matrices_well_formed (c : call) :
  int_arguments c -> keeps_matrices (run c).
Proof.
  intros Hint.
  destruct c; simpl; apply keeps_returning;
    first
      [ solve [ unfold vector_create, vector_destroy, vector_add, vector_get,
          vector_size, vector_clear, vector_sum, vector_sort, string_create,
          string_destroy, string_get_cstr, string_length_cpp, string_reverse,
          string_to_upper, string_to_lower, calculate_mean_double,
          calculate_mean_float, calculate_variance, calculate_standard_deviation,
          matrix_destroy, matrix_get, matrix_rows, matrix_cols, matrix_print,
          smart_resource_create, smart_resource_use, smart_resource_get,
          smart_resource_size, function_create_add, function_create_multiply,
          function_create_power, function_destroy, function_call,
          iterator_create, iterator_destroy, iterator_has_next, iterator_next,
          iterator_reset, iterator_find, get_last_error_message;
          auto 12 with matrices ]
      | idtac ].
  - unfold string_append. destruct (is_null handle), text; auto 12 with matrices.
  - unfold string_prepend. destruct (is_null handle), text; auto 12 with matrices.
  - destruct Hint as [Hrows Hcols]. unfold matrix_create.
    apply keeps_on_exception. apply keeps_lift_bind. intros m Hnew.
    apply keeps_new_object. exact (new_well_formed rows cols m Hrows Hcols Hnew).
  - unfold matrix_set. apply keeps_if; [apply keeps_ret|].
    apply keeps_on_exception. apply keeps_deref_matrix_bind. intros m Hm.
    apply keeps_lift_bind. intros m' Hset. apply keeps_store.
    exact (set_well_formed m row col x m' Hm Hset).
  - unfold matrix_multiply. apply keeps_if; [apply keeps_ret|].
    apply keeps_on_exception. apply keeps_deref_matrix_bind. intros ma Hma.
    apply keeps_deref_matrix_bind. intros mb Hmb.
    apply keeps_lift_bind. intros p Hp. apply keeps_new_object.
    exact (multiply_well_formed ma mb p Hma Hmb Hp).
  - unfold matrix_transpose. apply keeps_if; [apply keeps_ret|].
    apply keeps_on_exception. apply keeps_deref_matrix_bind. intros m Hm.
    apply keeps_lift_bind. intros p Hp. apply keeps_new_object.
    exact (transpose_well_formed m p Hm Hp).
  - unfold safe_vector_get. repeat apply keeps_if; auto with matrices.
    apply keeps_try_catch; [auto 12 with matrices|].
    repeat constructor; intros e; simpl; auto with matrices.
  - unfold safe_matrix_multiply. repeat apply keeps_if; auto with matrices.
    apply keeps_try_catch.
    + apply keeps_deref_matrix_bind. intros ma Hma.
      apply keeps_deref_matrix_bind. intros mb Hmb.
      apply keeps_lift_bind. intros p Hp.
      apply keeps_bind; [|auto with matrices].
      apply keeps_new_object. exact (multiply_well_formed ma mb p Hma Hmb Hp).
    + repeat constructor; intros e; simpl; auto with matrices.
Qed.

Lemma initial_matrices_well_formed : matrices_well_formed initial.
Proof. intros h m Hlookup. simpl in Hlookup. rewrite lookup_empty in Hlookup. discriminate. Qed.
End MatrixInvariant.

(** ** The matrix functions of the boundary *)

Section MatrixBoundary.
Context `{Toolchain}.

(** Two matrices of one shape with the same cells are the same object. *)
Lemma shaped_ext a b m n :
  shaped a m n -> shaped b m n ->
  (forall i j, 0 <= i < m -> 0 <= j < n -> entry a i j = entry b i j) ->
  a = b.
Proof.
  intros Ha Hb Hcells.
  assert (Hdata : Matrix.data a = Matrix.data b).
  { apply list_eq. intros ni.
    destruct (decide (Z.of_nat ni < m)) as [Hlt | Hge].
    - destruct (shaped_row a m n (Z.of_nat ni) Ha) as (ra & Hra & Hla); [lia|].
      destruct (shaped_row b m n (Z.of_nat ni) Hb) as (rb & Hrb & Hlb); [lia|].
      rewrite Nat2Z.id in Hra, Hrb. rewrite Hra, Hrb. f_equal.
      apply list_eq. intros nj.
      destruct (decide (Z.of_nat nj < n)) as [Hltj | Hgej].
      + destruct (shaped_entry a m n (Z.of_nat ni) (Z.of_nat nj) Ha) as (ra' & Hra' & Hxa); [lia|lia|].
        destruct (shaped_entry b m n (Z.of_nat ni) (Z.of_nat nj) Hb) as (rb' & Hrb' & Hxb); [lia|lia|].
        rewrite Nat2Z.id in *.
        assert (ra' = ra) by congruence. assert (rb' = rb) by congruence. subst.
        rewrite Hxa, Hxb. f_equal. apply Hcells; lia.
      + rewrite !lookup_ge_None_2 by lia. reflexivity.
    - destruct Ha as (_ & _ & _ & _ & Hla & _), Hb as (_ & _ & _ & _ & Hlb & _).
      rewrite !lookup_ge_None_2 by lia. reflexivity. }
  destruct Ha as (Har & Hac & _), Hb as (Hbr & Hbc & _).
  destruct a, b; simpl in *. congruence.
Qed.

Lemma matrix_get_live s h m r c i j :
  is_null h = false -> heap s !! h = Some (a_matrix m) ->
  shaped m r c -> 0 <= i < r -> 0 <= j < c ->
  matrix_get h i j s = Returns (entry m i j) s.
Proof.
  intros Hnull Hlive Hm Hi Hj. unfold matrix_get. rewrite Hnull.
  unfold try_catch, bind. erewrite deref_live; [|exact Hlive|reflexivity].
  rewrite (get_entry m r c i j Hm Hi Hj). reflexivity.
Qed.

Lemma matrix_rows_live s h m :
  is_null h = false -> heap s !! h = Some (a_matrix m) ->
  matrix_rows h s = Returns (Matrix.rows_ m) s.
Proof.
  intros Hnull Hlive. unfold matrix_rows. rewrite Hnull.
  unfold bind. erewrite deref_live; [|exact Hlive|reflexivity]. reflexivity.
Qed.

Lemma matrix_cols_live s h m :
  is_null h = false -> heap s !! h = Some (a_matrix m) ->
  matrix_cols h s = Returns (Matrix.cols_ m) s.
Proof.
  intros Hnull Hlive. unfold matrix_cols. rewrite Hnull.
  unfold bind. erewrite deref_live; [|exact Hlive|reflexivity]. reflexivity.
Qed.

(** [matrix_transpose] on a live, well-formed matrix: a new object, the
    operand untouched, no message. *)
Lemma matrix_transpose_live s h a m n :
  is_null h = false -> heap s !! h = Some (a_matrix a) -> shaped a m n ->
  exists t transposed,
    matrix_transpose h s = Returns t (with_heap s (<[t := a_matrix transposed]> (heap s)))
    /\ is_null t = false /\ heap s !! t = None
    /\ shaped transposed n m
    /\ forall i j, 0 <= i < m -> 0 <= j < n -> entry transposed j i = entry a i j.
Proof.
  intros Hnull Hlive Ha.
  destruct (transpose_ok a m n Ha) as (transposed & Hrun & Hshape & Hcells).
  destruct (new_object_fresh (a_matrix transposed) s) as (t & Hnew & Htnull & Hfree).
  exists t, transposed. split; [|auto].
  unfold matrix_transpose. rewrite Hnull.
  unfold try_catch, bind. erewrite deref_live; [|exact Hlive|reflexivity].
  rewrite Hrun. simpl. exact Hnew.
Qed.

(** C1: for live, well-formed matrices [a] (m x k) and [b] (k x n),
    [matrix_multiply] returns a non-null handle to a matrix of m rows and
    n columns whose cell (i, j) is the sum over t of [a[i,t] * b[t,j]],
    accumulated in double arithmetic from [0.0] in the order of t; the
    last-error slot is not touched. *)
Theorem matrix_multiply_dot_product (s : State) (ha hb : Handle) (a b : Matrix.t) :
  ha <> nullptr -> hb <> nullptr ->
  heap s !! ha = Some (a_matrix a) ->
  heap s !! hb = Some (a_matrix b) ->
  well_formed a = true -> well_formed b = true ->
  Matrix.cols a = Matrix.rows b ->
  exists hc s',
    matrix_multiply ha hb s = Returns hc s' /\ hc <> nullptr
    /\ matrix_rows hc s' = Returns (Matrix.rows a) s'
    /\ matrix_cols hc s' = Returns (Matrix.cols b) s'
    /\ (forall i j, 0 <= i < Matrix.rows a -> 0 <= j < Matrix.cols b ->
          matrix_get hc i j s' = Returns (dot_product a b i j) s')
    /\ last_error_message s' = last_error_message s.
Proof.
  intros Hanull Hbnull Halive Hblive Hawf Hbwf Hinner.
  apply is_null_false in Hanull, Hbnull.
  apply well_formed_shaped in Hawf, Hbwf. unfold Matrix.rows, Matrix.cols in *.
  rewrite <- Hinner in Hbwf.
  destruct (multiply_ok a b _ _ _ Hawf Hbwf) as (product & Hrun & Hshape & Hcells).
  destruct (new_object_fresh (a_matrix product) s) as (hc & Hnew & Hcnull & Hfree).
  set (s' := with_heap s (<[hc := a_matrix product]> (heap s))) in *.
  assert (Hclive : heap s' !! hc = Some (a_matrix product)) by apply heap_after_store.
  exists hc, s'. split.
  { unfold matrix_multiply. rewrite Hanull, Hbnull. simpl.
    unfold try_catch, bind.
    erewrite deref_live; [|exact Halive|reflexivity].
    erewrite deref_live; [|exact Hblive|reflexivity].
    rewrite Hrun. simpl. exact Hnew. }
  split; [apply is_null_false; exact Hcnull|].
  split; [rewrite (matrix_rows_live s' hc product Hcnull Hclive); f_equal; apply Hshape|].
  split; [rewrite (matrix_cols_live s' hc product Hcnull Hclive); f_equal; apply Hshape|].
  split; [|reflexivity].
  intros i j Hi Hj.
  rewrite (matrix_get_live s' hc product _ _ i j Hcnull Hclive Hshape Hi Hj).
  f_equal. apply Hcells; assumption.
Qed.

(** C4: [matrix_transpose] of a live, well-formed matrix [a] returns a
    non-null handle to a matrix of [cols a] rows and [rows a] columns with
    [result[j,i] = a[i,j]]; transposing that result gives a matrix with
    the shape and the cells of [a] (it is equal to [a] as an object), and
    [a] itself is still what its handle reads. *)
Theorem matrix_transpose_involution (s : State) (h : Handle) (a : Matrix.t) :
  h <> nullptr ->
  heap s !! h = Some (a_matrix a) ->
  well_formed a = true ->
  exists t s1 u s2,
    matrix_transpose h s = Returns t s1 /\ t <> nullptr
    /\ matrix_rows t s1 = Returns (Matrix.cols a) s1
    /\ matrix_cols t s1 = Returns (Matrix.rows a) s1
    /\ (forall i j, 0 <= i < Matrix.rows a -> 0 <= j < Matrix.cols a ->
          matrix_get t j i s1 = Returns (entry a i j) s1)
    /\ matrix_transpose t s1 = Returns u s2 /\ u <> nullptr
    /\ matrix_rows u s2 = Returns (Matrix.rows a) s2
    /\ matrix_cols u s2 = Returns (Matrix.cols a) s2
    /\ (forall i j, 0 <= i < Matrix.rows a -> 0 <= j < Matrix.cols a ->
          matrix_get u i j s2 = Returns (entry a i j) s2
          /\ matrix_get h i j s2 = Returns (entry a i j) s2)
    /\ heap s2 !! u = Some (a_matrix a)
    /\ last_error_message s2 = last_error_message s.
Proof.
  intros Hnull Hlive Hwf. apply is_null_false in Hnull.
  apply well_formed_shaped in Hwf. unfold Matrix.rows, Matrix.cols.
  set (m := Matrix.rows_ a) in *. set (n := Matrix.cols_ a) in *.
  destruct (matrix_transpose_live s h a m n Hnull Hlive Hwf)
    as (t & at_ & Hrun1 & Htnull & Htfree & Htshape & Htcells).
  set (s1 := with_heap s (<[t := a_matrix at_]> (heap s))) in *.
  assert (Htlive : heap s1 !! t = Some (a_matrix at_)) by apply heap_after_store.
  assert (Hhlive1 : heap s1 !! h = Some (a_matrix a))
    by (apply heap_after_new; assumption).
  destruct (matrix_transpose_live s1 t at_ n m Htnull Htlive Htshape)
    as (u & att & Hrun2 & Hunull & Hufree & Hushape & Hucells).
  set (s2 := with_heap s1 (<[u := a_matrix att]> (heap s1))) in *.
  assert (Hulive : heap s2 !! u = Some (a_matrix att)) by apply heap_after_store.
  assert (Hhlive2 : heap s2 !! h = Some (a_matrix a))
    by (apply heap_after_new; assumption).
  assert (Hsame : att = a).
  { apply (shaped_ext att a m n Hushape Hwf). intros i j Hi Hj.
    rewrite Hucells by assumption. apply Htcells; assumption. }
  subst att.
  exists t, s1, u, s2.
  split; [exact Hrun1|]. split; [apply is_null_false; exact Htnull|].
  split; [rewrite (matrix_rows_live s1 t at_ Htnull Htlive); f_equal; apply Htshape|].
  split; [rewrite (matrix_cols_live s1 t at_ Htnull Htlive); f_equal; apply Htshape|].
  split.
  { intros i j Hi Hj.
    rewrite (matrix_get_live s1 t at_ n m j i Htnull Htlive Htshape Hj Hi).
    f_equal. apply Htcells; assumption. }
  split; [exact Hrun2|]. split; [apply is_null_false; exact Hunull|].
  split; [apply (matrix_rows_live s2 u a Hunull Hulive)|].
  split; [apply (matrix_cols_live s2 u a Hunull Hulive)|].
  split.
  { intros i j Hi Hj. split.
    - apply (matrix_get_live s2 u a m n i j Hunull Hulive Hwf Hi Hj).
    - apply (matrix_get_live s2 h a m n i j Hnull Hhlive2 Hwf Hi Hj). }
  split; [exact Hulive | reflexivity].
Qed.

(** C10: [matrix_create] with non-negative [int] dimensions returns a
    non-null handle, and before any [matrix_set] every cell inside the
    matrix reads [0.0]. *)
Theorem matrix_create_zero_initialised (s : State) (rows cols : Z) :
  0 <= rows <= INT_MAX -> 0 <= cols <= INT_MAX ->
  exists h s',
    matrix_create rows cols s = Returns h s'
    /\ h <> nullptr
    /\ forall r c, 0 <= r < rows -> 0 <= c < cols ->
         matrix_get h r c s' = Returns dzero s'.
Proof.
  intros Hr Hc. unfold matrix_create, try_catch, bind, lift.
  rewrite (new_ok _ _ Hr Hc).
  destruct (new_object_fresh (a_matrix (zeros rows cols)) s)
    as (h & Hnew & Hnull & Hfree).
  rewrite Hnew. eexists _, _. split; [reflexivity|]. split; [apply is_null_false; exact Hnull|].
  intros r c Hr' Hc'. unfold matrix_get. rewrite Hnull.
  unfold try_catch, bind.
  erewrite deref_live; [|apply heap_after_store|reflexivity].
  unfold Matrix.get. simpl.
  unfold INT_MAX in *.
  rewrite (at_in_range _ r (replicate (Z.to_nat cols) dzero)); [|lia|apply lookup_replicate_2; lia].
  simpl. rewrite (at_in_range _ c dzero); [|lia|apply lookup_replicate_2; lia].
  reflexivity.
Qed.
End MatrixBoundary.

(** ** Reported and silent failures *)

Section Failures.
Context `{Toolchain}.

(** C2: for live matrices [a] (m x k) and [b] (p x n) with [k <> p],
    [safe_matrix_multiply] returns [CPP_INVALID_OPERATION], which is -3,
    and [matrix_multiply] returns the null handle; both return (nothing
    escapes, nothing is undefined), both leave the heap, and with it the
    out-parameter, as it was, and both store the message of the
    exception in the last-error slot. *)
Theorem matrix_multiply_shape_mismatch
    (s : State) (ha hb result : Handle) (a b : Matrix.t) :
  ha <> nullptr -> hb <> nullptr -> result <> nullptr ->
  heap s !! ha = Some (a_matrix a) ->
  heap s !! hb = Some (a_matrix b) ->
  Matrix.cols a <> Matrix.rows b ->
  exists s',
    safe_matrix_multiply ha hb result s = Returns CPP_INVALID_OPERATION s'
    /\ code_value CPP_INVALID_OPERATION = -3
    /\ matrix_multiply ha hb s = Returns nullptr s'
    /\ heap s' = heap s
    /\ last_error_message s' = "Matrix dimensions don't match for multiplication"
    /\ get_last_error_message s'
       = Returns "Matrix dimensions don't match for multiplication" s'.
Proof.
  intros Ha Hb Hr Halive Hblive Hshape.
  apply is_null_false in Ha, Hb, Hr.
  assert (Hthrow : Matrix.multiply a b = Throw Matrix.dimension_mismatch).
  { unfold Matrix.multiply. unfold Matrix.cols, Matrix.rows in Hshape.
    apply Z.eqb_neq in Hshape. rewrite Hshape. reflexivity. }
  exists (with_message (with_fault s Matrix.dimension_mismatch)
            "Matrix dimensions don't match for multiplication").
  unfold safe_matrix_multiply, matrix_multiply. rewrite Ha, Hb, Hr. simpl.
  unfold try_catch, bind.
  rewrite (deref_live as_matrix ha s _ a Halive eq_refl).
  rewrite (deref_live as_matrix hb s _ b Hblive eq_refl).
  rewrite Hthrow. simpl. repeat split; reflexivity.
Qed.

(** C5: for a live vector, a non-null out-parameter and an [int] index
    that is not a position of the vector, [safe_vector_get] returns
    [CPP_OUT_OF_BOUNDS], which is -2, and leaves the heap, and with it
    [*result], as it was; afterwards [get_last_error_message] returns the
    text of the exception [vector::at] threw, which is not empty when the
    library's text is not. *)
Theorem safe_vector_get_out_of_bounds
    (s : State) (h result : Handle) (v : VectorWrapper.t) (index : Z) :
  h <> nullptr -> result <> nullptr ->
  heap s !! h = Some (a_vector v) ->
  Z.of_nat (length (VectorWrapper.data v)) <= PTRDIFF_MAX ->
  is_int index ->
  ~ (0 <= index < Z.of_nat (length (VectorWrapper.data v))) ->
  (forall n size, range_check_what n size <> "") ->
  exists s' msg,
    safe_vector_get h index result s = Returns CPP_OUT_OF_BOUNDS s'
    /\ code_value CPP_OUT_OF_BOUNDS = -2
    /\ heap s' = heap s
    /\ get_last_error_message s' = Returns msg s'
    /\ msg = range_check_what (to_size_t index)
               (Z.of_nat (length (VectorWrapper.data v)))
    /\ msg <> "".
Proof.
  intros Hh Hr Hlive Hlen Hint Hout Htext.
  apply is_null_false in Hh, Hr.
  unfold safe_vector_get. rewrite Hh, Hr.
  unfold try_catch, bind.
  rewrite (deref_live as_vector h s _ v Hlive eq_refl).
  unfold VectorWrapper.get. rewrite (at_out_of_range _ _ Hint Hlen Hout).
  simpl. eexists _, _. split; [reflexivity|]. split; [reflexivity|].
  split; [reflexivity|]. split; [reflexivity|]. split; [reflexivity|].
  apply Htext.
Qed.

(** C7: for a live numeric buffer of size [n] and an index outside
    [[0, n)], [smart_resource_get] returns [0.0] and [smart_resource_use]
    returns, and both leave the whole state as it was: every cell of the
    buffer, the last-error slot, and the record of handled exceptions. *)
Theorem smart_resource_out_of_range_ignored
    (s : State) (h : Handle) (r : SmartResource.t) (index : Z) (x : double) :
  h <> nullptr ->
  heap s !! h = Some (a_resource r) ->
  ~ (0 <= index < SmartResource.size r) ->
  smart_resource_get h index s = Returns dzero s
  /\ smart_resource_use h index x s = Returns tt s.
Proof.
  intros Hnull Hlive Hout.
  apply is_null_false in Hnull.
  assert (Hcheck : ((0 <=? index) && (index <? SmartResource.size_ r)) = false).
  { unfold SmartResource.size in Hout.
    apply andb_false_iff. rewrite Z.leb_gt, Z.ltb_ge. lia. }
  unfold smart_resource_get, smart_resource_use. rewrite Hnull.
  unfold bind. rewrite (deref_live as_resource h s _ r Hlive eq_refl).
  unfold SmartResource.get, SmartResource.set. rewrite Hcheck. simpl.
  split; [reflexivity|]. apply store_same. exact Hlive.
Qed.

(** C3, as amended: in the scenario of the specification, from any
    state, [iterator_find] returns 1 and leaves the cursor on the match:
    the next [iterator_next] yields 7, and the one after it 9. *)
Theorem iterator_find_leaves_cursor_on_match (s : State) :
  returned (find_then_next s) = Some (1, 7, 9).
Proof.
  unfold find_then_next, iterator_create.
  unfold bind at 1. unfold try_catch, bind at 1.
  change (lift (IteratorWrapper.new (Some [5; 7; 9]) 3) s)
    with (Returns (IteratorWrapper.Build [5; 7; 9] 0) s).
  cbv iota beta.
  destruct (new_object_fresh (an_iterator (IteratorWrapper.Build [5; 7; 9] 0)) s)
    as (h & -> & Hnull & _).
  unfold iterator_reset, iterator_find, iterator_next. rewrite Hnull.
  unfold bind, deref, store. simpl heap.
  repeat (rewrite lookup_insert_eq; simpl).
  reflexivity.
Qed.
End Failures.

(** ** Null handles and the frame of the last-error slot *)

Create HintDb frame.

Section Frame.
Context `{Toolchain}.

(** C6: a call that is given the null handle returns, in every state
    and so without reading the heap, and leaves the state, the
    last-error slot included, as it was: an accessor returns its
    sentinel, which is 0, [0.0] or the empty string, and a mutator
    returns nothing. *)
Theorem null_handle_is_tolerated (c : call) (s : State) :
  In nullptr (handles_of c) ->
  exists v,
    run c s = Returns v s
    /\ match role_of c with
       | accessor sentinel =>
           v = sentinel
           /\ (sentinel = v_int 0 \/ sentinel = v_double dzero
               \/ sentinel = v_text "")
       | mutator => v = v_void
       | other => True
       end.
Proof.
  intros Hnull.
  destruct c; simpl in Hnull; try contradiction;
    repeat match goal with
      | Hor : _ \/ _ |- _ => destruct Hor as [Hor | Hor]
      | Heq : _ = nullptr |- _ => subst
      | Hf : False |- _ => contradiction
      end;
    simpl.
  all: try (eexists; split; [reflexivity | auto]; fail).
  all: try (destruct text; eexists; split; [reflexivity | auto]; fail).
  all: try (unfold returning, matrix_multiply, safe_matrix_multiply, bind;
            destruct (is_null a); simpl; eexists; split; [reflexivity | auto]; fail).
  all: destruct a; (eexists; split; [reflexivity | auto]).
Qed.

Lemma quiet_ret {A} (a : A) : quiet (ret a).
Proof. intros s. simpl. auto. Qed.

Lemma quiet_bind {A B} (m : M A) (k : A -> M B) :
  quiet m -> (forall a, quiet (k a)) -> quiet (bind m k).
Proof.
  intros Hm Hk s. unfold bind. specialize (Hm s).
  destruct (m s) as [a s1 | e s1 |]; [|exact Hm|exact I].
  specialize (Hk a s1). destruct (k a s1) as [b s2 | e s2 |]; [| |exact I];
    destruct Hm, Hk; split; congruence.
Qed.

Lemma quiet_lift {A} (r : result A) : quiet (lift r).
Proof. intros s. destruct r; simpl; auto. Qed.

Lemma quiet_deref {T} (as_T : object -> option T) h : quiet (deref as_T h).
Proof.
  intros s. unfold deref. destruct (heap s !! h) as [o|]; [|exact I].
  destruct (as_T o); simpl; auto.
Qed.

Lemma quiet_store h o : quiet (store h o).
Proof. intros s. simpl. auto. Qed.

Lemma quiet_new_object o : quiet (new_object o).
Proof. intros s. simpl. auto. Qed.

Lemma quiet_print items : quiet (print items).
Proof. intros s. simpl. auto. Qed.

Lemma quiet_read_last_error : quiet read_last_error.
Proof. intros s. simpl. auto. Qed.

Lemma quiet_if {A} (b : bool) (m1 m2 : M A) :
  quiet m1 -> quiet m2 -> quiet (if b then m1 else m2).
Proof. destruct b; auto. Qed.

Lemma quiet_delete {T} (as_T : object -> option T) h : quiet (delete as_T h).
Proof.
  unfold delete. apply quiet_if; [apply quiet_ret|].
  apply quiet_bind; [apply quiet_deref|]. intros _ s. simpl. auto.
Qed.

Lemma quiet_write_int r x : quiet (write_int r x).
Proof.
  unfold write_int. apply quiet_bind; [apply quiet_deref|].
  intros _. apply quiet_store.
Qed.

Lemma quiet_write_handle r x : quiet (write_handle r x).
Proof.
  unfold write_handle. apply quiet_bind; [apply quiet_deref|].
  intros _. apply quiet_store.
Qed.

Lemma accounted_quiet {A} (m : M A) : quiet m -> no_throw m -> accounted m.
Proof.
  intros Hq Hn s. specialize (Hq s). specialize (Hn s).
  destruct (m s); [tauto | exact Hn | exact I].
Qed.

Lemma accounted_try_catch {A} (body : M A) handlers :
  quiet body ->
  Forall (fun h => reports (snd h)) handlers ->
  (exists h, In h handlers /\ fst h = catch_exception) ->
  accounted (try_catch body handlers).
Proof.
  intros Hq Hhandlers (hall & Hin & Hall) s. unfold try_catch.
  specialize (Hq s). destruct (body s) as [a s1 | e s1 |]; [tauto | | exact I].
  destruct (List.find (fun h => catches (fst h) e) handlers) as [h|] eqn:Hfind.
  - apply find_some in Hfind as [Hh _].
    rewrite Forall_forall in Hhandlers. apply list_elem_of_In in Hh.
    destruct (Hhandlers h Hh e) as (a & ->). simpl.
    destruct Hq as [_ Hf]. right. exists e. rewrite Hf. auto.
  - apply (find_none _ _ Hfind) in Hin. rewrite Hall in Hin. discriminate.
Qed.

Lemma accounted_if {A} (b : bool) (m1 m2 : M A) :
  accounted m1 -> accounted m2 -> accounted (if b then m1 else m2).
Proof. destruct b; auto. Qed.

Lemma accounted_returning {A} (wrap : A -> value) (m : M A) :
  accounted m -> accounted (returning wrap m).
Proof.
  intros Hm s. unfold returning, bind. specialize (Hm s).
  destruct (m s); simpl; auto.
Qed.

Lemma accounted_on_exception {A} (body : M A) (a : A) :
  quiet body -> accounted (try_catch body (on_exception a)).
Proof.
  intros Hq. apply accounted_try_catch; [exact Hq | |].
  - repeat constructor. intros e. exists a. reflexivity.
  - eexists. split; [left; reflexivity | reflexivity].
Qed.

Lemma no_throw_ret {A} (a : A) : no_throw (ret a).
Proof. intros s. exact I. Qed.

Lemma no_throw_bind {A B} (m : M A) (k : A -> M B) :
  no_throw m -> (forall a, no_throw (k a)) -> no_throw (bind m k).
Proof.
  intros Hm Hk s. unfold bind. specialize (Hm s).
  destruct (m s) as [a s1 | e s1 |]; [apply Hk | exact Hm | exact I].
Qed.

Lemma no_throw_lift {A} (r : result A) : never_throws r -> no_throw (lift r).
Proof. intros Hr s. destruct r; simpl; auto. Qed.

Lemma no_throw_deref {T} (as_T : object -> option T) h : no_throw (deref as_T h).
Proof.
  intros s. unfold deref. destruct (heap s !! h) as [o|]; [|exact I].
  destruct (as_T o); exact I.
Qed.

Lemma no_throw_store h o : no_throw (store h o).
Proof. intros s. exact I. Qed.

Lemma no_throw_print items : no_throw (print items).
Proof. intros s. exact I. Qed.

Lemma no_throw_read_last_error : no_throw read_last_error.
Proof. intros s. exact I. Qed.

Lemma no_throw_if {A} (b : bool) (m1 m2 : M A) :
  no_throw m1 -> no_throw m2 -> no_throw (if b then m1 else m2).
Proof. destruct b; auto. Qed.

Lemma no_throw_delete {T} (as_T : object -> option T) h : no_throw (delete as_T h).
Proof.
  unfold delete. apply no_throw_if; [apply no_throw_ret|].
  apply no_throw_bind; [apply no_throw_deref|]. intros _ s. exact I.
Qed.

Lemma never_throws_bind {A B} (r : result A) (k : A -> result B) :
  never_throws r -> (forall a, never_throws (k a)) ->
  never_throws (let* a := r in k a).
Proof. intros Hr Hk. destruct r; simpl; auto. Qed.

Lemma never_throws_index {A} (v : list A) i : never_throws (Vector.index v i).
Proof.
  unfold Vector.index. destruct ((0 <=? i) && (i <? Z.of_nat (length v)));
    [|exact I]. destruct (v !! Z.to_nat i); exact I.
Qed.

Lemma never_throws_for_each {A St} (body : A -> St -> result St) l s :
  (forall i s', never_throws (body i s')) -> never_throws (for_each body l s).
Proof.
  intros Hbody. revert s. induction l as [|i l IH]; intros s; simpl; [exact I|].
  apply never_throws_bind; [apply Hbody | exact IH].
Qed.

Lemma never_throws_resource_set r i x : never_throws (SmartResource.set r i x).
Proof.
  unfold SmartResource.set.
  destruct ((0 <=? i) && (i <? SmartResource.size_ r)); [|exact I].
  apply never_throws_bind; [apply never_throws_index | intros; exact I].
Qed.

Lemma never_throws_resource_get r i : never_throws (SmartResource.get r i).
Proof.
  unfold SmartResource.get.
  destruct ((0 <=? i) && (i <? SmartResource.size_ r)); [|exact I].
  apply never_throws_index.
Qed.

Lemma never_throws_next it : never_throws (IteratorWrapper.next it).
Proof.
  unfold IteratorWrapper.next. destruct (IteratorWrapper.has_next it); [|exact I].
  apply never_throws_bind; [apply never_throws_index | intros; exact I].
Qed.

Lemma never_throws_cell m i j : never_throws (Matrix.cell m i j).
Proof.
  unfold Matrix.cell. apply never_throws_bind; [apply never_throws_index|].
  intros row. apply never_throws_index.
Qed.

Lemma never_throws_print m : never_throws (Matrix.print m).
Proof.
  unfold Matrix.print, for_range. apply never_throws_for_each. intros i out.
  apply never_throws_bind; [|intros; exact I].
  apply never_throws_for_each. intros j out'.
  apply never_throws_bind; [apply never_throws_cell | intros; exact I].
Qed.

#[local] Hint Resolve quiet_ret quiet_bind quiet_lift quiet_deref quiet_store
  quiet_new_object quiet_print quiet_read_last_error quiet_if quiet_delete
  quiet_write_int quiet_write_handle
  no_throw_ret no_throw_bind no_throw_lift no_throw_deref no_throw_store
  no_throw_print no_throw_read_last_error no_throw_if no_throw_delete
  never_throws_resource_set never_throws_resource_get never_throws_next
  never_throws_print
  accounted_on_exception accounted_if accounted_returning accounted_quiet
  : frame.

(** Every boundary function accounts for what it does to the last-error
    slot, and lets no exception out. *)
Lemma run_accounted (c : call) : accounted (run c).
Proof.
  destruct c; simpl; apply accounted_returning;
    first
      [ solve [ unfold vector_create, vector_destroy, vector_add, vector_get,
          vector_size, vector_clear, vector_sum, vector_sort, string_create,
          string_destroy, string_get_cstr, string_length_cpp, string_reverse,
          string_to_upper, string_to_lower, calculate_mean_double,
          calculate_mean_float, calculate_variance, calculate_standard_deviation,
          matrix_create, matrix_destroy, matrix_set, matrix_get, matrix_rows,
          matrix_cols, matrix_multiply, matrix_transpose, matrix_print,
          smart_resource_create, smart_resource_use, smart_resource_get,
          smart_resource_size, function_create_add, function_create_multiply,
          function_create_power, function_destroy, function_call,
          iterator_create, iterator_destroy, iterator_has_next, iterator_next,
          iterator_reset, iterator_find, get_last_error_message;
          auto 12 with frame ]
      | idtac ].
  - unfold string_append. destruct (is_null handle), text; auto 12 with frame.
  - unfold string_prepend. destruct (is_null handle), text; auto 12 with frame.
  - unfold safe_vector_get. repeat apply accounted_if; auto with frame.
    apply accounted_try_catch; [auto 12 with frame | |].
    + repeat constructor; intros e; eexists; reflexivity.
    + eexists. split; [right; left; reflexivity | reflexivity].
  - unfold safe_matrix_multiply. repeat apply accounted_if; auto with frame.
    apply accounted_try_catch; [auto 12 with frame | |].
    + repeat constructor; intros e; eexists; reflexivity.
    + eexists. split; [right; left; reflexivity | reflexivity].
Qed.

(** No exception the embedding knows of crosses the boundary. (A failed
    allocation, which the embedding leaves out, is caught only by the
    functions that have a [try] block.) *)
Lemma nothing_escapes (c : call) (s s' : State) (e : exception) :
  run c s <> Escapes e s'.
Proof.
  intros Hrun. pose proof (run_accounted c s) as Hacc.
  rewrite Hrun in Hacc. exact Hacc.
Qed.

(** C8: when a call of a boundary function returns without having
    handled an exception, the last-error message is the one from before
    the call, for every function and every state. *)
Theorem success_keeps_last_error (c : call) (s s' : State) (v : value) :
  run c s = Returns v s' ->
  faults s' = faults s ->
  last_error_message s' = last_error_message s.
Proof.
  intros Hrun Hfaults. pose proof (run_accounted c s) as Hacc.
  rewrite Hrun in Hacc. destruct Hacc as [[_ Hmsg] | (e & Hgrown & _)].
  - exact Hmsg.
  - rewrite Hfaults in Hgrown. symmetry in Hgrown.
    exfalso. exact (cons_neq_self _ _ Hgrown).
Qed.

(** The other half of the contract of the last-error slot: a call that
    handled an exception handled exactly one, and left its text. *)
Lemma failure_overwrites_last_error (c : call) (s s' : State) (v : value) :
  run c s = Returns v s' ->
  faults s' <> faults s ->
  exists e, faults s' = e :: faults s /\ last_error_message s' = what e.
Proof.
  intros Hrun Hfaults. pose proof (run_accounted c s) as Hacc.
  rewrite Hrun in Hacc. destruct Hacc as [[Hsame _] | Hfailed].
  - contradiction.
  - exact Hfailed.
Qed.
End Frame.

(** ** The statistics templates *)

Lemma of_int_one : of_int double_num 1 = one.
Proof. reflexivity. Qed.

(** A mantissa and exponent that fit the format need no shift, and round
    to themselves. *)
Lemma shr_fexp_canonical m e :
  bounded 53 1024 m e = true ->
  shr_fexp 53 1024 (Zpos m) e loc_Exact
  = (Build_shr_record (Zpos m) false false, e).
Proof.
  unfold bounded, canonical_mantissa. rewrite andb_true_iff, Z.eqb_eq.
  intros [Hcanon _]. unfold shr_fexp. simpl Zdigits2.
  rewrite Hcanon, Z.sub_diag. reflexivity.
Qed.

Lemma bounded_exponent m e :
  bounded 53 1024 m e = true -> (e <=? 1024 - 53) = true.
Proof. unfold bounded. rewrite andb_true_iff. tauto. Qed.

Lemma binary_round_aux_canonical sx m e :
  bounded 53 1024 m e = true ->
  binary_round_aux 53 1024 sx (Zpos m) e loc_Exact = S754_finite sx m e.
Proof.
  intros Hb. unfold binary_round_aux. rewrite (shr_fexp_canonical m e Hb).
  simpl shr_m. simpl loc_of_shr_record. simpl round_nearest_even.
  rewrite (shr_fexp_canonical m e Hb). simpl shr_m.
  rewrite (bounded_exponent m e Hb). reflexivity.
Qed.

Lemma div_eucl_exact q b : 0 < b -> Z.div_eucl (q * b) b = (q, 0).
Proof.
  intros Hb. pose proof (Z_div_mod (q * b) b ltac:(lia)) as Hspec.
  destruct (Z.div_eucl (q * b) b) as [q' r']. destruct Hspec as [Heq Hr].
  assert (q' = q) by nia. subst q'. f_equal. lia.
Qed.

(** What fitting the format means for the number of digits [d] of the
    mantissa: 53 digits, or fewer at the least exponent. *)
Lemma bounded_cases m e :
  bounded 53 1024 m e = true ->
  e <= 971 /\
  ((e = -1074 /\ Zpos (digits2_pos m) <= 53)
   \/ (-1074 < e /\ Zpos (digits2_pos m) = 53)).
Proof.
  unfold bounded, canonical_mantissa, fexp, emin.
  rewrite andb_true_iff, Z.eqb_eq, Z.leb_le. lia.
Qed.

Lemma div_core_by_one m e :
  bounded 53 1024 m e = true ->
  SFdiv_core_binary 53 1024 (Zpos m) e 4503599627370496 (-52)
  = if e =? -1074 then (Zpos m, e, loc_Exact) else (Zpos m~0, e - 1, loc_Exact).
Proof.
  intros Hb. destruct (bounded_cases m e Hb) as [Hmax Hcases].
  unfold SFdiv_core_binary.
  change (Zdigits2 4503599627370496) with 53.
  change (Zdigits2 (Zpos m)) with (Zpos (digits2_pos m)).
  set (d := Zpos (digits2_pos m)) in *. cbv zeta.
  set (e' := Z.min (fexp 53 1024 (d + e - (53 + -52))) (e - -52)).
  destruct Hcases as [[He Hd] | [He Hd]].
  - assert (He' : e' = -1074) by (subst e'; unfold fexp, emin; lia).
    rewrite He'. subst e. change (-1074 - -52 - -1074) with 52. cbv iota.
    rewrite Z.shiftl_mul_pow2 by lia. change (2 ^ 52) with 4503599627370496.
    change IntDef.Z.div_eucl with Z.div_eucl.
    rewrite (div_eucl_exact (Zpos m) 4503599627370496) by lia. reflexivity.
  - assert (He' : e' = e - 1) by (subst e'; unfold fexp, emin; lia).
    rewrite He'. replace (e - -52 - (e - 1)) with 53 by lia. cbv iota.
    rewrite Z.shiftl_mul_pow2 by lia.
    replace (Zpos m * 2 ^ 53) with (Zpos m~0 * 4503599627370496) by lia.
    change IntDef.Z.div_eucl with Z.div_eucl.
    rewrite (div_eucl_exact (Zpos m~0) 4503599627370496) by lia.
    assert (Hne : (e =? -1074) = false) by (apply Z.eqb_neq; lia).
    rewrite Hne. reflexivity.
Qed.

(** Dividing a finite double by [1.0] gives it back. *)
Lemma div_by_one sx m e :
  bounded 53 1024 m e = true ->
  SFdiv 53 1024 (S754_finite sx m e) one = S754_finite sx m e.
Proof.
  intros Hb. unfold SFdiv, one. rewrite (div_core_by_one m e Hb).
  rewrite xorb_false_r.
  destruct (e =? -1074) eqn:He.
  - apply binary_round_aux_canonical. exact Hb.
  - apply Z.eqb_neq in He.
    destruct (bounded_cases m e Hb) as [Hmax [[He' _] | [Hlow Hd]]]; [contradiction|].
    assert (Hshift : shr_fexp 53 1024 (Zpos m~0) (e - 1) loc_Exact
                     = (Build_shr_record (Zpos m) false false, e)).
    { unfold shr_fexp.
      change (Zdigits2 (Zpos m~0)) with (Zpos (Pos.succ (digits2_pos m))).
      rewrite Pos2Z.inj_succ, Hd.
      replace (fexp 53 1024 (Z.succ 53 + (e - 1)) - (e - 1)) with 1
        by (unfold fexp, emin; lia).
      unfold shr. simpl iter_pos. simpl shr_record_of_loc. simpl shr_1.
      f_equal. lia. }
    unfold binary_round_aux. rewrite Hshift.
    simpl shr_m. simpl loc_of_shr_record. simpl round_nearest_even.
    rewrite (shr_fexp_canonical m e Hb). simpl shr_m.
    rewrite (bounded_exponent m e Hb). reflexivity.
Qed.

(** A finite double minus itself is [+0.0]. *)
Lemma sub_self sx m e :
  SFsub 53 1024 (S754_finite sx m e) (S754_finite sx m e) = S754_zero false.
Proof.
  unfold SFsub. rewrite Z.min_id, Z.sub_diag. reflexivity.
Qed.

Section Statistics.
Context `{Toolchain}.

Lemma array_range_single {T} (x : T) (rest : list T) :
  array_range (Some (x :: rest)) 1 = Ok [x].
Proof.
  unfold array_range. change (1 =? 0) with false. cbv iota.
  assert (Hfit : ((0 <? 1) && (1 <=? Z.of_nat (length (x :: rest)))) = true).
  { apply andb_true_iff. rewrite Z.ltb_lt, Z.leb_le. simpl length. lia. }
  rewrite Hfit. change (Z.to_nat 1) with 1%nat. simpl take. rewrite take_0.
  reflexivity.
Qed.

(** The variance of one finite value: the mean is the value, the
    deviation is zero. *)
Lemma variance_single (x : double) (rest : list double) :
  is_finite_double x = true ->
  calculate_variance_template double_num (Some (x :: rest)) 1 = Ok dzero.
Proof.
  intros Hfin. unfold calculate_variance_template, calculate_mean_template.
  change (1 <=? 0) with false. cbv iota.
  rewrite array_range_single. cbn [result_bind fold_left].
  unfold for_range. rewrite seqZ_cons by lia. rewrite seqZ_nil by lia.
  cbn [for_each result_bind]. unfold array_get.
  rewrite (index_in_range (x :: rest) 0 x) by (lia || reflexivity).
  cbn [result_bind].
  change (of_int double_num 0) with dzero.
  rewrite of_int_one.
  change (add double_num) with (SFadd 53 1024).
  change (sub double_num) with (SFsub 53 1024).
  change (mul double_num) with (SFmul 53 1024).
  change (div double_num) with (SFdiv 53 1024).
  destruct x as [sx | sx | | sx m e]; try discriminate.
  - destruct sx; reflexivity.
  - simpl in Hfin.
    change (SFadd 53 1024 dzero (S754_finite sx m e)) with (S754_finite sx m e).
    rewrite (div_by_one sx m e Hfin). rewrite sub_self. reflexivity.
Qed.
(** C9: for a count of zero or less, [calculate_mean_double],
    [calculate_mean_float] and [calculate_variance] return [+0.0]; for a
    single finite value, [calculate_variance] returns [+0.0]. The state
    is left as it was. *)
Theorem statistics_of_empty_and_single
    (s : State) (values : array double) (fvalues : array float) (count : Z)
    (x : double) (rest : list double) :
  count <= 0 ->
  is_finite_double x = true ->
  calculate_mean_double values count s = Returns dzero s
  /\ calculate_mean_float fvalues count s = Returns fzero s
  /\ calculate_variance values count s = Returns dzero s
  /\ calculate_variance (Some (x :: rest)) 1 s = Returns dzero s.
Proof.
  intros Hcount Hfin.
  assert (Hle : (count <=? 0) = true) by (apply Z.leb_le; exact Hcount).
  unfold calculate_mean_double, calculate_mean_float, calculate_variance.
  unfold try_catch. rewrite (variance_single x rest Hfin).
  unfold calculate_variance_template, calculate_mean_template. rewrite Hle.
  repeat split; reflexivity.
Qed.
End Statistics.

(** ** Vectors *)

Section VectorProps.
Context `{Toolchain}.

Lemma wrap_int_id z : is_int z -> wrap_int z = z.
Proof.
  unfold is_int, INT_MIN, INT_MAX, wrap_int. intros Hz.
  rewrite Z.mod_small by lia. lia.
Qed.

Lemma vector_live_get s h v index x :
  is_null h = false -> heap s !! h = Some (a_vector v) ->
  0 <= index < 2 ^ 64 ->
  VectorWrapper.data v !! Z.to_nat index = Some x ->
  vector_get h index s = Returns x s.
Proof.
  intros Hnull Hlive Hi Hx. unfold vector_get. rewrite Hnull.
  unfold try_catch, bind. erewrite deref_live; [|exact Hlive|reflexivity].
  unfold VectorWrapper.get. rewrite (at_in_range _ _ x Hi Hx). reflexivity.
Qed.

Lemma vector_live_size s h v :
  is_null h = false -> heap s !! h = Some (a_vector v) ->
  vector_size h s = Returns (VectorWrapper.size v) s.
Proof.
  intros Hnull Hlive. unfold vector_size. rewrite Hnull.
  unfold bind. erewrite deref_live; [|exact Hlive|reflexivity]. reflexivity.
Qed.

(** X1: for a live vector of fewer than [INT_MAX] elements, [vector_add]
    appends: afterwards [vector_size] is one more, [vector_get] at the old
    size returns the new value, every old element is still read at its
    index, and the last-error slot is as it was. *)
Theorem vector_add_then_get (s : State) (h : Handle) (v : VectorWrapper.t) (x : Z) :
  h <> nullptr ->
  heap s !! h = Some (a_vector v) ->
  Z.of_nat (length (VectorWrapper.data v)) < INT_MAX ->
  exists s',
    vector_add h x s = Returns tt s'
    /\ vector_size h s' = Returns (Z.of_nat (length (VectorWrapper.data v)) + 1) s'
    /\ vector_get h (Z.of_nat (length (VectorWrapper.data v))) s' = Returns x s'
    /\ (forall i y, VectorWrapper.data v !! i = Some y ->
          vector_get h (Z.of_nat i) s' = Returns y s')
    /\ last_error_message s' = last_error_message s.
Proof.
  intros Hnull Hlive Hlen. apply is_null_false in Hnull.
  set (v' := VectorWrapper.add v x).
  exists (with_heap s (<[h := a_vector v']> (heap s))).
  assert (Hlive' : heap (with_heap s (<[h := a_vector v']> (heap s))) !! h
                   = Some (a_vector v')) by apply heap_after_store.
  unfold INT_MAX in Hlen.
  split.
  { unfold vector_add. rewrite Hnull. unfold bind.
    erewrite deref_live; [|exact Hlive|reflexivity]. reflexivity. }
  split.
  { rewrite (vector_live_size _ h v' Hnull Hlive'). f_equal.
    unfold VectorWrapper.size, v', VectorWrapper.add. simpl.
    rewrite length_app. simpl. rewrite wrap_int_id; [lia|].
    unfold is_int, INT_MIN, INT_MAX. lia. }
  split.
  { apply (vector_live_get _ h v' _ x Hnull Hlive'); [lia|].
    unfold v', VectorWrapper.add. simpl. rewrite Nat2Z.id.
    apply list_lookup_middle. reflexivity. }
  split; [|reflexivity].
  intros i y Hy. pose proof (lookup_lt_Some _ _ _ Hy) as Hi.
  apply (vector_live_get _ h v' _ y Hnull Hlive'); [lia|].
  unfold v', VectorWrapper.add. simpl. rewrite Nat2Z.id.
  apply lookup_app_l_Some. exact Hy.
Qed.

(** X2: [vector_get] with an index outside a live vector returns [0],
    changes no object, and leaves the text of the [std::out_of_range]
    that [at] threw, for the index as [size_t] and the size, in the
    last-error slot. *)
Theorem vector_get_out_of_range (s : State) (h : Handle) (v : VectorWrapper.t) (index : Z) :
  h <> nullptr ->
  heap s !! h = Some (a_vector v) ->
  Z.of_nat (length (VectorWrapper.data v)) <= PTRDIFF_MAX ->
  is_int index ->
  ~ (0 <= index < Z.of_nat (length (VectorWrapper.data v))) ->
  exists s',
    vector_get h index s = Returns 0 s'
    /\ heap s' = heap s
    /\ last_error_message s'
       = range_check_what (to_size_t index) (Z.of_nat (length (VectorWrapper.data v))).
Proof.
  intros Hnull Hlive Hlen Hint Hout. apply is_null_false in Hnull.
  unfold vector_get. rewrite Hnull. unfold try_catch, bind.
  erewrite deref_live; [|exact Hlive|reflexivity].
  unfold VectorWrapper.get. rewrite (at_out_of_range _ _ Hint Hlen Hout).
  simpl. eexists. repeat split; reflexivity.
Qed.

Lemma sum_exact acc l :
  is_int acc -> sums_fit acc l ->
  fold_left (fun a x => wrap_int (a + x)) l acc = fold_left Z.add l acc.
Proof.
  revert acc. induction l as [|x l IH]; intros acc Hacc Hfit; simpl; [reflexivity|].
  destruct Hfit as [Hx Hrest]. rewrite (wrap_int_id _ Hx). apply IH; assumption.
Qed.

(** X3: when no partial sum leaves the range of [int], [vector_sum]
    returns the mathematical sum of the elements and changes nothing. *)
Theorem vector_sum_exact (s : State) (h : Handle) (v : VectorWrapper.t) :
  h <> nullptr ->
  heap s !! h = Some (a_vector v) ->
  sums_fit 0 (VectorWrapper.data v) ->
  vector_sum h s = Returns (fold_left Z.add (VectorWrapper.data v) 0) s.
Proof.
  intros Hnull Hlive Hfit. apply is_null_false in Hnull.
  unfold vector_sum. rewrite Hnull. unfold bind.
  erewrite deref_live; [|exact Hlive|reflexivity].
  unfold VectorWrapper.sum. rewrite sum_exact; [reflexivity | | exact Hfit].
  unfold is_int, INT_MIN, INT_MAX. lia.
Qed.

(** X4: [vector_sort] leaves a live vector in ascending order with the
    same elements as before, counted with multiplicity; every position is
    read by [vector_get], the size and the last-error slot are unchanged. *)
Theorem vector_sort_sorts (s : State) (h : Handle) (v : VectorWrapper.t) :
  h <> nullptr ->
  heap s !! h = Some (a_vector v) ->
  Z.of_nat (length (VectorWrapper.data v)) <= PTRDIFF_MAX ->
  exists s' sorted,
    vector_sort h s = Returns tt s'
    /\ heap s' !! h = Some (a_vector (VectorWrapper.Build sorted))
    /\ StronglySorted Z.le sorted
    /\ sorted ≡ₚ VectorWrapper.data v
    /\ (forall i y, sorted !! i = Some y -> vector_get h (Z.of_nat i) s' = Returns y s')
    /\ vector_size h s' = Returns (VectorWrapper.size v) s'
    /\ last_error_message s' = last_error_message s.
Proof.
  intros Hnull Hlive Hlen. apply is_null_false in Hnull.
  set (sorted := merge_sort Z.le (VectorWrapper.data v)).
  exists (with_heap s (<[h := a_vector (VectorWrapper.Build sorted)]> (heap s))), sorted.
  assert (Hperm : sorted ≡ₚ VectorWrapper.data v) by apply merge_sort_Permutation.
  assert (Hlive' : heap (with_heap s (<[h := a_vector (VectorWrapper.Build sorted)]> (heap s))) !! h
                   = Some (a_vector (VectorWrapper.Build sorted))) by apply heap_after_store.
  split.
  { unfold vector_sort. rewrite Hnull. unfold bind.
    erewrite deref_live; [|exact Hlive|reflexivity]. reflexivity. }
  split; [exact Hlive'|].
  split; [apply StronglySorted_merge_sort; apply _|].
  split; [exact Hperm|].
  split.
  { intros i y Hy. pose proof (lookup_lt_Some _ _ _ Hy) as Hi.
    rewrite (Permutation_length Hperm) in Hi. unfold PTRDIFF_MAX in Hlen.
    apply (vector_live_get _ h (VectorWrapper.Build sorted) _ y Hnull Hlive'); [lia|].
    simpl. rewrite Nat2Z.id. exact Hy. }
  split; [|reflexivity].
  rewrite (vector_live_size _ h _ Hnull Hlive'). f_equal.
  unfold VectorWrapper.size. simpl. rewrite (Permutation_length Hperm). reflexivity.
Qed.
End VectorProps.

(** ** Class methods that end *)

Section Defined.
Context `{Toolchain}.

Lemma defined_bind {A B} (r : result A) (k : A -> result B) :
  defined r -> (forall a, r = Ok a -> defined (k a)) ->
  defined (let* a := r in k a).
Proof. intros Hr Hk. destruct r; simpl; auto. Qed.

Lemma at_defined {A} (v : list A) (index : Z) : defined (Vector.at_ v index).
Proof.
  unfold Vector.at_. destruct (Z.ltb_spec (to_size_t index) (Z.of_nat (length v)))
    as [Hlt | Hge]; [|exact I].
  assert (H0 : 0 <= to_size_t index)
    by (unfold to_size_t, SIZE_WIDTH; apply Z.mod_pos_bound; lia).
  destruct (lookup_lt_is_Some_2 v (Z.to_nat (to_size_t index))) as [x ->]; [lia|].
  exact I.
Qed.

Lemma get_defined m row col : defined (Matrix.get m row col).
Proof.
  unfold Matrix.get. apply defined_bind; [apply at_defined|].
  intros r _. apply at_defined.
Qed.

Lemma set_defined m row col x : defined (Matrix.set m row col x).
Proof.
  unfold Matrix.set. apply defined_bind; [apply at_defined|].
  intros r _. apply defined_bind; [apply at_defined|]. intros; exact I.
Qed.

Lemma new_defined rows cols : defined (Matrix.new rows cols).
Proof.
  unfold Matrix.new, Vector.make, Vector.resize.
  repeat (case_match; simpl; try exact I).
Qed.

Lemma multiply_defined a b :
  well_formed a = true -> well_formed b = true -> defined (Matrix.multiply a b).
Proof.
  intros Ha Hb. apply well_formed_shaped in Ha, Hb.
  destruct (Z.eq_dec (Matrix.cols_ a) (Matrix.rows_ b)) as [Heq | Hne].
  - rewrite <- Heq in Hb.
    destruct (multiply_ok a b _ _ _ Ha Hb) as (p & -> & _). exact I.
  - unfold Matrix.multiply. apply Z.eqb_neq in Hne. rewrite Hne. exact I.
Qed.

Lemma transpose_defined a : well_formed a = true -> defined (Matrix.transpose a).
Proof.
  intros Ha. apply well_formed_shaped in Ha.
  destruct (transpose_ok a _ _ Ha) as (p & -> & _). exact I.
Qed.

(** [print] sends the cells row by row, a blank after each cell and a
    line end after each row. *)
Lemma print_ok m :
  well_formed m = true -> Matrix.print m = Ok (matrix_items m).
Proof.
  intros Hwf. apply well_formed_shaped in Hwf.
  set (r := Matrix.rows_ m) in *. set (c := Matrix.cols_ m) in *.
  pose proof Hwf as (_ & _ & Hr & Hc & Hlen & Hrows).
  unfold Matrix.print. fold r c.
  destruct (for_range_invariant
    (fun i out => out = flat_map row_items (take (Z.to_nat i) (Matrix.data m)))
    r (fun i out1 =>
      let* out2 := for_range c (fun j out =>
          let* x := Matrix.cell m i j in
          Ok (out ++ [put_double x; put_text " "])) out1 in
      Ok (out2 ++ [put_endl])) []) as (out & Hrun & Hout);
    [lia | reflexivity | |].
  - intros i out1 Hi ->.
    destruct (shaped_row m r c i Hwf Hi) as (row & Hrow & Hlenrow).
    destruct (for_range_invariant
      (fun j out => out = flat_map row_items (take (Z.to_nat i) (Matrix.data m))
                          ++ flat_map (fun x => [put_double x; put_text " "])
                               (take (Z.to_nat j) row))
      c (fun j out =>
          let* x := Matrix.cell m i j in
          Ok (out ++ [put_double x; put_text " "]))
      (flat_map row_items (take (Z.to_nat i) (Matrix.data m))))
      as (out2 & Hrun2 & Hout2); [lia | simpl; rewrite app_nil_r; reflexivity | |].
    + intros j out Hj ->.
      rewrite (cell_entry m r c i j Hwf Hi Hj). simpl.
      destruct (shaped_entry m r c i j Hwf Hi Hj) as (row' & Hrow' & Hx).
      assert (row' = row) by congruence. subst row'.
      eexists. split; [reflexivity|].
      replace (Z.to_nat (j + 1)) with (S (Z.to_nat j)) by lia.
      rewrite (take_S_r _ _ _ Hx), flat_map_app. simpl.
      rewrite <- app_assoc. reflexivity.
    + rewrite Hrun2. simpl. eexists. split; [reflexivity|].
      rewrite Hout2. replace (Z.to_nat (i + 1)) with (S (Z.to_nat i)) by lia.
      rewrite (take_S_r _ _ _ Hrow), flat_map_app. simpl. rewrite app_nil_r.
      rewrite (take_ge row) by lia. unfold row_items at 3.
      rewrite <- app_assoc. reflexivity.
  - rewrite Hrun, Hout. rewrite take_ge by lia. reflexivity.
Qed.

Lemma resource_new_ok size :
  0 <= size <= INT_MAX ->
  SmartResource.new size
  = Ok (SmartResource.Build (replicate (Z.to_nat size) dzero) size).
Proof.
  intros Hsize. unfold SmartResource.new, INT_MAX in *.
  rewrite to_size_t_small by lia.
  assert (Hfit : (max_size 8 <? size) = false)
    by (apply Z.ltb_ge; unfold max_size, PTRDIFF_MAX; apply Z.div_le_lower_bound; lia).
  rewrite Hfit.
  destruct (for_range_invariant
    (fun _ d => d = replicate (Z.to_nat size) dzero) size
    (fun i d => let* _ := Vector.index d i in Ok (<[Z.to_nat i := dzero]> d))
    (replicate (Z.to_nat size) dzero)) as (d & -> & ->); [lia | reflexivity | | reflexivity].
  intros i d Hi ->.
  rewrite (index_in_range _ i dzero) by (lia || apply lookup_replicate_2; lia).
  simpl. eexists. split; [reflexivity|].
  apply list_insert_id. apply lookup_replicate_2. lia.
Qed.

Lemma resource_new_negative size :
  INT_MIN <= size < 0 ->
  SmartResource.new size
  = Throw (Exception bad_array_new_length bad_array_new_length_what).
Proof.
  intros Hsize. unfold SmartResource.new.
  rewrite to_size_t_negative by exact Hsize.
  assert (Hbig : (max_size 8 <? size + 2 ^ 64) = true).
  { apply Z.ltb_lt. unfold max_size, PTRDIFF_MAX, INT_MIN in *.
    assert ((2 ^ 63 - 1) / 8 <= 2 ^ 63 - 1) by (apply Z.div_le_upper_bound; lia).
    lia. }
  rewrite Hbig. reflexivity.
Qed.

Lemma resource_get_in_range r index :
  resource_ok r -> 0 <= index < SmartResource.size_ r ->
  exists x, SmartResource.data r !! Z.to_nat index = Some x
            /\ SmartResource.get r index = Ok x.
Proof.
  intros [Hsize Hlen] Hi.
  destruct (lookup_lt_is_Some_2 (SmartResource.data r) (Z.to_nat index)) as [x Hx]; [lia|].
  exists x. split; [exact Hx|]. unfold SmartResource.get.
  assert (Hcheck : ((0 <=? index) && (index <? SmartResource.size_ r)) = true)
    by (apply andb_true_iff; rewrite Z.leb_le, Z.ltb_lt; lia).
  rewrite Hcheck. apply index_in_range; [lia | exact Hx].
Qed.

Lemma resource_set_in_range r index x :
  resource_ok r -> 0 <= index < SmartResource.size_ r ->
  SmartResource.set r index x
  = Ok (SmartResource.Build (<[Z.to_nat index := x]> (SmartResource.data r))
                            (SmartResource.size_ r)).
Proof.
  intros Hok Hi. destruct (resource_get_in_range r index Hok Hi) as (y & Hy & _).
  unfold SmartResource.set.
  assert (Hcheck : ((0 <=? index) && (index <? SmartResource.size_ r)) = true)
    by (apply andb_true_iff; rewrite Z.leb_le, Z.ltb_lt; lia).
  rewrite Hcheck. rewrite (index_in_range _ index y) by (lia || exact Hy).
  reflexivity.
Qed.

Lemma resource_set_ok r index x r' :
  resource_ok r -> SmartResource.set r index x = Ok r' ->
  resource_ok r' /\ SmartResource.size_ r' = SmartResource.size_ r.
Proof.
  intros Hok Hset. unfold SmartResource.set in Hset.
  destruct ((0 <=? index) && (index <? SmartResource.size_ r)) eqn:Hcheck.
  - destruct (Vector.index (SmartResource.data r) index); try discriminate Hset.
    simpl in Hset. injection Hset as <-. split; [|reflexivity].
    destruct Hok as [Hsize Hlen]. split; simpl; [exact Hsize|].
    rewrite length_insert. exact Hlen.
  - injection Hset as <-. auto.
Qed.

Lemma resource_get_defined r index : resource_ok r -> defined (SmartResource.get r index).
Proof.
  intros Hok. unfold SmartResource.get.
  destruct ((0 <=? index) && (index <? SmartResource.size_ r)) eqn:Hcheck; [|exact I].
  apply andb_true_iff in Hcheck. rewrite Z.leb_le, Z.ltb_lt in Hcheck.
  destruct (resource_get_in_range r index Hok) as (x & _ & Hget); [lia|].
  unfold SmartResource.get in Hget.
  assert (Hc : ((0 <=? index) && (index <? SmartResource.size_ r)) = true)
    by (apply andb_true_iff; rewrite Z.leb_le, Z.ltb_lt; lia).
  rewrite Hc in Hget. rewrite Hget. exact I.
Qed.

Lemma resource_set_defined r index x : resource_ok r -> defined (SmartResource.set r index x).
Proof.
  intros Hok.
  destruct ((0 <=? index) && (index <? SmartResource.size_ r)) eqn:Hcheck.
  - apply andb_true_iff in Hcheck. rewrite Z.leb_le, Z.ltb_lt in Hcheck.
    rewrite resource_set_in_range by (assumption || lia). exact I.
  - unfold SmartResource.set. rewrite Hcheck. exact I.
Qed.
End Defined.

(** ** Iterators and the arrays of a caller *)

Section Iter.
Context `{Toolchain}.

Lemma std_find_range l value :
  0 <= IteratorWrapper.std_find l value <= Z.of_nat (length l).
Proof.
  induction l as [|x l IH]; simpl; [lia|].
  destruct (x =? value); lia.
Qed.

(** [std::find] stops at the first element equal to [value]. *)
Lemma std_find_found l value :
  IteratorWrapper.std_find l value < Z.of_nat (length l) ->
  l !! Z.to_nat (IteratorWrapper.std_find l value) = Some value
  /\ forall i, (i < Z.to_nat (IteratorWrapper.std_find l value))%nat ->
       l !! i <> Some value.
Proof.
  induction l as [|x l IH]; simpl; [lia|].
  destruct (Z.eqb_spec x value) as [-> | Hne]; intros Hlt.
  - split; [reflexivity | intros i Hi; lia].
  - pose proof (std_find_range l value) as Hrange.
    destruct IH as [Hat Hbefore]; [lia|].
    replace (Z.to_nat (1 + IteratorWrapper.std_find l value))
      with (S (Z.to_nat (IteratorWrapper.std_find l value))) by lia.
    split; [exact Hat|]. intros [|i] Hi; simpl.
    + congruence.
    + apply Hbefore. lia.
Qed.

Lemma std_find_missing l value :
  IteratorWrapper.std_find l value = Z.of_nat (length l) <-> value ∉ l.
Proof.
  induction l as [|x l IH]; simpl.
  - split; [intros _; apply not_elem_of_nil | reflexivity].
  - pose proof (std_find_range l value) as Hrange.
    rewrite not_elem_of_cons.
    destruct (Z.eqb_spec x value) as [-> | Hne].
    + split; [lia | intros [Hne _]; congruence].
    + rewrite <- IH. split; [intros; split; [congruence | lia] | lia].
Qed.

Lemma next_in_range it x :
  IteratorWrapper.data it !! Z.to_nat (IteratorWrapper.current it) = Some x ->
  0 <= IteratorWrapper.current it ->
  IteratorWrapper.next it
  = Ok (x, IteratorWrapper.Build (IteratorWrapper.data it) (IteratorWrapper.current it + 1)).
Proof.
  intros Hx H0. pose proof (lookup_lt_Some _ _ _ Hx) as Hlt.
  unfold IteratorWrapper.next, IteratorWrapper.has_next, IteratorWrapper.end_.
  assert (Hne : (IteratorWrapper.current it =? Z.of_nat (length (IteratorWrapper.data it))) = false)
    by (apply Z.eqb_neq; lia).
  rewrite Hne. simpl. rewrite (index_in_range _ _ x H0 Hx). reflexivity.
Qed.

Lemma next_at_end it :
  IteratorWrapper.current it = IteratorWrapper.end_ it ->
  IteratorWrapper.next it = Ok (0, it).
Proof.
  intros Hend. unfold IteratorWrapper.next, IteratorWrapper.has_next.
  rewrite Hend, Z.eqb_refl. reflexivity.
Qed.

Lemma next_defined it : iterator_ok it -> defined (IteratorWrapper.next it).
Proof.
  intros [H0 Hend]. unfold IteratorWrapper.end_ in Hend.
  destruct (Z.eq_dec (IteratorWrapper.current it) (IteratorWrapper.end_ it)) as [Heq | Hne].
  - rewrite next_at_end by exact Heq. exact I.
  - unfold IteratorWrapper.end_ in Hne.
    destruct (lookup_lt_is_Some_2 (IteratorWrapper.data it)
                (Z.to_nat (IteratorWrapper.current it))) as [x Hx]; [lia|].
    rewrite (next_in_range it x Hx H0). exact I.
Qed.

Lemma next_ok it r :
  iterator_ok it -> IteratorWrapper.next it = Ok r -> iterator_ok (snd r).
Proof.
  intros [H0 Hend] Hnext. unfold IteratorWrapper.end_ in Hend.
  destruct (Z.eq_dec (IteratorWrapper.current it) (IteratorWrapper.end_ it)) as [Heq | Hne].
  - rewrite next_at_end in Hnext by exact Heq. injection Hnext as <-. split; assumption.
  - unfold IteratorWrapper.end_ in Hne.
    destruct (lookup_lt_is_Some_2 (IteratorWrapper.data it)
                (Z.to_nat (IteratorWrapper.current it))) as [x Hx]; [lia|].
    rewrite (next_in_range it x Hx H0) in Hnext. injection Hnext as <-.
    unfold iterator_ok, IteratorWrapper.end_. simpl. lia.
Qed.

Lemma find_ok it value : iterator_ok it -> iterator_ok (snd (IteratorWrapper.find it value)).
Proof.
  intros Hok. unfold IteratorWrapper.find.
  pose proof (std_find_range (IteratorWrapper.data it) value) as Hrange.
  destruct (negb _); simpl; [|exact Hok].
  unfold iterator_ok, IteratorWrapper.end_. simpl. exact Hrange.
Qed.

Lemma reset_ok it : iterator_ok (IteratorWrapper.reset it).
Proof. unfold iterator_ok, IteratorWrapper.reset, IteratorWrapper.end_. simpl. lia. Qed.

Lemma array_range_readable {T} (a : array T) (count : Z) :
  0 <= count -> readable a count -> defined (array_range a count).
Proof.
  intros H0 Hread. unfold array_range.
  destruct (Z.eqb_spec count 0) as [-> | Hne]; [exact I|].
  destruct Hread as [Hle | (l & -> & Hlen)]; [lia|].
  assert (Hfit : ((0 <? count) && (count <=? Z.of_nat (length l))) = true)
    by (apply andb_true_iff; rewrite Z.ltb_lt, Z.leb_le; lia).
  rewrite Hfit. exact I.
Qed.

Lemma iterator_new_defined a size :
  0 <= size -> readable a size -> defined (IteratorWrapper.new a size).
Proof.
  intros H0 Hread. unfold IteratorWrapper.new.
  apply defined_bind; [apply array_range_readable; assumption | intros; exact I].
Qed.

Lemma iterator_new_ok a size it :
  IteratorWrapper.new a size = Ok it -> iterator_ok it.
Proof.
  unfold IteratorWrapper.new. destruct (array_range a size); try discriminate.
  simpl. intros [= <-]. unfold iterator_ok, IteratorWrapper.end_. simpl. lia.
Qed.

Lemma for_each_defined {A St} (body : A -> St -> result St) l s :
  (forall i s', i ∈ l -> defined (body i s')) -> defined (for_each body l s).
Proof.
  revert s. induction l as [|i l IH]; intros s Hbody; simpl; [exact I|].
  apply defined_bind; [apply Hbody; left|].
  intros s' _. apply IH. intros j s'' Hj. apply Hbody. right. exact Hj.
Qed.

Lemma mean_defined {T} (num : Numeric T) (values : array T) (count : Z) :
  readable values count -> defined (calculate_mean_template num values count).
Proof.
  intros Hread. unfold calculate_mean_template.
  destruct (Z.leb_spec count 0) as [Hle | Hgt]; [exact I|].
  apply defined_bind; [apply array_range_readable; [lia | exact Hread]|].
  intros; exact I.
Qed.

Lemma variance_defined {T} (num : Numeric T) (values : array T) (count : Z) :
  readable values count -> defined (calculate_variance_template num values count).
Proof.
  intros Hread. unfold calculate_variance_template.
  destruct (Z.leb_spec count 0) as [Hle | Hgt]; [exact I|].
  apply defined_bind; [apply mean_defined; exact Hread|].
  intros mean _. apply defined_bind; [|intros; exact I].
  unfold for_range. apply for_each_defined. intros i acc Hi.
  apply elem_of_seqZ in Hi.
  destruct Hread as [Hle | (l & -> & Hlen)]; [lia|].
  unfold array_get.
  destruct (lookup_lt_is_Some_2 l (Z.to_nat i)) as [x Hx]; [lia|].
  rewrite (index_in_range l i x) by (lia || exact Hx). exact I.
Qed.
End Iter.

(** ** Well-typed calls return *)

Section Safety.
Context `{Toolchain}.

Lemma safe_ret {A} (a : A) s : safe (ret a) s.
Proof. discriminate. Qed.

Lemma safe_lift {A} (r : result A) s : defined r -> safe (lift r) s.
Proof. unfold safe. destruct r; simpl; [discriminate | discriminate | tauto]. Qed.

Lemma safe_bind_lift {A B} (r : result A) (k : A -> M B) s :
  defined r -> (forall a, r = Ok a -> safe (k a) s) -> safe (bind (lift r) k) s.
Proof.
  unfold safe, bind. destruct r; simpl; [auto | discriminate | tauto].
Qed.

Lemma safe_bind_deref {T B} (as_T : object -> option T) h (k : T -> M B) s o x :
  heap s !! h = Some o -> as_T o = Some x -> safe (k x) s ->
  safe (bind (deref as_T h) k) s.
Proof.
  intros Hlive Has Hk. unfold safe, bind.
  rewrite (deref_live as_T h s o x Hlive Has). exact Hk.
Qed.

Lemma safe_store h o s : safe (store h o) s.
Proof. discriminate. Qed.

Lemma safe_bind_store {B} h o (k : unit -> M B) s :
  safe (k tt) (with_heap s (<[h := o]> (heap s))) -> safe (bind (store h o) k) s.
Proof. intros Hk. exact Hk. Qed.

Lemma safe_new_object o s : safe (new_object o) s.
Proof. discriminate. Qed.

Lemma safe_print items s : safe (print items) s.
Proof. discriminate. Qed.

Lemma safe_returning {A} (wrap : A -> value) (m : M A) s :
  safe m s -> safe (returning wrap m) s.
Proof.
  unfold safe, returning, bind. destruct (m s); simpl; [discriminate | discriminate | tauto].
Qed.

Lemma safe_on_exception {A} (body : M A) (a : A) s :
  safe body s -> safe (try_catch body (on_exception a)) s.
Proof.
  unfold safe, try_catch. destruct (body s); simpl; [discriminate | discriminate | tauto].
Qed.

Lemma safe_try_catch {A} (body : M A) handlers s :
  safe body s -> Forall (fun h => reports (snd h)) handlers ->
  safe (try_catch body handlers) s.
Proof.
  unfold safe, try_catch. intros Hbody Hhandlers.
  destruct (body s) as [a s1 | e s1 |]; [discriminate | | tauto].
  destruct (List.find (fun h => catches (fst h) e) handlers) as [h|] eqn:Hfind;
    [|discriminate].
  apply find_some in Hfind as [Hh _]. apply list_elem_of_In in Hh.
  rewrite Forall_forall in Hhandlers. destruct (Hhandlers h Hh e) as (a & ->).
  discriminate.
Qed.

Lemma safe_bind_new_object {B} o (k : Handle -> M B) s :
  (forall a, heap s !! a = None -> safe (k a) (with_heap s (<[a := o]> (heap s)))) ->
  safe (bind (new_object o) k) s.
Proof.
  intros Hk. destruct (new_object_fresh o s) as (a & Hnew & _ & Hfree).
  unfold safe, bind. rewrite Hnew. apply Hk. exact Hfree.
Qed.

Lemma safe_delete {T} (as_T : object -> option T) h s :
  points_to as_T s h -> safe (delete as_T h) s.
Proof.
  intros [-> | (o & x & Hlive & Has)]; [discriminate|].
  unfold delete. destruct (is_null h); [discriminate|].
  eapply safe_bind_deref; [exact Hlive | exact Has | discriminate].
Qed.

Lemma consistent_matrix s h o m :
  consistent s -> heap s !! h = Some o -> as_matrix o = Some m -> well_formed m = true.
Proof.
  intros Hs Hlive Has. destruct o; try discriminate Has. injection Has as ->.
  exact (Hs h _ Hlive).
Qed.

Lemma consistent_resource s h o r :
  consistent s -> heap s !! h = Some o -> as_resource o = Some r -> resource_ok r.
Proof.
  intros Hs Hlive Has. destruct o; try discriminate Has. injection Has as ->.
  exact (Hs h _ Hlive).
Qed.

Lemma consistent_iterator s h o it :
  consistent s -> heap s !! h = Some o -> as_iterator o = Some it -> iterator_ok it.
Proof.
  intros Hs Hlive Has. destruct o; try discriminate Has. injection Has as ->.
  exact (Hs h _ Hlive).
Qed.

Lemma resource_new_defined size : is_int size -> defined (SmartResource.new size).
Proof.
  intros [Hlo Hhi]. destruct (Z.neg_nonneg_cases size) as [Hneg | Hpos].
  - rewrite resource_new_negative by lia. exact I.
  - rewrite resource_new_ok by lia. exact I.
Qed.

(** A function with one handle, a null test and a body that reads the
    object. *)
Ltac with_handle Hp :=
  let o := fresh "o" in let x := fresh "x" in
  let Hlive := fresh "Hlive" in let Has := fresh "Has" in
  destruct Hp as [-> | (o & x & Hlive & Has)]; [discriminate|];
  match goal with |- safe (if is_null ?h then _ else _) _ =>
    destruct (is_null h); [discriminate|] end;
  try apply safe_on_exception;
  eapply safe_bind_deref; [exact Hlive | exact Has |].

Lemma run_is_defined (c : call) (s : State) :
  consistent s -> well_typed c s -> run c s <> Undefined.
Proof.
  intros Hs Htyped. change (safe (run c) s).
  destruct c; simpl in *; apply safe_returning.
  - (* vector_create *) apply safe_on_exception, safe_new_object.
  - apply safe_delete; exact Htyped.
  - unfold vector_add. with_handle Htyped. apply safe_store.
  - unfold vector_get. with_handle Htyped. apply safe_lift, at_defined.
  - unfold vector_size. with_handle Htyped. apply safe_ret.
  - unfold vector_clear. with_handle Htyped. apply safe_store.
  - unfold vector_sum. with_handle Htyped. apply safe_ret.
  - unfold vector_sort. with_handle Htyped. apply safe_store.
  - (* string_create *) apply safe_on_exception, safe_new_object.
  - apply safe_delete; exact Htyped.
  - unfold string_get_cstr. with_handle Htyped. apply safe_ret.
  - unfold string_append.
    destruct Htyped as [-> | (o & x & Hlive & Has)]; [destruct text; discriminate|].
    destruct (is_null handle), text; try discriminate.
    eapply safe_bind_deref; [exact Hlive | exact Has | apply safe_store].
  - unfold string_prepend.
    destruct Htyped as [-> | (o & x & Hlive & Has)]; [destruct text; discriminate|].
    destruct (is_null handle), text; try discriminate.
    eapply safe_bind_deref; [exact Hlive | exact Has | apply safe_store].
  - unfold string_length_cpp. with_handle Htyped. apply safe_ret.
  - unfold string_reverse. with_handle Htyped. apply safe_store.
  - unfold string_to_upper. with_handle Htyped. apply safe_store.
  - unfold string_to_lower. with_handle Htyped. apply safe_store.
  - apply safe_on_exception, safe_lift, mean_defined; exact Htyped.
  - apply safe_on_exception, safe_lift, mean_defined; exact Htyped.
  - apply safe_on_exception, safe_lift, variance_defined; exact Htyped.
  - apply safe_on_exception. apply safe_bind_lift; [apply variance_defined; exact Htyped|].
    intros; apply safe_ret.
  - (* matrix_create *) apply safe_on_exception.
    apply safe_bind_lift; [apply new_defined | intros; apply safe_new_object].
  - apply safe_delete; exact Htyped.
  - unfold matrix_set. with_handle Htyped.
    apply safe_bind_lift; [apply set_defined | intros; apply safe_store].
  - unfold matrix_get. with_handle Htyped. apply safe_lift, get_defined.
  - unfold matrix_rows. with_handle Htyped. apply safe_ret.
  - unfold matrix_cols. with_handle Htyped. apply safe_ret.
  - (* matrix_multiply *) unfold matrix_multiply.
    destruct Htyped as [[-> | (oa & ma & Ha & Hma)] [-> | (ob & mb & Hb & Hmb)]];
      try (destruct (is_null a); discriminate); try discriminate.
    destruct (orb (is_null a) (is_null b)); [discriminate|].
    apply safe_on_exception.
    eapply safe_bind_deref; [exact Ha | exact Hma |].
    eapply safe_bind_deref; [exact Hb | exact Hmb |].
    apply safe_bind_lift; [|intros; apply safe_new_object].
    apply multiply_defined;
      [exact (consistent_matrix s a oa ma Hs Ha Hma)
      | exact (consistent_matrix s b ob mb Hs Hb Hmb)].
  - unfold matrix_transpose. with_handle Htyped.
    apply safe_bind_lift; [|intros; apply safe_new_object].
    apply transpose_defined. eapply consistent_matrix; eassumption.
  - unfold matrix_print.
    destruct Htyped as [-> | (o & m & Hlive & Has)]; [discriminate|].
    destruct (is_null handle); [discriminate|].
    eapply safe_bind_deref; [exact Hlive | exact Has |].
    rewrite print_ok by (eapply consistent_matrix; eassumption).
    apply safe_print.
  - (* smart_resource_create *) apply safe_on_exception.
    apply safe_bind_lift; [apply resource_new_defined; exact Htyped|].
    intros; apply safe_new_object.
  - unfold smart_resource_use. with_handle Htyped.
    apply safe_bind_lift; [|intros; apply safe_store].
    apply resource_set_defined. eapply consistent_resource; eassumption.
  - unfold smart_resource_get. with_handle Htyped.
    apply safe_lift, resource_get_defined. eapply consistent_resource; eassumption.
  - unfold smart_resource_size. with_handle Htyped. apply safe_ret.
  - apply safe_on_exception, safe_new_object.
  - apply safe_on_exception, safe_new_object.
  - apply safe_on_exception, safe_new_object.
  - apply safe_delete; exact Htyped.
  - unfold function_call. with_handle Htyped. apply safe_ret.
  - (* iterator_create *) destruct Htyped as [Hsize Hread]. apply safe_on_exception.
    apply safe_bind_lift; [apply iterator_new_defined; assumption|].
    intros; apply safe_new_object.
  - apply safe_delete; exact Htyped.
  - unfold iterator_has_next. with_handle Htyped. apply safe_ret.
  - unfold iterator_next. with_handle Htyped.
    apply safe_bind_lift; [|intros; discriminate].
    apply next_defined. eapply consistent_iterator; eassumption.
  - unfold iterator_reset. with_handle Htyped. apply safe_store.
  - unfold iterator_find. with_handle Htyped. discriminate.
  - (* safe_vector_get *)
    match goal with |- safe (safe_vector_get _ _ ?r) _ => rename r into res end.
    unfold safe_vector_get.
    destruct Htyped as [[-> | (o & v & Hlive & Has)] [-> | (oc & z & Hcell & Hz)]];
      try (destruct (is_null handle); discriminate); try discriminate.
    destruct (is_null handle); [discriminate|].
    destruct (is_null res); [discriminate|].
    apply safe_try_catch; [|repeat constructor; intros e; eexists; reflexivity].
    eapply safe_bind_deref; [exact Hlive | exact Has |].
    apply safe_bind_lift; [apply at_defined|]. intros x _.
    unfold write_int.
    change (safe (bind (bind (deref as_int res) (fun _ => store res (an_int x)))
                       (fun _ => ret CPP_SUCCESS)) s).
    unfold safe, bind. rewrite (deref_live as_int res s oc z Hcell Hz). discriminate.
  - (* safe_matrix_multiply *)
    match goal with |- safe (safe_matrix_multiply _ _ ?r) _ => rename r into res end.
    unfold safe_matrix_multiply.
    destruct Htyped as ([-> | (oa & ma & Ha & Hma)] & [-> | (ob & mb & Hb & Hmb)]
                        & [-> | (oc & z & Hcell & Hz)]);
      try (destruct (is_null a); discriminate);
      try (destruct (is_null a), (is_null b); discriminate); try discriminate.
    destruct (orb (is_null a) (is_null b)); [discriminate|].
    destruct (is_null res); [discriminate|].
    apply safe_try_catch; [|repeat constructor; intros e; eexists; reflexivity].
    eapply safe_bind_deref; [exact Ha | exact Hma |].
    eapply safe_bind_deref; [exact Hb | exact Hmb |].
    apply safe_bind_lift;
      [apply multiply_defined;
         [exact (consistent_matrix s a oa ma Hs Ha Hma)
         | exact (consistent_matrix s b ob mb Hs Hb Hmb)]|].
    intros p _. apply safe_bind_new_object. intros hp Hfree.
    unfold write_handle, safe, bind.
    erewrite deref_live; [discriminate | | exact Hz].
    apply heap_after_new; assumption.
  - discriminate.
Qed.
End Safety.

Create HintDb consistency.

Section Preservation.
Context `{Toolchain}.

Lemma stays_ret {A} (a : A) : stays_consistent (ret a).
Proof. intros s Hs. exact Hs. Qed.

Lemma stays_bind {A B} (m : M A) (k : A -> M B) :
  stays_consistent m -> (forall a, stays_consistent (k a)) ->
  stays_consistent (bind m k).
Proof.
  intros Hm Hk s Hs. unfold bind. specialize (Hm s Hs).
  destruct (m s) as [a s1 | e s1 |]; [apply Hk; exact Hm | exact Hm | exact I].
Qed.

Lemma stays_lift_bind {A B} (r : result A) (k : A -> M B) :
  (forall a, r = Ok a -> stays_consistent (k a)) ->
  stays_consistent (bind (lift r) k).
Proof.
  intros Hk s Hs. unfold bind, lift.
  destruct r as [a | e |]; [apply (Hk a eq_refl); exact Hs | exact Hs | exact I].
Qed.

(** What follows the reading of an object may rely on its invariant. *)
Lemma stays_deref_bind {T B} (as_T : object -> option T) h (k : T -> M B) :
  (forall o x, as_T o = Some x -> object_ok o -> stays_consistent (k x)) ->
  stays_consistent (bind (deref as_T h) k).
Proof.
  intros Hk s Hs. unfold bind, deref.
  destruct (heap s !! h) as [o|] eqn:Hh; [|exact I].
  destruct (as_T o) as [x|] eqn:Ho; [|exact I].
  apply (Hk o x Ho (Hs h o Hh)). exact Hs.
Qed.

Lemma stays_lift {A} (r : result A) : stays_consistent (lift r).
Proof. intros s Hs. destruct r; simpl; auto. Qed.

Lemma stays_deref {T} (as_T : object -> option T) h : stays_consistent (deref as_T h).
Proof.
  intros s Hs. unfold deref. destruct (heap s !! h) as [o|]; [|exact I].
  destruct (as_T o); simpl; auto.
Qed.

Lemma stays_store h o : object_ok o -> stays_consistent (store h o).
Proof.
  intros Ho s Hs. simpl. intros h' o'. simpl.
  rewrite lookup_insert. case_decide as Heq.
  - intros [= <-]. exact Ho.
  - apply Hs.
Qed.

Lemma stays_new_object o : object_ok o -> stays_consistent (new_object o).
Proof.
  intros Ho s Hs. simpl. intros h' o'. simpl.
  rewrite lookup_insert. case_decide as Heq.
  - intros [= <-]. exact Ho.
  - apply Hs.
Qed.

Lemma stays_delete {T} (as_T : object -> option T) h : stays_consistent (delete as_T h).
Proof.
  unfold delete. destruct (is_null h); [apply stays_ret|].
  apply stays_bind; [apply stays_deref|]. intros _ s Hs. simpl.
  intros h' o'. simpl. rewrite lookup_delete. case_decide; [discriminate | apply Hs].
Qed.

Lemma stays_print items : stays_consistent (print items).
Proof. intros s Hs. exact Hs. Qed.

Lemma stays_read_last_error : stays_consistent read_last_error.
Proof. intros s Hs. exact Hs. Qed.

Lemma stays_set_last_error e : stays_consistent (set_last_error e).
Proof. intros s Hs. exact Hs. Qed.

Lemma stays_if {A} (b : bool) (m1 m2 : M A) :
  stays_consistent m1 -> stays_consistent m2 ->
  stays_consistent (if b then m1 else m2).
Proof. destruct b; auto. Qed.

Lemma stays_try_catch {A} (body : M A) handlers :
  stays_consistent body ->
  Forall (fun h => forall e, stays_consistent (snd h e)) handlers ->
  stays_consistent (try_catch body handlers).
Proof.
  intros Hbody Hhandlers s Hs. unfold try_catch. specialize (Hbody s Hs).
  destruct (body s) as [a s1 | e s1 |]; [exact Hbody | | exact I].
  destruct (List.find (fun h => catches (fst h) e) handlers) as [h|] eqn:Hfind;
    [|exact Hbody].
  apply find_some in Hfind as [Hh _]. apply list_elem_of_In in Hh.
  rewrite Forall_forall in Hhandlers. apply (Hhandlers h Hh e). exact Hbody.
Qed.

Lemma stays_on_exception {A} (body : M A) (a : A) :
  stays_consistent body -> stays_consistent (try_catch body (on_exception a)).
Proof.
  intros Hbody. apply stays_try_catch; [exact Hbody|].
  repeat constructor. intros e. simpl.
  apply stays_bind; [apply stays_set_last_error | intros; apply stays_ret].
Qed.

Lemma stays_write_int r x : stays_consistent (write_int r x).
Proof.
  unfold write_int. apply stays_bind; [apply stays_deref|].
  intros _. apply stays_store. exact I.
Qed.

Lemma stays_write_handle r x : stays_consistent (write_handle r x).
Proof.
  unfold write_handle. apply stays_bind; [apply stays_deref|].
  intros _. apply stays_store. exact I.
Qed.

Lemma stays_returning {A} (wrap : A -> value) (m : M A) :
  stays_consistent m -> stays_consistent (returning wrap m).
Proof.
  intros Hm. unfold returning. apply stays_bind; [exact Hm|].
  intros a. apply stays_ret.
Qed.

Lemma resource_new_result size r :
  is_int size -> SmartResource.new size = Ok r -> resource_ok r.
Proof.
  intros [Hlo Hhi] Hnew. destruct (Z.neg_nonneg_cases size) as [Hneg | Hpos].
  - rewrite resource_new_negative in Hnew by lia. discriminate Hnew.
  - rewrite resource_new_ok in Hnew by lia. injection Hnew as <-.
    split; simpl; [lia|]. rewrite length_replicate. lia.
Qed.

#[local] Hint Resolve stays_ret stays_bind stays_lift stays_deref stays_delete
  stays_print stays_read_last_error stays_set_last_error stays_if
  stays_on_exception stays_write_int stays_write_handle stays_returning
  : consistency.
#[local] Hint Extern 1 (stays_consistent (store _ _)) =>
  apply stays_store; exact I : consistency.
#[local] Hint Extern 1 (stays_consistent (new_object _)) =>
  apply stays_new_object; exact I : consistency.

(** Every boundary function keeps the process consistent. *)
Lemma run_stays_consistent (c : call) (s : State) :
  well_typed c s -> stays_consistent (run c).
Proof.
  intros Htyped.
  destruct c; simpl in Htyped |- *; apply stays_returning;
    first
      [ solve [ unfold vector_create, vector_destroy, vector_add, vector_get,
          vector_size, vector_clear, vector_sum, vector_sort, string_create,
          string_destroy, string_get_cstr, string_length_cpp, string_reverse,
          string_to_upper, string_to_lower, calculate_mean_double,
          calculate_mean_float, calculate_variance, calculate_standard_deviation,
          matrix_destroy, matrix_get, matrix_rows, matrix_cols, matrix_print,
          smart_resource_get, smart_resource_size,
          function_create_add, function_create_multiply,
          function_create_power, function_destroy, function_call,
          iterator_destroy, iterator_has_next, get_last_error_message;
          auto 12 with consistency ]
      | idtac ].
  - unfold string_append. destruct (is_null handle), text; auto 12 with consistency.
  - unfold string_prepend. destruct (is_null handle), text; auto 12 with consistency.
  - destruct Htyped as [Hrows Hcols]. unfold matrix_create.
    apply stays_on_exception. apply stays_lift_bind. intros m Hnew.
    apply stays_new_object. exact (new_well_formed rows cols m Hrows Hcols Hnew).
  - unfold matrix_set. apply stays_if; [apply stays_ret|].
    apply stays_on_exception. apply stays_deref_bind. intros o m Ho Hm.
    destruct o; try discriminate Ho. injection Ho as ->.
    apply stays_lift_bind. intros m' Hset. apply stays_store.
    exact (set_well_formed m row col x m' Hm Hset).
  - unfold matrix_multiply. apply stays_if; [apply stays_ret|].
    apply stays_on_exception. apply stays_deref_bind. intros oa ma Hoa Hma.
    destruct oa; try discriminate Hoa. injection Hoa as ->.
    apply stays_deref_bind. intros ob mb Hob Hmb.
    destruct ob; try discriminate Hob. injection Hob as ->.
    apply stays_lift_bind. intros p Hp. apply stays_new_object.
    exact (multiply_well_formed ma mb p Hma Hmb Hp).
  - unfold matrix_transpose. apply stays_if; [apply stays_ret|].
    apply stays_on_exception. apply stays_deref_bind. intros o m Ho Hm.
    destruct o; try discriminate Ho. injection Ho as ->.
    apply stays_lift_bind. intros p Hp. apply stays_new_object.
    exact (transpose_well_formed m p Hm Hp).
  - unfold smart_resource_create. apply stays_on_exception.
    apply stays_lift_bind. intros r Hnew. apply stays_new_object.
    exact (resource_new_result size r Htyped Hnew).
  - unfold smart_resource_use. apply stays_if; [apply stays_ret|].
    apply stays_deref_bind. intros o r Ho Hr.
    destruct o; try discriminate Ho. injection Ho as ->.
    apply stays_lift_bind. intros r' Hset. apply stays_store.
    exact (proj1 (resource_set_ok r index x r' Hr Hset)).
  - unfold iterator_create. apply stays_on_exception.
    apply stays_lift_bind. intros it Hnew. apply stays_new_object.
    exact (iterator_new_ok a size it Hnew).
  - unfold iterator_next. apply stays_if; [apply stays_ret|].
    apply stays_deref_bind. intros o it Ho Hit.
    destruct o; try discriminate Ho. injection Ho as ->.
    apply stays_lift_bind. intros r Hnext.
    apply stays_bind; [|intros; apply stays_ret].
    apply stays_store. exact (next_ok it r Hit Hnext).
  - unfold iterator_reset. apply stays_if; [apply stays_ret|].
    apply stays_deref_bind. intros o it Ho Hit.
    apply stays_store. apply reset_ok.
  - unfold iterator_find. apply stays_if; [apply stays_ret|].
    apply stays_deref_bind. intros o it Ho Hit.
    destruct o; try discriminate Ho. injection Ho as ->.
    apply stays_bind; [|intros; apply stays_ret].
    apply stays_store. apply find_ok. exact Hit.
  - unfold safe_vector_get. repeat apply stays_if; auto with consistency.
    apply stays_try_catch; [auto 12 with consistency|].
    repeat constructor; intros e; simpl; auto with consistency.
  - unfold safe_matrix_multiply. repeat apply stays_if; auto with consistency.
    apply stays_try_catch.
    + apply stays_deref_bind. intros oa ma Hoa Hma.
      destruct oa; try discriminate Hoa. injection Hoa as ->.
      apply stays_deref_bind. intros ob mb Hob Hmb.
      destruct ob; try discriminate Hob. injection Hob as ->.
      apply stays_lift_bind. intros p Hp.
      apply stays_bind; [|auto with consistency].
      apply stays_new_object. exact (multiply_well_formed ma mb p Hma Hmb Hp).
    + repeat constructor; intros e; simpl; auto with consistency.
Qed.


Lemma initial_consistent : consistent initial.
Proof. intros h o Hlookup. simpl in Hlookup. rewrite lookup_empty in Hlookup. discriminate. Qed.
End Preservation.

(** ** The frame of a call on the heap *)

Create HintDb framing.

Section Framing.
Context `{Toolchain}.

Lemma alone_ret {A} hs (a : A) : leaves_alone hs (ret a).
Proof. intros s h o _ Ho. exact Ho. Qed.

Lemma alone_bind {A B} hs (m : M A) (k : A -> M B) :
  leaves_alone hs m -> (forall a, leaves_alone hs (k a)) -> leaves_alone hs (bind m k).
Proof.
  intros Hm Hk s. unfold bind. specialize (Hm s).
  destruct (m s) as [a s1 | e s1 |]; [|exact Hm|exact I].
  specialize (Hk a s1). destruct (k a s1) as [b s2 | e s2 |]; [| |exact I];
    intros h o Hh Ho; apply Hk; auto.
Qed.

Lemma alone_lift {A} hs (r : result A) : leaves_alone hs (lift r).
Proof. intros s. destruct r; simpl; auto. Qed.

Lemma alone_deref {T} hs (as_T : object -> option T) h : leaves_alone hs (deref as_T h).
Proof.
  intros s. unfold deref. destruct (heap s !! h) as [o|]; [|exact I].
  destruct (as_T o); simpl; auto.
Qed.

Lemma alone_store hs h o : h ∈ hs -> leaves_alone hs (store h o).
Proof.
  intros Hin s h' o' Hout Ho'. simpl.
  rewrite lookup_insert_ne; [exact Ho' | intros ->; contradiction].
Qed.

Lemma alone_new_object hs o : leaves_alone hs (new_object o).
Proof.
  intros s. destruct (new_object_fresh o s) as (a & -> & _ & Hfree).
  intros h' o' _ Ho'. simpl.
  rewrite lookup_insert_ne; [exact Ho' | intros ->; congruence].
Qed.

Lemma alone_delete {T} hs (as_T : object -> option T) h :
  h ∈ hs -> leaves_alone hs (delete as_T h).
Proof.
  intros Hin. unfold delete. destruct (is_null h); [apply alone_ret|].
  apply alone_bind; [apply alone_deref|]. intros _ s h' o' Hout Ho'. simpl.
  rewrite lookup_delete_ne; [exact Ho' | intros ->; contradiction].
Qed.

Lemma alone_print hs items : leaves_alone hs (print items).
Proof. intros s h o _ Ho. exact Ho. Qed.

Lemma alone_read_last_error hs : leaves_alone hs read_last_error.
Proof. intros s h o _ Ho. exact Ho. Qed.

Lemma alone_set_last_error hs e : leaves_alone hs (set_last_error e).
Proof. intros s h o _ Ho. exact Ho. Qed.

Lemma alone_if {A} hs (b : bool) (m1 m2 : M A) :
  leaves_alone hs m1 -> leaves_alone hs m2 -> leaves_alone hs (if b then m1 else m2).
Proof. destruct b; auto. Qed.

Lemma alone_try_catch {A} hs (body : M A) handlers :
  leaves_alone hs body ->
  Forall (fun h => forall e, leaves_alone hs (snd h e)) handlers ->
  leaves_alone hs (try_catch body handlers).
Proof.
  intros Hbody Hhandlers s. unfold try_catch. specialize (Hbody s).
  destruct (body s) as [a s1 | e s1 |]; [exact Hbody | | exact I].
  destruct (List.find (fun h => catches (fst h) e) handlers) as [h|] eqn:Hfind;
    [|exact Hbody].
  apply find_some in Hfind as [Hh _]. apply list_elem_of_In in Hh.
  rewrite Forall_forall in Hhandlers.
  pose proof (Hhandlers h Hh e (with_fault s1 e)) as Hhandler.
  destruct (snd h e (with_fault s1 e)) as [a s2 | e2 s2 |]; [| |exact I];
    intros h' o' Hout Ho'; apply Hhandler; auto.
Qed.

Lemma alone_on_exception {A} hs (body : M A) (a : A) :
  leaves_alone hs body -> leaves_alone hs (try_catch body (on_exception a)).
Proof.
  intros Hbody. apply alone_try_catch; [exact Hbody|].
  repeat constructor. intros e. simpl.
  apply alone_bind; [apply alone_set_last_error | intros; apply alone_ret].
Qed.

Lemma alone_write_int hs r x : r ∈ hs -> leaves_alone hs (write_int r x).
Proof.
  intros Hin. unfold write_int. apply alone_bind; [apply alone_deref|].
  intros _. apply alone_store. exact Hin.
Qed.

Lemma alone_write_handle hs r x : r ∈ hs -> leaves_alone hs (write_handle r x).
Proof.
  intros Hin. unfold write_handle. apply alone_bind; [apply alone_deref|].
  intros _. apply alone_store. exact Hin.
Qed.

Lemma alone_returning {A} hs (wrap : A -> value) (m : M A) :
  leaves_alone hs m -> leaves_alone hs (returning wrap m).
Proof.
  intros Hm. unfold returning. apply alone_bind; [exact Hm|].
  intros a. apply alone_ret.
Qed.

#[local] Hint Resolve alone_ret alone_bind alone_lift alone_deref alone_new_object
  alone_print alone_read_last_error alone_set_last_error alone_if
  alone_on_exception alone_returning : framing.
#[local] Hint Extern 1 (leaves_alone _ (store _ _)) =>
  apply alone_store; set_solver : framing.
#[local] Hint Extern 1 (leaves_alone _ (delete _ _)) =>
  apply alone_delete; set_solver : framing.
#[local] Hint Extern 1 (leaves_alone _ (write_int _ _)) =>
  apply alone_write_int; set_solver : framing.
#[local] Hint Extern 1 (leaves_alone _ (write_handle _ _)) =>
  apply alone_write_handle; set_solver : framing.

Lemma run_leaves_alone (c : call) : leaves_alone (pointers_of c) (run c).
Proof.
  destruct c; simpl; apply alone_returning;
    first
      [ solve [ unfold vector_create, vector_destroy, vector_add, vector_get,
          vector_size, vector_clear, vector_sum, vector_sort, string_create,
          string_destroy, string_get_cstr, string_length_cpp, string_reverse,
          string_to_upper, string_to_lower, calculate_mean_double,
          calculate_mean_float, calculate_variance, calculate_standard_deviation,
          matrix_create, matrix_destroy, matrix_set, matrix_get, matrix_rows,
          matrix_cols, matrix_multiply, matrix_transpose, matrix_print,
          smart_resource_create, smart_resource_use, smart_resource_get,
          smart_resource_size, function_create_add, function_create_multiply,
          function_create_power, function_destroy, function_call,
          iterator_create, iterator_destroy, iterator_has_next, iterator_next,
          iterator_reset, iterator_find, get_last_error_message;
          auto 12 with framing ]
      | idtac ].
  - unfold string_append. destruct (is_null handle), text; auto 12 with framing.
  - unfold string_prepend. destruct (is_null handle), text; auto 12 with framing.
  - unfold safe_vector_get. repeat apply alone_if; auto with framing.
    apply alone_try_catch; [auto 12 with framing|].
    repeat constructor; intros e; simpl; auto with framing.
  - unfold safe_matrix_multiply. repeat apply alone_if; auto with framing.
    apply alone_try_catch; [auto 12 with framing|].
    repeat constructor; intros e; simpl; auto with framing.
Qed.

(** X28: a call that returns leaves every object alone that none of its
    handles and out-parameters points to. *)
Theorem call_leaves_other_objects_alone
    (c : call) (s s' : State) (v : value) (h : Handle) (o : object) :
  run c s = Returns v s' ->
  h ∉ pointers_of c ->
  heap s !! h = Some o ->
  heap s' !! h = Some o.
Proof.
  intros Hrun Hout Ho. pose proof (run_leaves_alone c s) as Hframe.
  rewrite Hrun in Hframe. exact (Hframe h o Hout Ho).
Qed.
End Framing.

(** ** Buffers are never released *)

Create HintDb leak.

Section Leak.
Context `{Toolchain}.
Variables (h : Handle) (n : Z).

Lemma kept_ret {A} (a : A) : keeps_resource h n (ret a).
Proof. intros s Hs. exact Hs. Qed.

Lemma kept_bind {A B} (m : M A) (k : A -> M B) :
  keeps_resource h n m -> (forall a, keeps_resource h n (k a)) ->
  keeps_resource h n (bind m k).
Proof.
  intros Hm Hk s Hs. unfold bind. specialize (Hm s Hs).
  destruct (m s) as [a s1 | e s1 |]; [apply Hk; exact Hm | exact Hm | exact I].
Qed.

Lemma kept_lift {A} (r : result A) : keeps_resource h n (lift r).
Proof. intros s Hs. destruct r; simpl; auto. Qed.

(** Reading [h'] as something other than a buffer is undefined when
    [h'] is [h]; what follows may rely on the two being different. *)
Lemma kept_deref_bind {T B} (as_T : object -> option T) h' (k : T -> M B) :
  (forall r, as_T (a_resource r) = None) ->
  (h' <> h -> forall x, keeps_resource h n (k x)) ->
  keeps_resource h n (bind (deref as_T h') k).
Proof.
  intros Hkind Hk s Hs. unfold bind, deref.
  destruct (decide (h' = h)) as [-> | Hne].
  - destruct Hs as (r & -> & _). rewrite Hkind. exact I.
  - destruct (heap s !! h') as [o|]; [|exact I].
    destruct (as_T o) as [x|]; [|exact I]. apply (Hk Hne x). exact Hs.
Qed.

Lemma kept_store h' o : h' <> h -> keeps_resource h n (store h' o).
Proof.
  intros Hne s (r & Hr & Hsize). exists r. split; [|exact Hsize].
  simpl. rewrite lookup_insert_ne by exact Hne. exact Hr.
Qed.

Lemma kept_new_object o : keeps_resource h n (new_object o).
Proof.
  intros s (r & Hr & Hsize). destruct (new_object_fresh o s) as (a & -> & _ & Hfree).
  exists r. split; [|exact Hsize]. apply heap_after_new; assumption.
Qed.

Lemma kept_delete {T} (as_T : object -> option T) h' :
  (forall r, as_T (a_resource r) = None) ->
  keeps_resource h n (delete as_T h').
Proof.
  intros Hkind. unfold delete. destruct (is_null h'); [apply kept_ret|].
  apply kept_deref_bind; [exact Hkind|]. intros Hne _ s (r & Hr & Hsize).
  exists r. split; [|exact Hsize]. simpl. rewrite lookup_delete_ne by exact Hne.
  exact Hr.
Qed.

Lemma kept_print items : keeps_resource h n (print items).
Proof. intros s Hs. exact Hs. Qed.

Lemma kept_read_last_error : keeps_resource h n read_last_error.
Proof. intros s Hs. exact Hs. Qed.

Lemma kept_set_last_error e : keeps_resource h n (set_last_error e).
Proof. intros s Hs. exact Hs. Qed.

Lemma kept_if {A} (b : bool) (m1 m2 : M A) :
  keeps_resource h n m1 -> keeps_resource h n m2 ->
  keeps_resource h n (if b then m1 else m2).
Proof. destruct b; auto. Qed.

Lemma kept_try_catch {A} (body : M A) handlers :
  keeps_resource h n body ->
  Forall (fun c => forall e, keeps_resource h n (snd c e)) handlers ->
  keeps_resource h n (try_catch body handlers).
Proof.
  intros Hbody Hhandlers s Hs. unfold try_catch. specialize (Hbody s Hs).
  destruct (body s) as [a s1 | e s1 |]; [exact Hbody | | exact I].
  destruct (List.find (fun c => catches (fst c) e) handlers) as [c|] eqn:Hfind;
    [|exact Hbody].
  apply find_some in Hfind as [Hc _]. apply list_elem_of_In in Hc.
  rewrite Forall_forall in Hhandlers. apply (Hhandlers c Hc e). exact Hbody.
Qed.

Lemma kept_on_exception {A} (body : M A) (a : A) :
  keeps_resource h n body -> keeps_resource h n (try_catch body (on_exception a)).
Proof.
  intros Hbody. apply kept_try_catch; [exact Hbody|].
  repeat constructor. intros e. simpl.
  apply kept_bind; [apply kept_set_last_error | intros; apply kept_ret].
Qed.

Lemma kept_returning {A} (wrap : A -> value) (m : M A) :
  keeps_resource h n m -> keeps_resource h n (returning wrap m).
Proof.
  intros Hm. unfold returning. apply kept_bind; [exact Hm|].
  intros a. apply kept_ret.
Qed.

Lemma kept_write_int r x : keeps_resource h n (write_int r x).
Proof.
  unfold write_int. apply kept_deref_bind; [reflexivity|].
  intros Hne _. apply kept_store. exact Hne.
Qed.

Lemma kept_write_handle r x : keeps_resource h n (write_handle r x).
Proof.
  unfold write_handle. apply kept_deref_bind; [reflexivity|].
  intros Hne _. apply kept_store. exact Hne.
Qed.

Lemma set_keeps_size r index x r' :
  SmartResource.set r index x = Ok r' -> SmartResource.size r' = SmartResource.size r.
Proof.
  unfold SmartResource.set.
  destruct ((0 <=? index) && (index <? SmartResource.size_ r)).
  - destruct (Vector.index (SmartResource.data r) index); try discriminate.
    simpl. intros [= <-]. reflexivity.
  - intros [= <-]. reflexivity.
Qed.

Lemma kept_smart_resource_use h' index x :
  keeps_resource h n (smart_resource_use h' index x).
Proof.
  unfold smart_resource_use. apply kept_if; [apply kept_ret|].
  intros s (r & Hr & Hsize). unfold bind, deref.
  destruct (heap s !! h') as [o|] eqn:Ho; [|exact I].
  destruct (as_resource o) as [r0|] eqn:Hkind; [|exact I].
  destruct (SmartResource.set r0 index x) as [r' | e |] eqn:Hset; simpl;
    [| exists r; auto | exact I].
  destruct (decide (h' = h)) as [-> | Hne].
  - exists r'. split; [apply lookup_insert_eq|].
    rewrite (set_keeps_size _ _ _ _ Hset).
    destruct o; try discriminate Hkind. injection Hkind as ->. congruence.
  - exists r. split; [|exact Hsize]. rewrite <- Hr. apply lookup_insert_ne. exact Hne.
Qed.

Lemma kept_plain_deref_bind {T B} (as_T : object -> option T) h' (k : T -> M B) :
  (forall x, keeps_resource h n (k x)) ->
  keeps_resource h n (bind (deref as_T h') k).
Proof.
  intros Hk s Hs. unfold bind, deref.
  destruct (heap s !! h') as [o|]; [|exact I].
  destruct (as_T o) as [x|]; [|exact I]. apply Hk. exact Hs.
Qed.

#[local] Hint Resolve kept_ret kept_lift kept_new_object kept_print
  kept_read_last_error kept_set_last_error kept_if kept_on_exception
  kept_returning kept_write_int kept_write_handle kept_smart_resource_use
  : leak.
#[local] Hint Extern 2 (keeps_resource _ _ (bind (deref _ _) _)) =>
  apply kept_deref_bind; [reflexivity | intros ? ?] : leak.
#[local] Hint Extern 3 (keeps_resource _ _ (bind (deref as_resource _) _)) =>
  apply kept_plain_deref_bind; intros ? : leak.
#[local] Hint Extern 4 (keeps_resource _ _ (bind _ _)) =>
  apply kept_bind; [| intros ?] : leak.
#[local] Hint Extern 1 (keeps_resource _ _ (store _ _)) =>
  apply kept_store; assumption : leak.
#[local] Hint Extern 1 (keeps_resource _ _ (delete _ _)) =>
  apply kept_delete; reflexivity : leak.

Lemma run_keeps_resource (c : call) : keeps_resource h n (run c).
Proof.
  destruct c; simpl; apply kept_returning;
    first
      [ solve [ unfold vector_create, vector_destroy, vector_add, vector_get,
          vector_size, vector_clear, vector_sum, vector_sort, string_create,
          string_destroy, string_get_cstr, string_length_cpp, string_reverse,
          string_to_upper, string_to_lower, calculate_mean_double,
          calculate_mean_float, calculate_variance, calculate_standard_deviation,
          matrix_create, matrix_destroy, matrix_set, matrix_get, matrix_rows,
          matrix_cols, matrix_multiply, matrix_transpose, matrix_print,
          smart_resource_create, smart_resource_get,
          smart_resource_size, function_create_add, function_create_multiply,
          function_create_power, function_destroy, function_call,
          iterator_create, iterator_destroy, iterator_has_next, iterator_next,
          iterator_reset, iterator_find, get_last_error_message;
          auto 14 with leak ]
      | idtac ].
  - unfold string_append. destruct (is_null handle), text; auto 12 with leak.
  - unfold string_prepend. destruct (is_null handle), text; auto 12 with leak.
  - unfold safe_vector_get. repeat apply kept_if; auto with leak.
    apply kept_try_catch; [auto 14 with leak|].
    repeat constructor; intros e; simpl; auto 6 with leak.
  - unfold safe_matrix_multiply. repeat apply kept_if; auto with leak.
    apply kept_try_catch; [auto 14 with leak|].
    repeat constructor; intros e; simpl; auto 6 with leak.
Qed.
End Leak.

Section LeakTheorem.
Context `{Toolchain}.

(** X17: there is no function that destroys a [SmartResource]: after any
    call that returns, a buffer that was live is still live at its
    address, with the size it had. *)
Theorem smart_resource_is_never_released
    (c : call) (s s' : State) (v : value) (h : Handle) (r : SmartResource.t) :
  run c s = Returns v s' ->
  heap s !! h = Some (a_resource r) ->
  exists r', heap s' !! h = Some (a_resource r')
             /\ SmartResource.size r' = SmartResource.size r.
Proof.
  intros Hrun Hlive.
  pose proof (run_keeps_resource h (SmartResource.size r) c s) as Hkept.
  rewrite Hrun in Hkept. apply Hkept. exists r. auto.
Qed.
End LeakTheorem.

(** ** Strings *)

Lemma string_app_cons (c : ascii) (s1 s2 : string) :
  (String c s1 +:+ s2)%string = String c (s1 +:+ s2).
Proof. reflexivity. Qed.

Lemma string_app_empty_r (s : string) : (s +:+ "")%string = s.
Proof.
  induction s as [|c s IH]; [reflexivity|].
  rewrite string_app_cons, IH. reflexivity.
Qed.

Lemma string_app_assoc (s1 s2 s3 : string) :
  (s1 +:+ (s2 +:+ s3) = (s1 +:+ s2) +:+ s3)%string.
Proof.
  induction s1 as [|c s1 IH]; [reflexivity|].
  rewrite !string_app_cons, IH. reflexivity.
Qed.

Lemma rev_app_rev_app (s1 s2 s3 : string) :
  String.rev_app (String.rev_app s1 s2) s3 = String.rev_app s2 (s1 +:+ s3).
Proof.
  revert s2 s3. induction s1 as [|c s1 IH]; intros s2 s3; [reflexivity|].
  simpl. rewrite IH. reflexivity.
Qed.

Lemma rev_involutive (s : string) : String.rev (String.rev s) = s.
Proof.
  unfold String.rev. rewrite rev_app_rev_app. apply string_app_empty_r.
Qed.

Lemma rev_app_length (s1 s2 : string) :
  String.length (String.rev_app s1 s2) = (String.length s1 + String.length s2)%nat.
Proof.
  revert s2. induction s1 as [|c s1 IH]; intros s2; simpl; [reflexivity|].
  rewrite IH. simpl. lia.
Qed.

Lemma rev_length (s : string) : String.length (String.rev s) = String.length s.
Proof. unfold String.rev. rewrite rev_app_length. simpl. lia. Qed.

Lemma transform_length f (s : string) :
  String.length (StringWrapper.transform f s) = String.length s.
Proof. induction s as [|c s IH]; simpl; [reflexivity | rewrite IH; reflexivity]. Qed.

Lemma transform_transform f g (s : string) :
  StringWrapper.transform f (StringWrapper.transform g s)
  = StringWrapper.transform (fun c => f (g c)) s.
Proof. induction s as [|c s IH]; simpl; [reflexivity | rewrite IH; reflexivity]. Qed.

Lemma transform_ext f g (s : string) :
  (forall c, f c = g c) -> StringWrapper.transform f s = StringWrapper.transform g s.
Proof.
  intros Hfg. induction s as [|c s IH]; simpl; [reflexivity|].
  rewrite Hfg, IH. reflexivity.
Qed.

Lemma tolower_toupper (c : ascii) :
  StringWrapper.tolower (StringWrapper.toupper c) = StringWrapper.tolower c.
Proof. destruct c as [[] [] [] [] [] [] [] []]; reflexivity. Qed.

Lemma toupper_tolower (c : ascii) :
  StringWrapper.toupper (StringWrapper.tolower c) = StringWrapper.toupper c.
Proof. destruct c as [[] [] [] [] [] [] [] []]; reflexivity. Qed.

Lemma toupper_toupper (c : ascii) :
  StringWrapper.toupper (StringWrapper.toupper c) = StringWrapper.toupper c.
Proof. destruct c as [[] [] [] [] [] [] [] []]; reflexivity. Qed.

Section StringProps.
Context `{Toolchain}.

Lemma string_live_cstr s h w :
  is_null h = false -> heap s !! h = Some (a_string w) ->
  string_get_cstr h s = Returns (StringWrapper.data w) s.
Proof.
  intros Hnull Hlive. unfold string_get_cstr. rewrite Hnull. unfold bind.
  erewrite deref_live; [|exact Hlive|reflexivity]. reflexivity.
Qed.

Lemma string_live_length s h w :
  is_null h = false -> heap s !! h = Some (a_string w) ->
  string_length_cpp h s = Returns (StringWrapper.length w) s.
Proof.
  intros Hnull Hlive. unfold string_length_cpp. rewrite Hnull. unfold bind.
  erewrite deref_live; [|exact Hlive|reflexivity]. reflexivity.
Qed.

(** What an in-place string operation [f] does to a live string. *)
Lemma string_update_live (op : Handle -> M unit) (f : StringWrapper.t -> StringWrapper.t)
    s h w :
  (forall s0, op h s0 = (if is_null h then ret tt
                         else w0 <- deref as_string h ;; store h (a_string (f w0))) s0) ->
  is_null h = false -> heap s !! h = Some (a_string w) ->
  op h s = Returns tt (with_heap s (<[h := a_string (f w)]> (heap s))).
Proof.
  intros Hop Hnull Hlive. rewrite Hop, Hnull. unfold bind.
  erewrite deref_live; [|exact Hlive|reflexivity]. reflexivity.
Qed.

Lemma store_twice s h o1 o2 :
  with_heap (with_heap s (<[h := o1]> (heap s)))
    (<[h := o2]> (heap (with_heap s (<[h := o1]> (heap s)))))
  = with_heap s (<[h := o2]> (heap s)).
Proof. unfold with_heap. simpl. rewrite insert_insert_eq. reflexivity. Qed.

Lemma store_back s h o :
  heap s !! h = Some o -> with_heap s (<[h := o]> (heap s)) = s.
Proof. intros Hlive. rewrite insert_id by exact Hlive. apply with_heap_same. Qed.

(** X7: [string_reverse] keeps the length of a live string, and a
    second [string_reverse] restores the state of before the first. *)
Theorem string_reverse_twice (s : State) (h : Handle) (w : StringWrapper.t) :
  h <> nullptr ->
  heap s !! h = Some (a_string w) ->
  exists s1,
    string_reverse h s = Returns tt s1
    /\ string_get_cstr h s1 = Returns (String.rev (StringWrapper.data w)) s1
    /\ string_length_cpp h s1 = Returns (StringWrapper.length w) s1
    /\ string_reverse h s1 = Returns tt s.
Proof.
  intros Hnull Hlive. apply is_null_false in Hnull.
  set (w1 := StringWrapper.reverse w).
  exists (with_heap s (<[h := a_string w1]> (heap s))).
  assert (Hlive1 : heap (with_heap s (<[h := a_string w1]> (heap s))) !! h
                   = Some (a_string w1)) by apply heap_after_store.
  split; [apply (string_update_live string_reverse StringWrapper.reverse);
          [reflexivity | assumption | assumption]|].
  split; [apply (string_live_cstr _ h w1 Hnull Hlive1)|].
  split.
  { rewrite (string_live_length _ h w1 Hnull Hlive1). f_equal.
    unfold StringWrapper.length, w1. simpl. rewrite rev_length. reflexivity. }
  rewrite (string_update_live string_reverse StringWrapper.reverse _ h w1);
    [|reflexivity | assumption | assumption].
  f_equal. rewrite store_twice. unfold w1, StringWrapper.reverse. simpl.
  rewrite rev_involutive. destruct w as [d]. simpl. apply store_back. exact Hlive.
Qed.

(** X8: [string_to_upper] and [string_to_lower] keep the length of a
    live string; converting twice to upper case is converting once, and
    of two conversions in a row only the later one shows. *)
Theorem string_case_conversion (s : State) (h : Handle) (w : StringWrapper.t) :
  h <> nullptr ->
  heap s !! h = Some (a_string w) ->
  exists upper lower,
    string_to_upper h s = Returns tt upper
    /\ string_to_lower h s = Returns tt lower
    /\ string_length_cpp h upper = Returns (StringWrapper.length w) upper
    /\ string_length_cpp h lower = Returns (StringWrapper.length w) lower
    /\ string_to_upper h upper = Returns tt upper
    /\ string_to_lower h upper = Returns tt lower
    /\ string_to_upper h lower = Returns tt upper.
Proof.
  intros Hnull Hlive. apply is_null_false in Hnull.
  set (wu := StringWrapper.to_upper w). set (wl := StringWrapper.to_lower w).
  exists (with_heap s (<[h := a_string wu]> (heap s))),
         (with_heap s (<[h := a_string wl]> (heap s))).
  assert (Hu : heap (with_heap s (<[h := a_string wu]> (heap s))) !! h
               = Some (a_string wu)) by apply heap_after_store.
  assert (Hl : heap (with_heap s (<[h := a_string wl]> (heap s))) !! h
               = Some (a_string wl)) by apply heap_after_store.
  split; [apply (string_update_live string_to_upper StringWrapper.to_upper);
          [reflexivity | assumption | assumption]|].
  split; [apply (string_update_live string_to_lower StringWrapper.to_lower);
          [reflexivity | assumption | assumption]|].
  split.
  { rewrite (string_live_length _ h wu Hnull Hu). f_equal.
    unfold StringWrapper.length, wu. simpl. rewrite transform_length. reflexivity. }
  split.
  { rewrite (string_live_length _ h wl Hnull Hl). f_equal.
    unfold StringWrapper.length, wl. simpl. rewrite transform_length. reflexivity. }
  split.
  { rewrite (string_update_live string_to_upper StringWrapper.to_upper _ h wu);
      [|reflexivity | assumption | assumption].
    f_equal. rewrite store_twice. unfold wu, StringWrapper.to_upper. simpl.
    rewrite transform_transform.
    rewrite (transform_ext _ StringWrapper.toupper _ toupper_toupper). reflexivity. }
  split.
  { rewrite (string_update_live string_to_lower StringWrapper.to_lower _ h wu);
      [|reflexivity | assumption | assumption].
    f_equal. rewrite store_twice. unfold wu, wl, StringWrapper.to_upper,
      StringWrapper.to_lower. simpl. rewrite transform_transform.
    rewrite (transform_ext _ StringWrapper.tolower _ tolower_toupper). reflexivity. }
  rewrite (string_update_live string_to_upper StringWrapper.to_upper _ h wl);
    [|reflexivity | assumption | assumption].
  f_equal. rewrite store_twice. unfold wu, wl, StringWrapper.to_upper,
    StringWrapper.to_lower. simpl. rewrite transform_transform.
  rewrite (transform_ext _ StringWrapper.toupper _ toupper_tolower). reflexivity.
Qed.

Lemma string_append_live s h w text :
  is_null h = false -> heap s !! h = Some (a_string w) ->
  string_append h (Some text) s
  = Returns tt (with_heap s (<[h := a_string (StringWrapper.append w text)]> (heap s))).
Proof.
  intros Hnull Hlive. unfold string_append. rewrite Hnull. unfold bind.
  erewrite deref_live; [|exact Hlive|reflexivity]. reflexivity.
Qed.

Lemma string_prepend_live s h w text :
  is_null h = false -> heap s !! h = Some (a_string w) ->
  string_prepend h (Some text) s
  = Returns tt (with_heap s (<[h := a_string (StringWrapper.prepend w text)]> (heap s))).
Proof.
  intros Hnull Hlive. unfold string_prepend. rewrite Hnull. unfold bind.
  erewrite deref_live; [|exact Hlive|reflexivity]. reflexivity.
Qed.

(** X6: [string_create] gives a non-null handle to a copy of the initial
    text, the empty string for a null pointer; [string_append] and
    [string_prepend] with a null text change nothing; with texts, the
    string becomes the prepended text, the old content and the appended
    text, in whichever order the two calls are made. *)
Theorem string_create_append_prepend (s : State) (initial : c_string) (a b : string) :
  exists h s0 s1 s2,
    string_create initial s = Returns h s0 /\ h <> nullptr
    /\ string_get_cstr h s0
       = Returns (match initial with Some text => text | None => "" end) s0
    /\ string_append h None s0 = Returns tt s0
    /\ string_prepend h None s0 = Returns tt s0
    /\ string_append h (Some a) s0 = Returns tt s1
    /\ string_prepend h (Some b) s1 = Returns tt s2
    /\ string_get_cstr h s2
       = Returns (b +:+ match initial with Some text => text | None => "" end +:+ a) s2
    /\ (exists s1', string_prepend h (Some b) s0 = Returns tt s1'
                    /\ string_append h (Some a) s1' = Returns tt s2).
Proof.
  set (text := match initial with Some text => text | None => "" end).
  destruct (new_object_fresh (a_string (StringWrapper.new text)) s)
    as (h & Hnew & Hnull & Hfree).
  set (s0 := with_heap s (<[h := a_string (StringWrapper.new text)]> (heap s))) in *.
  assert (H0 : heap s0 !! h = Some (a_string (StringWrapper.new text)))
    by apply heap_after_store.
  set (w1 := StringWrapper.append (StringWrapper.new text) a).
  set (s1 := with_heap s0 (<[h := a_string w1]> (heap s0))).
  assert (H1 : heap s1 !! h = Some (a_string w1)) by apply heap_after_store.
  set (w2 := StringWrapper.prepend w1 b).
  set (s2 := with_heap s1 (<[h := a_string w2]> (heap s1))).
  assert (H2 : heap s2 !! h = Some (a_string w2)) by apply heap_after_store.
  exists h, s0, s1, s2.
  split; [unfold string_create, try_catch; fold text; rewrite Hnew; reflexivity|].
  split; [apply is_null_false; exact Hnull|].
  split; [apply (string_live_cstr _ h _ Hnull H0)|].
  split; [unfold string_append; destruct (is_null h); reflexivity|].
  split; [unfold string_prepend; destruct (is_null h); reflexivity|].
  split; [apply (string_append_live _ h _ a Hnull H0)|].
  split; [apply (string_prepend_live _ h _ b Hnull H1)|].
  split; [apply (string_live_cstr _ h w2 Hnull H2)|].
  set (w1' := StringWrapper.prepend (StringWrapper.new text) b).
  exists (with_heap s0 (<[h := a_string w1']> (heap s0))).
  split; [apply (string_prepend_live _ h _ b Hnull H0)|].
  rewrite (string_append_live _ h w1' a Hnull) by apply heap_after_store.
  f_equal. unfold s2, s1. rewrite !store_twice. do 3 f_equal.
  unfold w2, w1, w1', StringWrapper.append, StringWrapper.prepend. simpl.
  rewrite string_app_assoc. reflexivity.
Qed.
End StringProps.

(** ** Cells of a matrix *)

Section MatrixProps.
Context `{Toolchain}.

(** X9: [matrix_set] inside a live, well-formed matrix stores the
    value: [matrix_get] reads it back at that cell, every other cell
    reads as before, the dimensions and the last-error slot are
    unchanged. *)
Theorem matrix_set_then_get
    (s : State) (h : Handle) (m : Matrix.t) (i j : Z) (x : double) :
  h <> nullptr ->
  heap s !! h = Some (a_matrix m) ->
  well_formed m = true ->
  0 <= i < Matrix.rows m -> 0 <= j < Matrix.cols m ->
  exists s',
    matrix_set h i j x s = Returns tt s'
    /\ matrix_get h i j s' = Returns x s'
    /\ (forall i' j', 0 <= i' < Matrix.rows m -> 0 <= j' < Matrix.cols m ->
          (i', j') <> (i, j) ->
          matrix_get h i' j' s' = Returns (entry m i' j') s')
    /\ matrix_rows h s' = Returns (Matrix.rows m) s'
    /\ matrix_cols h s' = Returns (Matrix.cols m) s'
    /\ last_error_message s' = last_error_message s.
Proof.
  intros Hnull Hlive Hm Hi Hj. apply is_null_false in Hnull.
  apply well_formed_shaped in Hm. unfold Matrix.rows, Matrix.cols in *.
  destruct (set_entry m _ _ i j x Hm Hi Hj) as (m' & Hset & Hm' & Hx & Hothers).
  exists (with_heap s (<[h := a_matrix m']> (heap s))).
  assert (Hlive' : heap (with_heap s (<[h := a_matrix m']> (heap s))) !! h
                   = Some (a_matrix m')) by apply heap_after_store.
  split.
  { unfold matrix_set. rewrite Hnull. unfold try_catch, bind.
    erewrite deref_live; [|exact Hlive|reflexivity]. rewrite Hset. reflexivity. }
  split.
  { rewrite (matrix_get_live _ h m' _ _ i j Hnull Hlive' Hm' Hi Hj), Hx. reflexivity. }
  split.
  { intros i' j' Hi' Hj' Hne.
    rewrite (matrix_get_live _ h m' _ _ i' j' Hnull Hlive' Hm' Hi' Hj').
    rewrite Hothers by (lia || exact Hne). reflexivity. }
  split.
  { rewrite (matrix_rows_live _ h m' Hnull Hlive'). f_equal. apply Hm'. }
  split; [|reflexivity].
  rewrite (matrix_cols_live _ h m' Hnull Hlive'). f_equal. apply Hm'.
Qed.

Lemma matrix_get_throws m row col :
  well_formed m = true -> is_int row -> is_int col ->
  ~ (0 <= row < Matrix.rows m /\ 0 <= col < Matrix.cols m) ->
  Matrix.get m row col
  = Throw (Exception out_of_range
      (if (0 <=? row) && (row <? Matrix.rows m)
       then range_check_what (to_size_t col) (Matrix.cols m)
       else range_check_what (to_size_t row) (Matrix.rows m))).
Proof.
  intros Hm Hrow Hcol Hout. apply well_formed_shaped in Hm.
  unfold Matrix.rows, Matrix.cols in *.
  pose proof Hm as (_ & _ & Hr & Hc & Hlen & Hall). unfold INT_MAX in Hr, Hc.
  unfold Matrix.get.
  destruct ((0 <=? row) && (row <? Matrix.rows_ m)) eqn:Hin.
  - assert (Hrow' : 0 <= row < Matrix.rows_ m) by lia.
    destruct (shaped_row m _ _ row Hm Hrow') as (r & Hr' & Hlenr).
    rewrite (at_in_range _ row r) by (lia || exact Hr'). simpl.
    rewrite at_out_of_range; [| exact Hcol | unfold PTRDIFF_MAX; lia | lia].
    do 3 f_equal. lia.
  - rewrite at_out_of_range; [| exact Hrow | unfold PTRDIFF_MAX; lia | lia].
    simpl. do 3 f_equal. lia.
Qed.

Lemma matrix_set_throws m row col x :
  well_formed m = true -> is_int row -> is_int col ->
  ~ (0 <= row < Matrix.rows m /\ 0 <= col < Matrix.cols m) ->
  Matrix.set m row col x
  = Throw (Exception out_of_range
      (if (0 <=? row) && (row <? Matrix.rows m)
       then range_check_what (to_size_t col) (Matrix.cols m)
       else range_check_what (to_size_t row) (Matrix.rows m))).
Proof.
  intros Hm Hrow Hcol Hout.
  pose proof (matrix_get_throws m row col Hm Hrow Hcol Hout) as Hget.
  unfold Matrix.get, Matrix.set in *.
  destruct (Vector.at_ (Matrix.data m) row) as [r | e |]; simpl in *;
    [| injection Hget as ->; reflexivity | discriminate].
  rewrite Hget. reflexivity.
Qed.

(** X10: [matrix_get] and [matrix_set] outside a live, well-formed
    matrix change no object; [matrix_get] returns [0.0]; both leave the
    text of the [std::out_of_range] in the last-error slot: for the row
    when the row is outside, for the column otherwise. *)
Theorem matrix_access_out_of_range
    (s : State) (h : Handle) (m : Matrix.t) (row col : Z) (x : double) :
  h <> nullptr ->
  heap s !! h = Some (a_matrix m) ->
  well_formed m = true ->
  is_int row -> is_int col ->
  ~ (0 <= row < Matrix.rows m /\ 0 <= col < Matrix.cols m) ->
  exists s',
    matrix_get h row col s = Returns dzero s'
    /\ matrix_set h row col x s = Returns tt s'
    /\ heap s' = heap s
    /\ last_error_message s'
       = (if (0 <=? row) && (row <? Matrix.rows m)
          then range_check_what (to_size_t col) (Matrix.cols m)
          else range_check_what (to_size_t row) (Matrix.rows m)).
Proof.
  intros Hnull Hlive Hm Hrow Hcol Hout. apply is_null_false in Hnull.
  unfold matrix_get, matrix_set. rewrite Hnull. unfold try_catch, bind.
  erewrite deref_live; [|exact Hlive|reflexivity].
  rewrite (matrix_get_throws m row col Hm Hrow Hcol Hout).
  rewrite (matrix_set_throws m row col x Hm Hrow Hcol Hout).
  simpl. eexists. repeat split; reflexivity.
Qed.

(** X11: [matrix_create] with a negative dimension returns the null
    pointer, allocates nothing, and leaves the text of the
    [std::length_error] in the last-error slot: that of the row
    prototype when the column count is negative, that of [resize]
    otherwise. *)
Theorem matrix_create_negative_dimension (s : State) (rows cols : Z) :
  is_int rows -> is_int cols ->
  rows < 0 \/ cols < 0 ->
  exists s',
    matrix_create rows cols s = Returns nullptr s'
    /\ heap s' = heap s
    /\ last_error_message s'
       = (if cols <? 0 then init_length_what else resize_length_what).
Proof.
  intros Hrows Hcols Hneg. unfold is_int in *.
  unfold matrix_create, try_catch, bind, Matrix.new.
  destruct (cols <? 0) eqn:Hc.
  - rewrite make_negative by (unfold Matrix.SIZEOF_DOUBLE; lia).
    simpl. eexists. repeat split; reflexivity.
  - rewrite make_ok by (unfold Matrix.SIZEOF_DOUBLE, INT_MAX in *; lia).
    simpl. rewrite resize_empty_negative by (unfold Matrix.SIZEOF_ROW; lia).
    simpl. eexists. repeat split; reflexivity.
Qed.

(** X12: [matrix_print] on a live, well-formed matrix appends to
    [std::cout], row by row, every cell followed by a blank, and an
    [endl] after each row; nothing else changes. *)
Theorem matrix_print_output (s : State) (h : Handle) (m : Matrix.t) :
  h <> nullptr ->
  heap s !! h = Some (a_matrix m) ->
  well_formed m = true ->
  matrix_print h s = Returns tt (with_cout s (cout s ++ matrix_items m)).
Proof.
  intros Hnull Hlive Hm. apply is_null_false in Hnull.
  unfold matrix_print. rewrite Hnull. unfold bind.
  erewrite deref_live; [|exact Hlive|reflexivity].
  rewrite (print_ok m Hm). reflexivity.
Qed.
End MatrixProps.

(** ** Commutative arithmetic: transposes, function objects, statistics *)

Lemma dmul_comm (x y : double) : dmul x y = dmul y x.
Proof.
  unfold dmul, double_num, ieee; simpl. unfold SFmul.
  destruct x as [sx | sx | | sx mx ex], y as [sy | sy | | sy my ey];
    try reflexivity; try (rewrite xorb_comm; reflexivity).
  rewrite xorb_comm, Pos.mul_comm, Z.add_comm. reflexivity.
Qed.

Lemma dadd_comm (x y : double) : dadd x y = dadd y x.
Proof.
  unfold dadd, double_num, ieee; simpl. unfold SFadd.
  destruct x as [[] | [] | | sx mx ex], y as [[] | [] | | sy my ey];
    try reflexivity.
  rewrite Z.min_comm, Z.add_comm. reflexivity.
Qed.

Section Algebra.
Context `{Toolchain}.

Lemma dot_product_transposed a b at_ bt m k n i j :
  shaped a m k -> shaped b k n -> shaped at_ k m -> shaped bt n k ->
  (forall i t, 0 <= i < m -> 0 <= t < k -> entry at_ t i = entry a i t) ->
  (forall t j, 0 <= t < k -> 0 <= j < n -> entry bt j t = entry b t j) ->
  0 <= i < m -> 0 <= j < n ->
  dot_product bt at_ j i = dot_product a b i j.
Proof.
  intros Ha Hb Hat Hbt Hea Heb Hi Hj. unfold dot_product.
  replace (Matrix.cols_ bt) with k by (symmetry; apply Hbt).
  replace (Matrix.cols_ a) with k by (symmetry; apply Ha).
  assert (Hk : 0 <= k) by apply Ha.
  assert (Hfold : forall l acc, Forall (fun t => 0 <= t < k) l ->
    fold_left (fun sum t => dadd sum (dmul (entry bt j t) (entry at_ t i))) l acc
    = fold_left (fun sum t => dadd sum (dmul (entry a i t) (entry b t j))) l acc).
  { induction l as [|t l IH]; intros acc Hl; simpl; [reflexivity|].
    inversion Hl as [|? ? Ht Hrest]; subst.
    rewrite (Heb t j Ht Hj), (Hea i t Hi Ht), dmul_comm. apply IH. exact Hrest. }
  apply Hfold. apply Forall_forall. intros t Ht.
  apply elem_of_seqZ in Ht. lia.
Qed.

(** X13: for well-formed matrices of matching shapes, [multiply] and
    [transpose] return, and the transpose of the product is the product
    of the transposes in reverse order, cell for cell as doubles. *)
Theorem transpose_of_product (a b : Matrix.t) :
  well_formed a = true -> well_formed b = true ->
  Matrix.cols a = Matrix.rows b ->
  exists ab at_ bt p,
    Matrix.multiply a b = Ok ab
    /\ Matrix.transpose a = Ok at_
    /\ Matrix.transpose b = Ok bt
    /\ Matrix.transpose ab = Ok p
    /\ Matrix.multiply bt at_ = Ok p.
Proof.
  intros Ha Hb Hk. apply well_formed_shaped in Ha, Hb.
  unfold Matrix.cols, Matrix.rows in Hk. rewrite <- Hk in Hb.
  set (m := Matrix.rows_ a) in *. set (k := Matrix.cols_ a) in *.
  set (n := Matrix.cols_ b) in *.
  destruct (multiply_ok a b m k n Ha Hb) as (ab & Hab & Hsab & Heab).
  destruct (transpose_ok a m k Ha) as (at_ & Hat & Hsat & Heat).
  destruct (transpose_ok b k n Hb) as (bt & Hbt & Hsbt & Hebt).
  destruct (transpose_ok ab m n Hsab) as (p & Hp & Hsp & Hep).
  destruct (multiply_ok bt at_ n k m Hsbt Hsat) as (q & Hq & Hsq & Heq).
  exists ab, at_, bt, p. repeat (split; [assumption|]).
  rewrite Hq. f_equal. apply (shaped_ext q p n m Hsq Hsp).
  intros j i Hj Hi. rewrite (Heq j i Hj Hi), (Hep i j Hi Hj), (Heab i j Hi Hj).
  apply (dot_product_transposed a b at_ bt m k n i j); auto.
Qed.

Lemma function_call_live s f g a b :
  is_null f = false -> heap s !! f = Some (a_function g) ->
  function_call f a b s = Returns (std_function_call g a b) s.
Proof.
  intros Hnull Hlive. unfold function_call. rewrite Hnull.
  unfold try_catch, bind. erewrite deref_live; [|exact Hlive|reflexivity].
  reflexivity.
Qed.

(** X18: [function_create_add] and [function_create_multiply] return
    distinct non-null handles; [function_call] through them returns the
    double sum and the double product, the same for either order of the
    arguments, and changes nothing. *)
Theorem function_handles_compute (s : State) :
  exists fa s1 fm s2,
    function_create_add s = Returns fa s1 /\ fa <> nullptr
    /\ function_create_multiply s1 = Returns fm s2 /\ fm <> nullptr /\ fm <> fa
    /\ forall a b,
         function_call fa a b s2 = Returns (dadd a b) s2
         /\ function_call fa b a s2 = Returns (dadd a b) s2
         /\ function_call fm a b s2 = Returns (dmul a b) s2
         /\ function_call fm b a s2 = Returns (dmul a b) s2.
Proof.
  destruct (new_object_fresh (a_function lambda_add) s) as (fa & Hfa & Hnull & Hfree).
  set (s1 := with_heap s (<[fa := a_function lambda_add]> (heap s))) in *.
  destruct (new_object_fresh (a_function lambda_multiply) s1)
    as (fm & Hfm & Hnull' & Hfree').
  set (s2 := with_heap s1 (<[fm := a_function lambda_multiply]> (heap s1))) in *.
  assert (Hlive1 : heap s1 !! fa = Some (a_function lambda_add))
    by apply heap_after_store.
  assert (Hlive2 : heap s2 !! fm = Some (a_function lambda_multiply))
    by apply heap_after_store.
  assert (Hlive2' : heap s2 !! fa = Some (a_function lambda_add))
    by (apply heap_after_new; assumption).
  exists fa, s1, fm, s2.
  split; [unfold function_create_add, try_catch; rewrite Hfa; reflexivity|].
  split; [apply is_null_false; exact Hnull|].
  split; [unfold function_create_multiply, try_catch; rewrite Hfm; reflexivity|].
  split; [apply is_null_false; exact Hnull'|].
  split; [congruence|].
  intros a b.
  rewrite !(function_call_live s2 fa lambda_add) by assumption.
  rewrite !(function_call_live s2 fm lambda_multiply) by assumption.
  simpl. rewrite (dadd_comm b a), (dmul_comm b a). auto.
Qed.

Lemma mean_single (x : double) (rest : list double) :
  is_finite_double x = true ->
  calculate_mean_template double_num (Some (x :: rest)) 1
  = Ok (match x with S754_zero _ => dzero | _ => x end).
Proof.
  intros Hfin. unfold calculate_mean_template.
  change (1 <=? 0) with false. cbv iota.
  rewrite array_range_single. cbn [result_bind fold_left].
  change (of_int double_num 0) with dzero.
  rewrite of_int_one.
  change (add double_num) with (SFadd 53 1024).
  change (div double_num) with (SFdiv 53 1024).
  destruct x as [sx | sx | | sx m e]; try discriminate.
  - destruct sx; reflexivity.
  - simpl in Hfin.
    change (SFadd 53 1024 dzero (S754_finite sx m e)) with (S754_finite sx m e).
    rewrite (div_by_one sx m e Hfin). reflexivity.
Qed.

(** X21: [calculate_mean_double] of a single finite value returns the
    value, a negative zero as [+0.0]; [calculate_standard_deviation]
    returns [+0.0] for a count of zero or less and for a single finite
    value. The state is left as it was. *)
Theorem statistics_of_one_value
    (s : State) (values : array double) (count : Z)
    (x : double) (rest : list double) :
  count <= 0 ->
  is_finite_double x = true ->
  calculate_mean_double (Some (x :: rest)) 1 s
    = Returns (match x with S754_zero _ => dzero | _ => x end) s
  /\ calculate_standard_deviation values count s = Returns dzero s
  /\ calculate_standard_deviation (Some (x :: rest)) 1 s = Returns dzero s.
Proof.
  intros Hcount Hfin.
  assert (Hle : (count <=? 0) = true) by (apply Z.leb_le; exact Hcount).
  unfold calculate_mean_double, calculate_standard_deviation, try_catch, bind.
  rewrite (mean_single x rest Hfin), (variance_single x rest Hfin).
  unfold calculate_variance_template. rewrite Hle.
  repeat split; reflexivity.
Qed.
End Algebra.

(** ** Buffers and iterators through their handles *)

Section ResourceProps.
Context `{Toolchain}.

Lemma resource_live_get s h r index :
  is_null h = false -> heap s !! h = Some (a_resource r) ->
  smart_resource_get h index s = lift (SmartResource.get r index) s.
Proof.
  intros Hnull Hlive. unfold smart_resource_get. rewrite Hnull. unfold bind.
  erewrite deref_live; [|exact Hlive|reflexivity]. reflexivity.
Qed.

Lemma resource_live_size s h r :
  is_null h = false -> heap s !! h = Some (a_resource r) ->
  smart_resource_size h s = Returns (SmartResource.size_ r) s.
Proof.
  intros Hnull Hlive. unfold smart_resource_size. rewrite Hnull. unfold bind.
  erewrite deref_live; [|exact Hlive|reflexivity]. reflexivity.
Qed.

Lemma resource_get_value r index :
  resource_ok r ->
  SmartResource.get r index
  = Ok (if (0 <=? index) && (index <? SmartResource.size_ r)
        then nth (Z.to_nat index) (SmartResource.data r) dzero else dzero).
Proof.
  intros Hr. destruct ((0 <=? index) && (index <? SmartResource.size_ r)) eqn:Hin.
  - destruct (resource_get_in_range r index Hr) as (x & Hx & ->); [lia|].
    rewrite (nth_lookup_Some _ _ _ _ Hx). reflexivity.
  - unfold SmartResource.get. rewrite Hin. reflexivity.
Qed.

(** X14: [smart_resource_create] with a size from [0] to [INT_MAX]
    returns a non-null handle; [smart_resource_size] returns the size
    and [smart_resource_get] returns [0.0] at every index; the
    last-error slot is as it was. *)
Theorem smart_resource_create_zeroed (s : State) (size : Z) :
  0 <= size <= INT_MAX ->
  exists h s',
    smart_resource_create size s = Returns h s'
    /\ h <> nullptr
    /\ smart_resource_size h s' = Returns size s'
    /\ (forall index, smart_resource_get h index s' = Returns dzero s')
    /\ last_error_message s' = last_error_message s.
Proof.
  intros Hsize.
  set (r := SmartResource.Build (replicate (Z.to_nat size) dzero) size).
  destruct (new_object_fresh (a_resource r) s) as (h & Hnew & Hnull & Hfree).
  exists h, (with_heap s (<[h := a_resource r]> (heap s))).
  assert (Hlive : heap (with_heap s (<[h := a_resource r]> (heap s))) !! h
                  = Some (a_resource r)) by apply heap_after_store.
  assert (Hr : resource_ok r).
  { unfold resource_ok, r. simpl. rewrite length_replicate. lia. }
  split.
  { unfold smart_resource_create, try_catch, bind, lift.
    rewrite (resource_new_ok size Hsize). fold r. rewrite Hnew. reflexivity. }
  split; [apply is_null_false; exact Hnull|].
  split; [apply (resource_live_size _ h r Hnull Hlive)|].
  split; [|reflexivity].
  intros index. rewrite (resource_live_get _ h r index Hnull Hlive).
  rewrite (resource_get_value r index Hr). simpl.
  destruct ((0 <=? index) && (index <? size)) eqn:Hin; [|reflexivity].
  rewrite nth_lookup, lookup_replicate_2 by lia. reflexivity.
Qed.

(** X15: [smart_resource_create] with a negative size returns the null
    pointer, allocates nothing, and leaves the text of the
    [std::bad_array_new_length] in the last-error slot. *)
Theorem smart_resource_create_negative (s : State) (size : Z) :
  INT_MIN <= size < 0 ->
  exists s',
    smart_resource_create size s = Returns nullptr s'
    /\ heap s' = heap s
    /\ last_error_message s' = bad_array_new_length_what.
Proof.
  intros Hsize. unfold smart_resource_create, try_catch, bind.
  rewrite (resource_new_negative size Hsize). simpl.
  eexists. repeat split; reflexivity.
Qed.

(** X16: [smart_resource_use] inside a live buffer stores the value:
    [smart_resource_get] reads it back at that index, every other index
    reads as before, and the size is unchanged. *)
Theorem smart_resource_use_then_get
    (s : State) (h : Handle) (r : SmartResource.t) (index : Z) (x : double) :
  h <> nullptr ->
  heap s !! h = Some (a_resource r) ->
  0 <= SmartResource.size r <= INT_MAX ->
  Z.of_nat (length (SmartResource.data r)) = SmartResource.size r ->
  0 <= index < SmartResource.size r ->
  exists s',
    smart_resource_use h index x s = Returns tt s'
    /\ smart_resource_get h index s' = Returns x s'
    /\ (forall i, i <> index ->
          exists y, smart_resource_get h i s = Returns y s
                    /\ smart_resource_get h i s' = Returns y s')
    /\ smart_resource_size h s' = Returns (SmartResource.size r) s'.
Proof.
  intros Hnull Hlive Hsize Hlen Hindex. apply is_null_false in Hnull.
  unfold SmartResource.size in *.
  assert (Hr : resource_ok r) by (split; assumption).
  set (r' := SmartResource.Build (<[Z.to_nat index := x]> (SmartResource.data r))
                                 (SmartResource.size_ r)).
  assert (Hr' : resource_ok r').
  { unfold resource_ok, r'. simpl. rewrite length_insert. split; assumption. }
  exists (with_heap s (<[h := a_resource r']> (heap s))).
  assert (Hlive' : heap (with_heap s (<[h := a_resource r']> (heap s))) !! h
                   = Some (a_resource r')) by apply heap_after_store.
  split.
  { unfold smart_resource_use. rewrite Hnull. unfold bind.
    erewrite deref_live; [|exact Hlive|reflexivity].
    rewrite (resource_set_in_range r index x Hr Hindex). reflexivity. }
  split.
  { rewrite (resource_live_get _ h r' index Hnull Hlive').
    rewrite (resource_get_value r' index Hr'). simpl.
    replace ((0 <=? index) && (index <? SmartResource.size_ r)) with true
      by (symmetry; apply andb_true_iff; lia).
    rewrite nth_lookup, list_lookup_insert_eq by lia. reflexivity. }
  split; [|apply (resource_live_size _ h r' Hnull Hlive')].
  intros i Hi. eexists.
  rewrite (resource_live_get _ h r i Hnull Hlive).
  rewrite (resource_live_get _ h r' i Hnull Hlive').
  rewrite (resource_get_value r i Hr), (resource_get_value r' i Hr'). simpl.
  split; [reflexivity|].
  destruct ((0 <=? i) && (i <? SmartResource.size_ r)) eqn:Hin; [|reflexivity].
  rewrite !nth_lookup, list_lookup_insert_ne by lia. reflexivity.
Qed.
End ResourceProps.

Section IteratorProps.
Context `{Toolchain}.

Lemma iterator_next_live s h it :
  is_null h = false -> heap s !! h = Some (an_iterator it) ->
  iterator_next h s
  = (r <- lift (IteratorWrapper.next it) ;;
     store h (an_iterator (snd r)) ;;; ret (fst r)) s.
Proof.
  intros Hnull Hlive. unfold iterator_next. rewrite Hnull. unfold bind at 1.
  erewrite deref_live; [|exact Hlive|reflexivity]. reflexivity.
Qed.

Lemma iterator_has_next_live s h it :
  is_null h = false -> heap s !! h = Some (an_iterator it) ->
  iterator_has_next h s
  = Returns (if IteratorWrapper.has_next it then 1 else 0) s.
Proof.
  intros Hnull Hlive. unfold iterator_has_next. rewrite Hnull. unfold bind.
  erewrite deref_live; [|exact Hlive|reflexivity]. reflexivity.
Qed.

(** [n] calls of [iterator_next] from position [k] give the next [n]
    elements and leave the cursor at [k + n]. *)
Lemma iterator_take_live (n : nat) : forall s h d k,
  is_null h = false ->
  heap s !! h = Some (an_iterator (IteratorWrapper.Build d (Z.of_nat k))) ->
  (k + n <= length d)%nat ->
  iterator_take h n s
  = Returns (take n (drop k d))
      (with_heap s (<[h := an_iterator (IteratorWrapper.Build d (Z.of_nat (k + n)))]>
                      (heap s))).
Proof.
  induction n as [|n IH]; intros s h d k Hnull Hlive Hfit.
  - simpl. unfold ret. rewrite Nat.add_0_r. rewrite store_back by exact Hlive.
    reflexivity.
  - destruct (lookup_lt_is_Some_2 d k) as [x Hx]; [lia|].
    cbn [iterator_take]. unfold bind at 1.
    rewrite (iterator_next_live _ h _ Hnull Hlive).
    rewrite (next_in_range _ x) by (simpl; rewrite ?Nat2Z.id; (exact Hx || lia)).
    cbn [lift bind store snd fst ret IteratorWrapper.data IteratorWrapper.current].
    unfold bind, store, ret. simpl.
    set (s1 := with_heap s (<[h := an_iterator (IteratorWrapper.Build d (Z.of_nat k + 1))]>
                              (heap s))).
    assert (Hlive1 : heap s1 !! h
                     = Some (an_iterator (IteratorWrapper.Build d (Z.of_nat (S k))))).
    { unfold s1. rewrite heap_after_store. do 3 f_equal. lia. }
    change (mkState _ _ _ _) with s1.
    rewrite (IH s1 h d (S k) Hnull Hlive1) by lia.
    f_equal.
    + rewrite (drop_S d x k Hx). reflexivity.
    + unfold s1. rewrite store_twice. do 5 f_equal. lia.
Qed.

(** X19: an iterator created over the first [size] elements of an array
    yields exactly these, in order, in [size] calls of [iterator_next];
    then [iterator_has_next] returns [0] and [iterator_next] returns [0]
    without moving; [iterator_reset] puts it back to where it was created.
    The last-error slot is not touched. *)
Theorem iterator_yields_snapshot (s : State) (l : list Z) (size : Z) :
  0 <= size <= Z.of_nat (length l) ->
  exists h s1 s2,
    iterator_create (Some l) size s = Returns h s1
    /\ h <> nullptr
    /\ iterator_take h (Z.to_nat size) s1 = Returns (take (Z.to_nat size) l) s2
    /\ iterator_has_next h s2 = Returns 0 s2
    /\ iterator_next h s2 = Returns 0 s2
    /\ iterator_reset h s2 = Returns tt s1
    /\ last_error_message s2 = last_error_message s.
Proof.
  intros Hsize. set (d := take (Z.to_nat size) l).
  assert (Hlen : length d = Z.to_nat size) by (unfold d; rewrite length_take; lia).
  assert (Hnew : IteratorWrapper.new (Some l) size = Ok (IteratorWrapper.Build d 0)).
  { unfold IteratorWrapper.new, array_range.
    destruct (size =? 0) eqn:Hz.
    - simpl. unfold d. replace size with 0 by lia. reflexivity.
    - replace ((0 <? size) && (size <=? Z.of_nat (length l))) with true
        by (symmetry; apply andb_true_iff; lia).
      reflexivity. }
  destruct (new_object_fresh (an_iterator (IteratorWrapper.Build d 0)) s)
    as (h & Hobj & Hnull & Hfree).
  set (s1 := with_heap s (<[h := an_iterator (IteratorWrapper.Build d 0)]> (heap s))) in *.
  assert (Hlive1 : heap s1 !! h = Some (an_iterator (IteratorWrapper.Build d (Z.of_nat 0))))
    by apply heap_after_store.
  set (finished := IteratorWrapper.Build d (Z.of_nat (0 + Z.to_nat size))).
  set (s2 := with_heap s1 (<[h := an_iterator finished]> (heap s1))).
  assert (Hlive2 : heap s2 !! h = Some (an_iterator finished)) by apply heap_after_store.
  assert (Hend : IteratorWrapper.current finished = IteratorWrapper.end_ finished).
  { unfold finished, IteratorWrapper.end_. simpl. lia. }
  exists h, s1, s2.
  split; [unfold iterator_create, try_catch, bind, lift; rewrite Hnew, Hobj;
          reflexivity|].
  split; [apply is_null_false; exact Hnull|].
  split.
  { rewrite (iterator_take_live _ s1 h d 0%nat Hnull Hlive1) by lia.
    f_equal. rewrite drop_0. apply take_ge. lia. }
  split.
  { rewrite (iterator_has_next_live _ h finished Hnull Hlive2).
    unfold IteratorWrapper.has_next. rewrite Hend, Z.eqb_refl. reflexivity. }
  split.
  { rewrite (iterator_next_live _ h finished Hnull Hlive2).
    rewrite (next_at_end finished Hend). unfold bind, lift. cbn [snd fst].
    rewrite (store_same _ _ _ Hlive2). reflexivity. }
  split; [|reflexivity].
  unfold iterator_reset. rewrite Hnull. unfold bind.
  erewrite deref_live; [|exact Hlive2|reflexivity].
  unfold store, IteratorWrapper.reset, finished. simpl. f_equal.
  unfold s2. rewrite store_twice. unfold s1. rewrite store_twice. reflexivity.
Qed.

Lemma iterator_find_live s h it value :
  is_null h = false -> heap s !! h = Some (an_iterator it) ->
  iterator_find h value s
  = (store h (an_iterator (snd (IteratorWrapper.find it value))) ;;;
     ret (if fst (IteratorWrapper.find it value) then 1 else 0)) s.
Proof.
  intros Hnull Hlive. unfold iterator_find. rewrite Hnull. unfold bind at 1.
  erewrite deref_live; [|exact Hlive|reflexivity]. reflexivity.
Qed.

(** X20: [iterator_find] searches the whole snapshot, wherever the
    cursor is: when the value does not occur it returns [0] and changes
    nothing; otherwise it returns [1] and leaves the cursor on the first
    occurrence, so that the next [iterator_next] returns the value
    itself. *)
Theorem iterator_find_first_occurrence
    (s : State) (h : Handle) (it : IteratorWrapper.t) (value : Z) :
  h <> nullptr ->
  heap s !! h = Some (an_iterator it) ->
  ((value ∉ IteratorWrapper.data it) /\ iterator_find h value s = Returns 0 s)
  \/ (exists (k : nat) s' s'',
        IteratorWrapper.data it !! k = Some value
        /\ (forall j, (j < k)%nat -> IteratorWrapper.data it !! j <> Some value)
        /\ iterator_find h value s = Returns 1 s'
        /\ heap s' !! h
           = Some (an_iterator (IteratorWrapper.Build (IteratorWrapper.data it)
                                  (Z.of_nat k)))
        /\ iterator_next h s' = Returns value s''
        /\ last_error_message s'' = last_error_message s).
Proof.
  intros Hnull Hlive. apply is_null_false in Hnull.
  pose proof (std_find_range (IteratorWrapper.data it) value) as Hrange.
  rewrite (iterator_find_live s h it value Hnull Hlive).
  unfold IteratorWrapper.find, IteratorWrapper.end_.
  destruct (IteratorWrapper.std_find (IteratorWrapper.data it) value
            =? Z.of_nat (length (IteratorWrapper.data it))) eqn:Hfound.
  - left. split; [apply std_find_missing; lia|].
    cbn [negb snd fst]. unfold bind. rewrite (store_same _ _ _ Hlive). reflexivity.
  - right.
    destruct (std_find_found (IteratorWrapper.data it) value) as [Hk Hfirst]; [lia|].
    set (k := Z.to_nat (IteratorWrapper.std_find (IteratorWrapper.data it) value)) in *.
    set (found := IteratorWrapper.Build (IteratorWrapper.data it) (Z.of_nat k)).
    set (s' := with_heap s (<[h := an_iterator found]> (heap s))).
    assert (Hlive' : heap s' !! h = Some (an_iterator found)) by apply heap_after_store.
    exists k, s'. eexists.
    split; [exact Hk|]. split; [exact Hfirst|].
    split.
    { assert (Hkz : IteratorWrapper.std_find (IteratorWrapper.data it) value
                    = Z.of_nat k) by (unfold k; lia).
      cbn [negb snd fst]. rewrite Hkz. reflexivity. }
    split; [exact Hlive'|].
    split.
    { rewrite (iterator_next_live _ h found Hnull Hlive').
      rewrite (next_in_range found value)
        by (unfold found; simpl; rewrite ?Nat2Z.id; (exact Hk || lia)).
      reflexivity. }
    reflexivity.
Qed.
End IteratorProps.

(** ** The two safe functions and the life of an object *)

Section SafeProps.
Context `{Toolchain}.

(** X22: [safe_vector_get] with an index inside a live vector returns
    [CPP_SUCCESS] (0), writes the element to [*result] and changes
    nothing else; [vector_get] returns the same element; the last-error
    slot is as it was. *)
Theorem safe_vector_get_success
    (s : State) (h result : Handle) (v : VectorWrapper.t) (index x old : Z) :
  h <> nullptr -> result <> nullptr ->
  heap s !! h = Some (a_vector v) ->
  heap s !! result = Some (an_int old) ->
  0 <= index <= INT_MAX ->
  VectorWrapper.data v !! Z.to_nat index = Some x ->
  exists s',
    safe_vector_get h index result s = Returns CPP_SUCCESS s'
    /\ code_value CPP_SUCCESS = 0
    /\ heap s' = <[result := an_int x]> (heap s)
    /\ vector_get h index s' = Returns x s'
    /\ last_error_message s' = last_error_message s.
Proof.
  intros Hnull Hres Hlive Hcell Hindex Hx.
  apply is_null_false in Hnull. apply is_null_false in Hres.
  unfold INT_MAX in Hindex.
  assert (Hne : result <> h) by congruence.
  exists (with_heap s (<[result := an_int x]> (heap s))).
  split.
  { unfold safe_vector_get. rewrite Hnull, Hres. unfold try_catch, bind.
    erewrite deref_live; [|exact Hlive|reflexivity].
    unfold VectorWrapper.get. rewrite (at_in_range _ _ x) by (lia || exact Hx).
    unfold lift, write_int, bind.
    erewrite deref_live; [|exact Hcell|reflexivity]. reflexivity. }
  split; [reflexivity|]. split; [reflexivity|]. split; [|reflexivity].
  apply (vector_live_get _ h v index x Hnull); [|lia|exact Hx].
  simpl. rewrite lookup_insert_ne by exact Hne. exact Hlive.
Qed.

(** X23: [safe_matrix_multiply] on live, well-formed matrices of
    matching shapes returns [CPP_SUCCESS], allocates the product at a
    fresh address and writes that address to [*result]; the product has
    the rows of the first and the columns of the second operand, its
    cells are the dot products, and the last-error slot is as it was. *)
Theorem safe_matrix_multiply_success
    (s : State) (ha hb result old : Handle) (a b : Matrix.t) :
  ha <> nullptr -> hb <> nullptr -> result <> nullptr ->
  heap s !! ha = Some (a_matrix a) ->
  heap s !! hb = Some (a_matrix b) ->
  heap s !! result = Some (a_handle old) ->
  well_formed a = true -> well_formed b = true ->
  Matrix.cols a = Matrix.rows b ->
  exists hc product s',
    safe_matrix_multiply ha hb result s = Returns CPP_SUCCESS s'
    /\ hc <> nullptr /\ heap s !! hc = None
    /\ heap s' = <[result := a_handle hc]> (<[hc := a_matrix product]> (heap s))
    /\ Matrix.multiply a b = Ok product
    /\ matrix_rows hc s' = Returns (Matrix.rows a) s'
    /\ matrix_cols hc s' = Returns (Matrix.cols b) s'
    /\ (forall i j, 0 <= i < Matrix.rows a -> 0 <= j < Matrix.cols b ->
          matrix_get hc i j s' = Returns (dot_product a b i j) s')
    /\ last_error_message s' = last_error_message s.
Proof.
  intros Hna Hnb Hres Ha Hb Hcell Hwa Hwb Hk.
  apply is_null_false in Hna. apply is_null_false in Hnb. apply is_null_false in Hres.
  apply well_formed_shaped in Hwa, Hwb. unfold Matrix.cols, Matrix.rows in *.
  rewrite <- Hk in Hwb.
  destruct (multiply_ok a b _ _ _ Hwa Hwb) as (product & Hmul & Hshape & Hcells).
  destruct (new_object_fresh (a_matrix product) s) as (hc & Hnew & Hnc & Hfree).
  set (s1 := with_heap s (<[hc := a_matrix product]> (heap s))) in *.
  assert (Hne : result <> hc) by congruence.
  assert (Hcell1 : heap s1 !! result = Some (a_handle old))
    by (apply heap_after_new; assumption).
  set (s' := with_heap s1 (<[result := a_handle hc]> (heap s1))).
  assert (Hlive' : heap s' !! hc = Some (a_matrix product)).
  { unfold s'. simpl. rewrite lookup_insert_ne by exact Hne. apply lookup_insert_eq. }
  exists hc, product, s'.
  split.
  { unfold safe_matrix_multiply. rewrite Hna, Hnb, Hres. cbn [orb].
    unfold try_catch, bind.
    erewrite deref_live; [|exact Ha|reflexivity].
    erewrite deref_live; [|exact Hb|reflexivity].
    rewrite Hmul. unfold lift. rewrite Hnew. unfold write_handle, bind.
    erewrite deref_live; [|exact Hcell1|reflexivity]. reflexivity. }
  split; [apply is_null_false; exact Hnc|].
  split; [exact Hfree|]. split; [reflexivity|]. split; [exact Hmul|].
  split; [rewrite (matrix_rows_live _ hc product Hnc Hlive'); f_equal; apply Hshape|].
  split; [rewrite (matrix_cols_live _ hc product Hnc Hlive'); f_equal; apply Hshape|].
  split; [|reflexivity].
  intros i j Hi Hj.
  rewrite (matrix_get_live _ hc product _ _ i j Hnc Hlive' Hshape Hi Hj).
  rewrite (Hcells i j Hi Hj). reflexivity.
Qed.

(** X24: [safe_vector_get] and [safe_matrix_multiply] return
    [CPP_NULL_POINTER] (-1) and change nothing when a handle or the
    out-parameter is null. *)
Theorem safe_calls_reject_null_pointers
    (s : State) (h result a b product : Handle) (index : Z) :
  h = nullptr \/ result = nullptr ->
  a = nullptr \/ b = nullptr \/ product = nullptr ->
  safe_vector_get h index result s = Returns CPP_NULL_POINTER s
  /\ safe_matrix_multiply a b product s = Returns CPP_NULL_POINTER s
  /\ code_value CPP_NULL_POINTER = -1.
Proof.
  intros Hv Hm. unfold safe_vector_get, safe_matrix_multiply.
  split; [|split; [|reflexivity]].
  - destruct Hv as [-> | ->]; simpl; [reflexivity|].
    destruct (is_null h); reflexivity.
  - destruct Hm as [-> | [-> | ->]]; simpl; [reflexivity | |].
    + destruct (is_null a); reflexivity.
    + destruct (is_null a || is_null b); reflexivity.
Qed.

Lemma new_then_delete {T} (as_T : object -> option T) (o : object) (x : T) (s : State) :
  as_T o = Some x ->
  exists h s1, new_object o s = Returns h s1 /\ delete as_T h s1 = Returns tt s.
Proof.
  intros Hkind. destruct (new_object_fresh o s) as (h & Hnew & Hnull & Hfree).
  exists h, (with_heap s (<[h := o]> (heap s))). split; [exact Hnew|].
  unfold delete. rewrite Hnull. unfold bind.
  erewrite deref_live; [|apply heap_after_store|exact Hkind].
  f_equal. unfold with_heap. simpl. rewrite delete_insert_id by exact Hfree.
  destruct s; reflexivity.
Qed.

(** X25: for vectors, strings, matrices, the three functions and
    iterators, creating an object and destroying it at once gives back
    the state of before the creation. *)
Theorem create_then_destroy (s : State) (text : c_string) (rows cols : Z)
    (l : list Z) (size : Z) :
  0 <= rows <= INT_MAX -> 0 <= cols <= INT_MAX ->
  0 <= size <= Z.of_nat (length l) ->
  (exists h s1, vector_create s = Returns h s1 /\ vector_destroy h s1 = Returns tt s)
  /\ (exists h s1, string_create text s = Returns h s1
                   /\ string_destroy h s1 = Returns tt s)
  /\ (exists h s1, matrix_create rows cols s = Returns h s1
                   /\ matrix_destroy h s1 = Returns tt s)
  /\ (exists h s1, function_create_add s = Returns h s1
                   /\ function_destroy h s1 = Returns tt s)
  /\ (exists h s1, function_create_multiply s = Returns h s1
                   /\ function_destroy h s1 = Returns tt s)
  /\ (exists h s1, function_create_power s = Returns h s1
                   /\ function_destroy h s1 = Returns tt s)
  /\ (exists h s1, iterator_create (Some l) size s = Returns h s1
                   /\ iterator_destroy h s1 = Returns tt s).
Proof.
  intros Hrows Hcols Hsize.
  assert (Hit : exists it, IteratorWrapper.new (Some l) size = Ok it).
  { unfold IteratorWrapper.new, array_range.
    destruct (size =? 0) eqn:Hz; [eexists; reflexivity|].
    replace ((0 <? size) && (size <=? Z.of_nat (length l))) with true
      by (symmetry; apply andb_true_iff; lia).
    eexists; reflexivity. }
  destruct Hit as [it Hit].
  unfold vector_create, string_create, matrix_create, function_create_add,
    function_create_multiply, function_create_power, iterator_create,
    vector_destroy, string_destroy, matrix_destroy, function_destroy,
    iterator_destroy, try_catch, bind, lift.
  rewrite (new_ok rows cols Hrows Hcols), Hit.
  repeat split.
  - destruct (new_then_delete as_vector (a_vector VectorWrapper.new) _ s eq_refl)
      as (h & s1 & Hnew & Hdel).
    exists h, s1. rewrite Hnew. auto.
  - destruct (new_then_delete as_string
        (a_string (StringWrapper.new match text with Some t => t | None => "" end))
        _ s eq_refl) as (h & s1 & Hnew & Hdel).
    exists h, s1. rewrite Hnew. auto.
  - destruct (new_then_delete as_matrix (a_matrix (zeros rows cols)) _ s eq_refl)
      as (h & s1 & Hnew & Hdel).
    exists h, s1. rewrite Hnew. auto.
  - destruct (new_then_delete as_function (a_function lambda_add) _ s eq_refl)
      as (h & s1 & Hnew & Hdel).
    exists h, s1. rewrite Hnew. auto.
  - destruct (new_then_delete as_function (a_function lambda_multiply) _ s eq_refl)
      as (h & s1 & Hnew & Hdel).
    exists h, s1. rewrite Hnew. auto.
  - destruct (new_then_delete as_function (a_function lambda_power) _ s eq_refl)
      as (h & s1 & Hnew & Hdel).
    exists h, s1. rewrite Hnew. auto.
  - destruct (new_then_delete as_iterator (an_iterator it) _ s eq_refl)
      as (h & s1 & Hnew & Hdel).
    exists h, s1. rewrite Hnew. auto.
Qed.

Lemma deref_dangling {T} (as_T : object -> option T) h s :
  heap s !! h = None -> deref as_T h s = Undefined.
Proof. intros Hgone. unfold deref. rewrite Hgone. reflexivity. Qed.

End SafeProps.

(** ** Emptied vectors and reported exceptions *)

Section Reporting.
Context `{Toolchain}.

(** X5: after [vector_clear], [vector_size] and [vector_sum] return [0]
    and [vector_get] fails for every index: it returns [0] and records
    the range error against size [0]. *)
Theorem vector_clear_empties (s : State) (h : Handle) (v : VectorWrapper.t) (index : Z) :
  h <> nullptr ->
  heap s !! h = Some (a_vector v) ->
  is_int index ->
  exists s' s'',
    vector_clear h s = Returns tt s'
    /\ vector_size h s' = Returns 0 s'
    /\ vector_sum h s' = Returns 0 s'
    /\ last_error_message s' = last_error_message s
    /\ vector_get h index s' = Returns 0 s''
    /\ last_error_message s'' = range_check_what (to_size_t index) 0.
Proof.
  intros Hnull Hlive Hint. apply is_null_false in Hnull.
  set (s' := with_heap s (<[h := a_vector (VectorWrapper.clear v)]> (heap s))).
  assert (Hlive' : heap s' !! h = Some (a_vector (VectorWrapper.clear v)))
    by apply heap_after_store.
  exists s'. eexists.
  split.
  { unfold vector_clear. rewrite Hnull. unfold bind.
    erewrite deref_live; [|exact Hlive|reflexivity]. reflexivity. }
  split; [apply (vector_live_size _ h _ Hnull Hlive')|].
  split.
  { unfold vector_sum. rewrite Hnull. unfold bind.
    erewrite deref_live; [|exact Hlive'|reflexivity]. reflexivity. }
  split; [reflexivity|].
  unfold vector_get. rewrite Hnull. unfold try_catch, bind.
  erewrite deref_live; [|exact Hlive'|reflexivity].
  unfold VectorWrapper.get.
  rewrite at_out_of_range;
    [| exact Hint | simpl; unfold PTRDIFF_MAX; lia | simpl; lia].
  simpl. split; reflexivity.
Qed.

(** X29: whatever the arguments and the state, a call either returns to
    its caller or has undefined behaviour: no C++ exception leaves an
    [extern "C"] function. (Memory is taken to be sufficient.) *)
Theorem no_exception_crosses_the_boundary (c : call) (s : State) :
  (exists v s', run c s = Returns v s') \/ run c s = Undefined.
Proof.
  destruct (run c s) as [v s' | e s' |] eqn:Hrun.
  - left. exists v, s'. reflexivity.
  - exfalso. exact (nothing_escapes c s s' e Hrun).
  - right. reflexivity.
Qed.

(** X30: the last-error slot changes only by a handled exception: when
    a call returns with another text in the slot than before, it has
    handled exactly one exception, the text is that exception's
    [what()], and [get_last_error_message] returns it. *)
Theorem handled_exception_is_reported (c : call) (s s' : State) (v : value) :
  run c s = Returns v s' ->
  last_error_message s' <> last_error_message s ->
  exists e,
    faults s' = e :: faults s
    /\ last_error_message s' = what e
    /\ get_last_error_message s' = Returns (what e) s'.
Proof.
  intros Hrun Hchanged.
  pose proof (run_accounted c s) as Hacc. rewrite Hrun in Hacc.
  destruct Hacc as [[_ Hsame] | (e & He & Hmsg)]; [contradiction|].
  exists e. split; [exact He|]. split; [exact Hmsg|].
  unfold get_last_error_message, read_last_error. rewrite Hmsg. reflexivity.
Qed.
End Reporting.

(** ** The properties on sample inputs, with GNU libstdc++ *)

#[local] Existing Instance gnu.

(** The sequence and iterator examples of the specification. *)
Example vector_sort_example :
  returned ((v <- vector_create ;;
             vector_add v 3 ;;; vector_add v 1 ;;; vector_add v 2 ;;;
             total <- vector_sum v ;;
             vector_sort v ;;;
             a <- vector_get v 0 ;; b <- vector_get v 1 ;; c <- vector_get v 2 ;;
             ret (total, [a; b; c])) initial)
  = Some (6, [1; 2; 3]).
Proof. vm_compute. reflexivity. Qed.

Example iterator_traversal_example :
  returned ((h <- iterator_create (Some [5; 7; 9]) 3 ;;
             a <- iterator_next h ;; b <- iterator_next h ;; c <- iterator_next h ;;
             more <- iterator_has_next h ;;
             ret ([a; b; c], more)) initial)
  = Some ([5; 7; 9], 0).
Proof. vm_compute. reflexivity. Qed.

Example matrix_create_negative_example :
  returned ((h <- matrix_create (-1) 2 ;;
             msg <- get_last_error_message ;;
             ret (h, msg)) initial)
  = Some (nullptr, "vector::_M_fill_insert").
Proof. vm_compute. reflexivity. Qed.

Example matrix_multiply_example :
  returned ((c <- matrix_multiply 1%N 2%N ;;
             x <- matrix_get c 0 0 ;; y <- matrix_get c 1 0 ;;
             ret [x; y]) sample)
  = Some [num 17; num 39].
Proof. vm_compute. reflexivity. Qed.

Lemma gnu_range_check_what_nonempty :
  forall n size : Z, range_check_what n size <> "".
Proof. intros n size. simpl. discriminate. Qed.

(** C3 as the specification states it does not hold: from the initial
    state, [iterator_find] returns 1, but the [iterator_next] that follows
    yields 7, not 9. *)
Lemma iterator_next_after_find_is_not_9 :
  returned (find_then_next initial) = Some (1, 7, 9)
  /\ ~ (exists second, returned (find_then_next initial) = Some (1, 9, second)).
Proof.
  assert (Hrun : returned (find_then_next initial) = Some (1, 7, 9))
    by (vm_compute; reflexivity).
  split; [exact Hrun|]. intros [second Hclaim]. rewrite Hrun in Hclaim.
  discriminate Hclaim.
Qed.

Lemma matrix_multiply_dot_product_witness :
  exists hc s',
    matrix_multiply 1%N 2%N sample = Returns hc s' /\ hc <> nullptr
    /\ matrix_rows hc s' = Returns (Matrix.rows sample_a) s'
    /\ matrix_cols hc s' = Returns (Matrix.cols sample_b) s'
    /\ (forall i j, 0 <= i < Matrix.rows sample_a -> 0 <= j < Matrix.cols sample_b ->
          matrix_get hc i j s' = Returns (dot_product sample_a sample_b i j) s')
    /\ last_error_message s' = last_error_message sample.
Proof.
  apply (matrix_multiply_dot_product sample 1%N 2%N sample_a sample_b);
    [ unfold nullptr; lia | unfold nullptr; lia | reflexivity | reflexivity
    | reflexivity | reflexivity | reflexivity ].
Defined.

Lemma matrix_multiply_shape_mismatch_witness :
  exists s',
    safe_matrix_multiply 2%N 1%N 6%N sample = Returns CPP_INVALID_OPERATION s'
    /\ code_value CPP_INVALID_OPERATION = -3
    /\ matrix_multiply 2%N 1%N sample = Returns nullptr s'
    /\ heap s' = heap sample
    /\ last_error_message s' = "Matrix dimensions don't match for multiplication"
    /\ get_last_error_message s'
       = Returns "Matrix dimensions don't match for multiplication" s'.
Proof.
  apply (matrix_multiply_shape_mismatch sample 2%N 1%N 6%N sample_b sample_a);
    [ unfold nullptr; lia | unfold nullptr; lia | unfold nullptr; lia
    | reflexivity | reflexivity | simpl; lia ].
Defined.

Lemma matrix_transpose_involution_witness :
  exists t s1 u s2,
    matrix_transpose 1%N sample = Returns t s1 /\ t <> nullptr
    /\ matrix_rows t s1 = Returns (Matrix.cols sample_a) s1
    /\ matrix_cols t s1 = Returns (Matrix.rows sample_a) s1
    /\ (forall i j, 0 <= i < Matrix.rows sample_a -> 0 <= j < Matrix.cols sample_a ->
          matrix_get t j i s1 = Returns (entry sample_a i j) s1)
    /\ matrix_transpose t s1 = Returns u s2 /\ u <> nullptr
    /\ matrix_rows u s2 = Returns (Matrix.rows sample_a) s2
    /\ matrix_cols u s2 = Returns (Matrix.cols sample_a) s2
    /\ (forall i j, 0 <= i < Matrix.rows sample_a -> 0 <= j < Matrix.cols sample_a ->
          matrix_get u i j s2 = Returns (entry sample_a i j) s2
          /\ matrix_get 1%N i j s2 = Returns (entry sample_a i j) s2)
    /\ heap s2 !! u = Some (a_matrix sample_a)
    /\ last_error_message s2 = last_error_message sample.
Proof.
  apply (matrix_transpose_involution sample 1%N sample_a);
    [ unfold nullptr; lia | reflexivity | reflexivity ].
Defined.

Lemma safe_vector_get_out_of_bounds_witness :
  exists s' msg,
    safe_vector_get 3%N 5 5%N sample = Returns CPP_OUT_OF_BOUNDS s'
    /\ code_value CPP_OUT_OF_BOUNDS = -2
    /\ heap s' = heap sample
    /\ get_last_error_message s' = Returns msg s'
    /\ msg = range_check_what (to_size_t 5) 2
    /\ msg <> "".
Proof.
  apply (safe_vector_get_out_of_bounds sample 3%N 5%N (VectorWrapper.Build [10; 20]) 5);
    [ unfold nullptr; lia | unfold nullptr; lia | reflexivity
    | simpl; unfold PTRDIFF_MAX; lia
    | unfold is_int, INT_MIN, INT_MAX; lia
    | simpl; lia
    | exact gnu_range_check_what_nonempty ].
Defined.

Lemma null_handle_is_tolerated_witness :
  exists v,
    run (call_matrix_get nullptr 0 0) sample = Returns v sample
    /\ v = v_double dzero
    /\ (v_double dzero = v_int 0 \/ v_double dzero = v_double dzero
        \/ v_double dzero = v_text "").
Proof.
  apply (null_handle_is_tolerated (call_matrix_get nullptr 0 0) sample).
  simpl. left. reflexivity.
Defined.

Lemma smart_resource_out_of_range_ignored_witness :
  smart_resource_get 4%N 2 sample = Returns dzero sample
  /\ smart_resource_use 4%N 2 (num 9) sample = Returns tt sample.
Proof.
  apply (smart_resource_out_of_range_ignored sample 4%N
           (SmartResource.Build [dzero; dzero] 2) 2 (num 9));
    [ unfold nullptr; lia | reflexivity | simpl; lia ].
Defined.

Lemma success_keeps_last_error_witness :
  last_error_message (state_after (run (call_vector_get 3%N 1) sample) initial)
  = "an earlier failure".
Proof.
  apply (success_keeps_last_error (call_vector_get 3%N 1) sample
           (state_after (run (call_vector_get 3%N 1) sample) initial) (v_int 20));
    [ vm_compute; reflexivity | reflexivity ].
Defined.

Lemma statistics_of_empty_and_single_witness :
  calculate_mean_double None 0 initial = Returns dzero initial
  /\ calculate_mean_float None 0 initial = Returns fzero initial
  /\ calculate_variance None 0 initial = Returns dzero initial
  /\ calculate_variance (Some [num 3]) 1 initial = Returns dzero initial.
Proof.
  apply (statistics_of_empty_and_single initial None None 0 (num 3) []);
    [ lia | reflexivity ].
Defined.

Lemma matrix_create_zero_initialised_witness :
  exists h s',
    matrix_create 2 3 initial = Returns h s'
    /\ h <> nullptr
    /\ forall r c, 0 <= r < 2 -> 0 <= c < 3 ->
         matrix_get h r c s' = Returns dzero s'.
Proof.
  apply (matrix_create_zero_initialised initial 2 3); unfold INT_MAX; lia.
Defined.

(** ** The further properties on sample inputs *)

Lemma vector_add_then_get_witness :
  exists s',
    vector_add 3%N 30 sample = Returns tt s'
    /\ vector_size 3%N s' = Returns 3 s'
    /\ vector_get 3%N 2 s' = Returns 30 s'
    /\ (forall i y, [10; 20] !! i = Some y ->
          vector_get 3%N (Z.of_nat i) s' = Returns y s')
    /\ last_error_message s' = last_error_message sample.
Proof.
  apply (vector_add_then_get sample 3%N (VectorWrapper.Build [10; 20]) 30);
    [ unfold nullptr; lia | reflexivity | simpl; unfold INT_MAX; lia ].
Defined.

Lemma vector_get_out_of_range_witness :
  exists s',
    vector_get 3%N (-1) sample = Returns 0 s'
    /\ heap s' = heap sample
    /\ last_error_message s' = range_check_what (to_size_t (-1)) 2.
Proof.
  apply (vector_get_out_of_range sample 3%N (VectorWrapper.Build [10; 20]) (-1));
    [ unfold nullptr; lia | reflexivity | simpl; unfold PTRDIFF_MAX; lia
    | unfold is_int, INT_MIN, INT_MAX; lia | simpl; lia ].
Defined.

Lemma vector_sum_exact_witness :
  vector_sum 3%N sample = Returns 30 sample.
Proof.
  apply (vector_sum_exact sample 3%N (VectorWrapper.Build [10; 20]));
    [ unfold nullptr; lia | reflexivity
    | simpl; unfold is_int, INT_MIN, INT_MAX; lia ].
Defined.

Lemma vector_sort_sorts_witness :
  exists s' sorted,
    vector_sort 3%N sample = Returns tt s'
    /\ heap s' !! 3%N = Some (a_vector (VectorWrapper.Build sorted))
    /\ StronglySorted Z.le sorted
    /\ sorted ≡ₚ [10; 20]
    /\ (forall i y, sorted !! i = Some y ->
          vector_get 3%N (Z.of_nat i) s' = Returns y s')
    /\ vector_size 3%N s' = Returns 2 s'
    /\ last_error_message s' = last_error_message sample.
Proof.
  apply (vector_sort_sorts sample 3%N (VectorWrapper.Build [10; 20]));
    [ unfold nullptr; lia | reflexivity | simpl; unfold PTRDIFF_MAX; lia ].
Defined.

Lemma vector_clear_empties_witness :
  exists s' s'',
    vector_clear 3%N sample = Returns tt s'
    /\ vector_size 3%N s' = Returns 0 s'
    /\ vector_sum 3%N s' = Returns 0 s'
    /\ last_error_message s' = last_error_message sample
    /\ vector_get 3%N 0 s' = Returns 0 s''
    /\ last_error_message s'' = range_check_what (to_size_t 0) 0.
Proof.
  apply (vector_clear_empties sample 3%N (VectorWrapper.Build [10; 20]) 0);
    [ unfold nullptr; lia | reflexivity | unfold is_int, INT_MIN, INT_MAX; lia ].
Defined.

Lemma string_reverse_twice_witness :
  exists s1,
    string_reverse 1%N sample_text = Returns tt s1
    /\ string_get_cstr 1%N s1 = Returns "olleH" s1
    /\ string_length_cpp 1%N s1 = Returns 5 s1
    /\ string_reverse 1%N s1 = Returns tt sample_text.
Proof.
  apply (string_reverse_twice sample_text 1%N (StringWrapper.Build "Hello"));
    [ unfold nullptr; lia | reflexivity ].
Defined.

Lemma string_case_conversion_witness :
  exists upper lower,
    string_to_upper 1%N sample_text = Returns tt upper
    /\ string_to_lower 1%N sample_text = Returns tt lower
    /\ string_length_cpp 1%N upper = Returns 5 upper
    /\ string_length_cpp 1%N lower = Returns 5 lower
    /\ string_to_upper 1%N upper = Returns tt upper
    /\ string_to_lower 1%N upper = Returns tt lower
    /\ string_to_upper 1%N lower = Returns tt upper.
Proof.
  apply (string_case_conversion sample_text 1%N (StringWrapper.Build "Hello"));
    [ unfold nullptr; lia | reflexivity ].
Defined.

Lemma matrix_set_then_get_witness :
  exists s',
    matrix_set 1%N 0 1 (num 9) sample = Returns tt s'
    /\ matrix_get 1%N 0 1 s' = Returns (num 9) s'
    /\ (forall i' j', 0 <= i' < 2 -> 0 <= j' < 2 -> (i', j') <> (0, 1) ->
          matrix_get 1%N i' j' s' = Returns (entry sample_a i' j') s')
    /\ matrix_rows 1%N s' = Returns 2 s'
    /\ matrix_cols 1%N s' = Returns 2 s'
    /\ last_error_message s' = last_error_message sample.
Proof.
  apply (matrix_set_then_get sample 1%N sample_a 0 1 (num 9));
    [ unfold nullptr; lia | reflexivity | reflexivity | simpl; lia | simpl; lia ].
Defined.

Lemma matrix_access_out_of_range_witness :
  exists s',
    matrix_get 1%N 0 2 sample = Returns dzero s'
    /\ matrix_set 1%N 0 2 (num 9) sample = Returns tt s'
    /\ heap s' = heap sample
    /\ last_error_message s' = range_check_what (to_size_t 2) 2.
Proof.
  apply (matrix_access_out_of_range sample 1%N sample_a 0 2 (num 9));
    [ unfold nullptr; lia | reflexivity | reflexivity
    | unfold is_int, INT_MIN, INT_MAX; lia | unfold is_int, INT_MIN, INT_MAX; lia
    | simpl; lia ].
Defined.

Lemma matrix_create_negative_dimension_witness :
  exists s',
    matrix_create (-1) 2 initial = Returns nullptr s'
    /\ heap s' = heap initial
    /\ last_error_message s' = resize_length_what.
Proof.
  apply (matrix_create_negative_dimension initial (-1) 2);
    [ unfold is_int, INT_MIN, INT_MAX; lia | unfold is_int, INT_MIN, INT_MAX; lia
    | lia ].
Defined.

Lemma matrix_print_output_witness :
  matrix_print 2%N sample
  = Returns tt (with_cout sample
      [put_double (num 5); put_text " "; put_endl;
       put_double (num 6); put_text " "; put_endl]).
Proof.
  apply (matrix_print_output sample 2%N sample_b);
    [ unfold nullptr; lia | reflexivity | reflexivity ].
Defined.

Lemma transpose_of_product_witness :
  exists ab at_ bt p,
    Matrix.multiply sample_a sample_b = Ok ab
    /\ Matrix.transpose sample_a = Ok at_
    /\ Matrix.transpose sample_b = Ok bt
    /\ Matrix.transpose ab = Ok p
    /\ Matrix.multiply bt at_ = Ok p.
Proof.
  apply (transpose_of_product sample_a sample_b); reflexivity.
Defined.

Lemma smart_resource_create_zeroed_witness :
  exists h s',
    smart_resource_create 3 initial = Returns h s'
    /\ h <> nullptr
    /\ smart_resource_size h s' = Returns 3 s'
    /\ (forall index, smart_resource_get h index s' = Returns dzero s')
    /\ last_error_message s' = last_error_message initial.
Proof.
  apply (smart_resource_create_zeroed initial 3). unfold INT_MAX. lia.
Defined.

Lemma smart_resource_create_negative_witness :
  exists s',
    smart_resource_create (-1) initial = Returns nullptr s'
    /\ heap s' = heap initial
    /\ last_error_message s' = bad_array_new_length_what.
Proof.
  apply (smart_resource_create_negative initial (-1)). unfold INT_MIN. lia.
Defined.

Lemma smart_resource_use_then_get_witness :
  exists s',
    smart_resource_use 4%N 1 (num 9) sample = Returns tt s'
    /\ smart_resource_get 4%N 1 s' = Returns (num 9) s'
    /\ (forall i, i <> 1 ->
          exists y, smart_resource_get 4%N i sample = Returns y sample
                    /\ smart_resource_get 4%N i s' = Returns y s')
    /\ smart_resource_size 4%N s' = Returns 2 s'.
Proof.
  apply (smart_resource_use_then_get sample 4%N
           (SmartResource.Build [dzero; dzero] 2) 1 (num 9));
    [ unfold nullptr; lia | reflexivity | simpl; unfold INT_MAX; lia
    | reflexivity | simpl; lia ].
Defined.

Lemma smart_resource_is_never_released_witness :
  exists r',
    heap (state_after (run (call_smart_resource_use 4%N 1 (num 9)) sample) initial)
      !! 4%N = Some (a_resource r')
    /\ SmartResource.size r' = 2.
Proof.
  apply (smart_resource_is_never_released (call_smart_resource_use 4%N 1 (num 9))
           sample
           (state_after (run (call_smart_resource_use 4%N 1 (num 9)) sample) initial)
           v_void 4%N (SmartResource.Build [dzero; dzero] 2));
    [ vm_compute; reflexivity | reflexivity ].
Defined.

Lemma iterator_yields_snapshot_witness :
  exists h s1 s2,
    iterator_create (Some [5; 7; 9]) 2 initial = Returns h s1
    /\ h <> nullptr
    /\ iterator_take h 2 s1 = Returns [5; 7] s2
    /\ iterator_has_next h s2 = Returns 0 s2
    /\ iterator_next h s2 = Returns 0 s2
    /\ iterator_reset h s2 = Returns tt s1
    /\ last_error_message s2 = last_error_message initial.
Proof.
  apply (iterator_yields_snapshot initial [5; 7; 9] 2). simpl. lia.
Defined.

Lemma iterator_find_first_occurrence_witness :
  ((7 ∉ [5; 7; 9; 7]) /\ iterator_find 2%N 7 sample_text = Returns 0 sample_text)
  \/ (exists (k : nat) s' s'',
        [5; 7; 9; 7] !! k = Some 7
        /\ (forall j, (j < k)%nat -> [5; 7; 9; 7] !! j <> Some 7)
        /\ iterator_find 2%N 7 sample_text = Returns 1 s'
        /\ heap s' !! 2%N
           = Some (an_iterator (IteratorWrapper.Build [5; 7; 9; 7] (Z.of_nat k)))
        /\ iterator_next 2%N s' = Returns 7 s''
        /\ last_error_message s'' = last_error_message sample_text).
Proof.
  apply (iterator_find_first_occurrence sample_text 2%N
           (IteratorWrapper.Build [5; 7; 9; 7] 3) 7);
    [ unfold nullptr; lia | reflexivity ].
Defined.

Lemma statistics_of_one_value_witness :
  calculate_mean_double (Some [num 3]) 1 initial = Returns (num 3) initial
  /\ calculate_standard_deviation None 0 initial = Returns dzero initial
  /\ calculate_standard_deviation (Some [num 3]) 1 initial = Returns dzero initial.
Proof.
  apply (statistics_of_one_value initial None 0 (num 3) []); [ lia | reflexivity ].
Defined.

Lemma safe_vector_get_success_witness :
  exists s',
    safe_vector_get 3%N 1 5%N sample = Returns CPP_SUCCESS s'
    /\ code_value CPP_SUCCESS = 0
    /\ heap s' = <[5%N := an_int 20]> (heap sample)
    /\ vector_get 3%N 1 s' = Returns 20 s'
    /\ last_error_message s' = last_error_message sample.
Proof.
  apply (safe_vector_get_success sample 3%N 5%N (VectorWrapper.Build [10; 20]) 1 20 77);
    [ unfold nullptr; lia | unfold nullptr; lia | reflexivity | reflexivity
    | unfold INT_MAX; lia | reflexivity ].
Defined.

Lemma safe_matrix_multiply_success_witness :
  exists hc product s',
    safe_matrix_multiply 1%N 2%N 6%N sample = Returns CPP_SUCCESS s'
    /\ hc <> nullptr /\ heap sample !! hc = None
    /\ heap s' = <[6%N := a_handle hc]> (<[hc := a_matrix product]> (heap sample))
    /\ Matrix.multiply sample_a sample_b = Ok product
    /\ matrix_rows hc s' = Returns 2 s'
    /\ matrix_cols hc s' = Returns 1 s'
    /\ (forall i j, 0 <= i < 2 -> 0 <= j < 1 ->
          matrix_get hc i j s' = Returns (dot_product sample_a sample_b i j) s')
    /\ last_error_message s' = last_error_message sample.
Proof.
  apply (safe_matrix_multiply_success sample 1%N 2%N 6%N nullptr sample_a sample_b);
    [ unfold nullptr; lia | unfold nullptr; lia | unfold nullptr; lia
    | reflexivity | reflexivity | reflexivity | reflexivity | reflexivity
    | reflexivity ].
Defined.

Lemma safe_calls_reject_null_pointers_witness :
  safe_vector_get 3%N 0 nullptr sample = Returns CPP_NULL_POINTER sample
  /\ safe_matrix_multiply 1%N nullptr 6%N sample = Returns CPP_NULL_POINTER sample
  /\ code_value CPP_NULL_POINTER = -1.
Proof.
  apply (safe_calls_reject_null_pointers sample 3%N nullptr 1%N nullptr 6%N 0);
    [ right; reflexivity | right; left; reflexivity ].
Defined.

Lemma create_then_destroy_witness :
  (exists h s1, vector_create initial = Returns h s1
                /\ vector_destroy h s1 = Returns tt initial)
  /\ (exists h s1, string_create (Some "abc") initial = Returns h s1
                   /\ string_destroy h s1 = Returns tt initial)
  /\ (exists h s1, matrix_create 2 3 initial = Returns h s1
                   /\ matrix_destroy h s1 = Returns tt initial)
  /\ (exists h s1, function_create_add initial = Returns h s1
                   /\ function_destroy h s1 = Returns tt initial)
  /\ (exists h s1, function_create_multiply initial = Returns h s1
                   /\ function_destroy h s1 = Returns tt initial)
  /\ (exists h s1, function_create_power initial = Returns h s1
                   /\ function_destroy h s1 = Returns tt initial)
  /\ (exists h s1, iterator_create (Some [5; 7; 9]) 3 initial = Returns h s1
                   /\ iterator_destroy h s1 = Returns tt initial).
Proof.
  apply (create_then_destroy initial (Some "abc") 2 3 [5; 7; 9] 3);
    [ unfold INT_MAX; lia | unfold INT_MAX; lia | simpl; lia ].
Defined.



Lemma call_leaves_other_objects_alone_witness :
  heap (state_after (run (call_vector_add 3%N 30) sample) initial) !! 1%N
  = Some (a_matrix sample_a).
Proof.
  apply (call_leaves_other_objects_alone (call_vector_add 3%N 30) sample
           (state_after (run (call_vector_add 3%N 30) sample) initial)
           v_void 1%N (a_matrix sample_a));
    [ vm_compute; reflexivity
    | simpl; intros Hin; apply list_elem_of_singleton in Hin; discriminate Hin
    | reflexivity ].
Defined.

Lemma handled_exception_is_reported_witness :
  exists e,
    faults (state_after (run (call_vector_get 3%N 5) sample) initial)
    = e :: faults sample
    /\ last_error_message (state_after (run (call_vector_get 3%N 5) sample) initial)
       = what e
    /\ get_last_error_message
         (state_after (run (call_vector_get 3%N 5) sample) initial)
       = Returns (what e)
           (state_after (run (call_vector_get 3%N 5) sample) initial).
Proof.
  apply (handled_exception_is_reported (call_vector_get 3%N 5) sample
           (state_after (run (call_vector_get 3%N 5) sample) initial) (v_int 0));
    [ vm_compute; reflexivity | vm_compute; discriminate ].
Defined.
